(** * wav2msu.js: the WAVE / MSU-1 codec of [docs/index.js]

    A shallow embedding of the four exported functions [wavBufferToRawPcm],
    [rawPcmToMsu], [msuToRawPcm] and [rawPcmToWav], of their helpers
    [getString], [putString], [parseWavFile] and [parseFMT], and of the part
    of the JavaScript platform they run on: [ArrayBuffer]s in a store,
    [DataView] and [Uint16Array] views that alias a buffer of the store, and
    exceptions.

    Conventions.
    - An [ArrayBuffer] is a [list byte]; the store ([Heap]) is the list of
      all buffers allocated so far and a reference is an index in it, so a
      fresh allocation is an append.
    - JavaScript numbers are modelled exactly: integers as [Z], and the
      results of the divisions of the source ([/ 2], [/ 1000],
      [* 8 / bitsPerSample]) as rationals [Q].
    - [Uint16Array] elements are read in the byte order of the host, which is
      little-endian on the platforms JavaScript engines run on; [DataView]
      accessors are big-endian unless their [littleEndian] argument is true.
    - A computation is a function from the store to a store and an outcome
      (a value or a thrown exception). *)

From Stdlib Require Import ZArith QArith Ascii String Lia.
From Stdlib.Strings Require Import Byte.
From stdpp Require Import base option list gmap strings pretty.

Local Open Scope string_scope.
Local Open Scope list_scope.
Local Open Scope Z_scope.

(** ** Bytes *)

Definition byte_of_Z (z : Z) : byte :=
  match Byte.of_N (Z.to_N (z mod 256)) with
  | Some b => b
  | None => x00
  end.

Definition Z_of_byte (b : byte) : Z := Z.of_N (Byte.to_N b).

(** [String.fromCharCode] and [charCodeAt] on the characters below 256. *)
Definition fromCharCode (c : Z) : ascii := ascii_of_N (Z.to_N c).
Definition charCodeAt (c : ascii) : Z := Z.of_N (N_of_ascii c).

(** Raw bytes to number and back, least significant byte first
    (RawBytesToNumeric and NumericToRawBytes of ECMA-262). *)
Fixpoint bytesToNumber (raw : list byte) : Z :=
  match raw with
  | [] => 0
  | b :: rest => Z_of_byte b + 256 * bytesToNumber rest
  end.

Fixpoint numberToBytes (elementSize : nat) (v : Z) : list byte :=
  match elementSize with
  | O => []
  | S n => byte_of_Z v :: numberToBytes n (v / 256)
  end.

(** ** JavaScript numbers that are not integers *)

(** Truncation towards zero (ToIntegerOrInfinity on a finite number). *)
Definition truncate (q : Q) : Z := Z.quot (Qnum q) (Z.pos (Qden q)).

(** ToUint16 / ToUint32: truncate, then reduce modulo [2^bits]. *)
Definition toUint (bits : Z) (q : Q) : Z := truncate q mod 2 ^ bits.

Definition Qlt_bool (x y : Q) : bool :=
  (Qnum x * Z.pos (Qden y) <? Qnum y * Z.pos (Qden x))%Z.

(** Decimal digits of the fraction [r / d], for [0 <= r < d]. *)
Fixpoint fractionDigits (fuel : nat) (r d : Z) : string :=
  match fuel with
  | O => ""
  | S fuel' =>
      if r =? 0 then ""
      else pretty (10 * r / d) +:+ fractionDigits fuel' (10 * r mod d) d
  end.

(** Number::toString on the numbers the codec prints: integers below 2^53
    and their quotients by 2 or by 1000, whose decimal expansion is finite
    and short enough to be the one JavaScript prints. *)
Definition numberToString (q : Q) : string :=
  let n := Qnum q in
  let d := Z.pos (Qden q) in
  let a := Z.abs n in
  (if n <? 0 then "-" else "") +:+ pretty (a / d) +:+
  (if a mod d =? 0 then "" else "." +:+ fractionDigits 20 (a mod d) d).

(** ** The store of ArrayBuffers, exceptions, computations *)

Abbreviation BufRef := nat.
Abbreviation Heap := (list (list byte)).

(** The exceptions of the codec: its own two classes, the [RangeError] of
    the platform (a [DataView] or typed-array access or construction out of
    bounds; its message is the engine's and is not modelled), and the plain
    [Error] that [rawPcmToWav] rethrows, whose [message] here is the part
    the source appends to the engine's text. *)
Inductive error : Type :=
| WavError (message : string)
| MsuError (message : string)
| RangeError
| Error (message : string).

(** How a call ends. [OutOfFuel] is the bounded [while] loop of
    [parseWavFile] giving up; [total_wavBufferToRawPcm] shows that it never
    happens. *)
Inductive outcome (A : Type) : Type :=
| Return (a : A)
| Throw (e : error)
| OutOfFuel.
Arguments Return {A} a.
Arguments Throw {A} e.
Arguments OutOfFuel {A}.

Definition M (A : Type) : Type := Heap → Heap * outcome A.

#[export] Instance M_ret : MRet M := λ A a h, (h, Return a).

#[export] Instance M_bind : MBind M := λ A B f m h,
  match m h with
  | (h', Return a) => f a h'
  | (h', Throw e) => (h', Throw e)
  | (h', OutOfFuel) => (h', OutOfFuel)
  end.

Definition throw {A : Type} (e : error) : M A := λ h, (h, Throw e).

(** [try { m } catch (e) { handler e }] *)
Definition tryCatch {A : Type} (m : M A) (handler : error → M A) : M A := λ h,
  match m h with
  | (h', Throw e) => handler e h'
  | r => r
  end.

(** [for (let i = start; i < start + count; i++) s = body(i, s)] *)
Fixpoint forLoop {S : Type} (count : nat) (i : Z) (s : S)
    (body : Z → S → M S) : M S :=
  match count with
  | O => mret s
  | Datatypes.S n => s' ← body i s; forLoop n (i + 1) s' body
  end.

Definition bufferBytes (h : Heap) (buffer : BufRef) : list byte :=
  default [] (h !! buffer).

(** [buffer.byteLength] *)
Definition bufferByteLength (buffer : BufRef) : M Z := λ h,
  (h, Return (Z.of_nat (length (bufferBytes h buffer)))).

(** [(new Uint8Array(size)).buffer]: a fresh zero-filled buffer. *)
Definition newBuffer (size : Z) : M BufRef := λ h,
  (h ++ [replicate (Z.to_nat size) x00], Return (length h)).

Definition loadBytes (buffer : BufRef) (index : Z) (count : nat)
    : M (list byte) := λ h,
  (h, Return (take count (drop (Z.to_nat index) (bufferBytes h buffer)))).

Definition writeBytes (index : nat) (raw data : list byte) : list byte :=
  if decide (index + length raw ≤ length data)%nat
  then take index data ++ raw ++ drop (index + length raw) data
  else data.

Definition storeBytes (buffer : BufRef) (index : Z) (raw : list byte)
    : M unit := λ h,
  (<[buffer := writeBytes (Z.to_nat index) raw (bufferBytes h buffer)]> h,
   Return ()).

(** ToIndex of ECMA-262. Buffers are unbounded in this model (allocation
    never fails), so the upper limit [2^53 - 1] of ToIndex is left out:
    every index that passes is compared with a buffer length next. *)
Definition toIndex (q : Q) : M Z :=
  let i := truncate q in
  if i <? 0 then throw RangeError else mret i.

(** ** DataView *)

Record DataView : Type := {
  dv_buffer : BufRef;
  dv_byteOffset : Z;
  dv_byteLength : Z;
}.

(** [new DataView(buffer, byteOffset, byteLength)]; [byteLength] is [None]
    when the argument is left out. *)
Definition newDataView (buffer : BufRef) (byteOffset : Z)
    (byteLength : option Z) : M DataView :=
  offset ← toIndex (inject_Z byteOffset);
  bufferLength ← bufferByteLength buffer;
  if bufferLength <? offset then throw RangeError
  else
    match byteLength with
    | None =>
        mret {| dv_buffer := buffer; dv_byteOffset := offset;
                dv_byteLength := bufferLength - offset |}
    | Some len =>
        viewLength ← toIndex (inject_Z len);
        if bufferLength <? offset + viewLength then throw RangeError
        else mret {| dv_buffer := buffer; dv_byteOffset := offset;
                     dv_byteLength := viewLength |}
    end.

(** The bytes of a value as they lie in the buffer. *)
Definition ordered (littleEndian : bool) (raw : list byte) : list byte :=
  if littleEndian then raw else reverse raw.

(** GetViewValue and SetViewValue of ECMA-262 for the unsigned integer
    types: bounds check against the view, then the bytes in the requested
    order. *)
Definition getViewValue (view : DataView) (requestIndex : Z)
    (elementSize : nat) (littleEndian : bool) : M Z :=
  getIndex ← toIndex (inject_Z requestIndex);
  if dv_byteLength view <? getIndex + Z.of_nat elementSize
  then throw RangeError
  else
    raw ← loadBytes (dv_buffer view) (dv_byteOffset view + getIndex)
            elementSize;
    mret (bytesToNumber (ordered littleEndian raw)).

(** The bytes [setUintN] stores for [value]: ToUintN, then the bytes least
    significant first when [littleEndian], most significant first
    otherwise. *)
Definition encode (elementSize : nat) (value : Q) (littleEndian : bool)
    : list byte :=
  ordered littleEndian
    (numberToBytes elementSize (toUint (8 * Z.of_nat elementSize) value)).

Definition setViewValue (view : DataView) (requestIndex : Z)
    (elementSize : nat) (value : Q) (littleEndian : bool) : M unit :=
  getIndex ← toIndex (inject_Z requestIndex);
  if dv_byteLength view <? getIndex + Z.of_nat elementSize
  then throw RangeError
  else
    storeBytes (dv_buffer view) (dv_byteOffset view + getIndex)
      (encode elementSize value littleEndian).

Definition getUint8 (view : DataView) (byteOffset : Z) : M Z :=
  getViewValue view byteOffset 1 false.
Definition getUint16 (view : DataView) (byteOffset : Z) (littleEndian : bool)
    : M Z :=
  getViewValue view byteOffset 2 littleEndian.
Definition getUint32 (view : DataView) (byteOffset : Z) (littleEndian : bool)
    : M Z :=
  getViewValue view byteOffset 4 littleEndian.

Definition setUint8 (view : DataView) (byteOffset : Z) (value : Q) : M unit :=
  setViewValue view byteOffset 1 value false.
Definition setUint16 (view : DataView) (byteOffset : Z) (value : Q)
    (littleEndian : bool) : M unit :=
  setViewValue view byteOffset 2 value littleEndian.
Definition setUint32 (view : DataView) (byteOffset : Z) (value : Q)
    (littleEndian : bool) : M unit :=
  setViewValue view byteOffset 4 value littleEndian.

(** ** Uint16Array *)

Record Uint16Array : Type := {
  ta_buffer : BufRef;
  ta_byteOffset : Z;
  ta_length : Z;
}.

(** [array.byteLength] *)
Definition ta_byteLength (array : Uint16Array) : Z := ta_length array * 2.

(** [new Uint16Array(buffer, byteOffset, length)] *)
Definition newUint16Array (buffer : BufRef) (byteOffset : Z) (length : Q)
    : M Uint16Array :=
  offset ← toIndex (inject_Z byteOffset);
  if negb (offset mod 2 =? 0) then throw RangeError
  else
    newLength ← toIndex length;
    bufferLength ← bufferByteLength buffer;
    if bufferLength <? offset + newLength * 2 then throw RangeError
    else mret {| ta_buffer := buffer; ta_byteOffset := offset;
                 ta_length := newLength |}.

(** [array[index]]: the element in host (little-endian) byte order. An index
    outside the array reads [undefined], which every use in the codec hands
    to [setUint16], where ToNumber and ToUint16 turn it into 0. *)
Definition typedArrayGet (array : Uint16Array) (index : Z) : M Z :=
  if (index <? 0) || (ta_length array <=? index) then mret 0
  else
    raw ← loadBytes (ta_buffer array) (ta_byteOffset array + 2 * index) 2;
    mret (bytesToNumber raw).

(** [array[index] = value]: ToUint16 of the value, stored in host
    (little-endian) byte order; an index outside the array stores nothing.
    The codec never writes through a typed array; a caller that holds one
    can. *)
Definition typedArraySet (array : Uint16Array) (index : Z) (value : Q)
    : M unit :=
  if (index <? 0) || (ta_length array <=? index) then mret ()
  else
    storeBytes (ta_buffer array) (ta_byteOffset array + 2 * index)
      (encode 2 value true).

(** The elements of a typed array in a given store, as a list. *)
Definition elementsOf (h : Heap) (array : Uint16Array) : list Z :=
  (λ i : nat,
     bytesToNumber
       (take 2 (drop (Z.to_nat (ta_byteOffset array + 2 * Z.of_nat i))
                  (bufferBytes h (ta_buffer array)))))
  <$> seq 0 (Z.to_nat (ta_length array)).

(** A typed array as the constructor makes them: inside its buffer and
    aligned. *)
Definition validUint16Array (h : Heap) (array : Uint16Array) : Prop :=
  (ta_buffer array < length h)%nat ∧
  0 ≤ ta_byteOffset array ∧
  ta_byteOffset array mod 2 = 0 ∧
  0 ≤ ta_length array ∧
  ta_byteOffset array + 2 * ta_length array
    ≤ Z.of_nat (length (bufferBytes h (ta_buffer array))).

(** ** The codec *)

Definition quote : string := String (fromCharCode 34) EmptyString.
Definition newline : string := String (fromCharCode 10) EmptyString.

(** [getString(view, offset, length)] *)
Fixpoint getString (view : DataView) (offset : Z) (length : nat) : M string :=
  match length with
  | O => mret EmptyString
  | S n =>
      c ← getUint8 view offset;
      rest ← getString view (offset + 1) n;
      mret (String (fromCharCode c) rest)
  end.

(** [putString(view, offset, string)] *)
Fixpoint putString (view : DataView) (offset : Z) (chars : string) : M unit :=
  match chars with
  | EmptyString => mret ()
  | String c rest =>
      setUint8 view offset (inject_Z (charCodeAt c));;
      putString view (offset + 1) rest
  end.

(** [String.prototype.trim] on characters below 256: TAB, LF, VT, FF, CR,
    SP and NBSP are stripped from both ends. *)
Definition isWhiteSpace (c : ascii) : bool :=
  let n := charCodeAt c in
  (n =? 9) || (n =? 10) || (n =? 11) || (n =? 12) || (n =? 13) ||
  (n =? 32) || (n =? 160).

Fixpoint trimStart (s : string) : string :=
  match s with
  | EmptyString => EmptyString
  | String c rest => if isWhiteSpace c then trimStart rest else s
  end.

Definition trim (s : string) : string :=
  String.rev (trimStart (String.rev (trimStart s))).

(** [.replace(/\0/g, '')] *)
Fixpoint removeNul (s : string) : string :=
  match s with
  | EmptyString => EmptyString
  | String c rest =>
      if charCodeAt c =? 0 then removeNul rest else String c (removeNul rest)
  end.

(** The [while (pos < view.byteLength)] loop of [parseWavFile]. Every turn
    moves [pos] forward by at least 8, so [fuel] turns are enough when
    [fuel] is the byte length (see [walkChunks_fuel]). *)
Fixpoint walkChunks (fuel : nat) (wavBuffer : BufRef) (view : DataView)
    (pos : Z) (chunks : gmap string DataView) : M (gmap string DataView) :=
  if pos <? dv_byteLength view then
    match fuel with
    | O => λ h, (h, OutOfFuel)
    | S fuel' =>
        name ← getString view pos 4;
        let chunkName := removeNul (trim name) in
        length ← getUint32 view (pos + 4) true;
        chunk ← newDataView wavBuffer (pos + 8) (Some length);
        walkChunks fuel' wavBuffer view (pos + (length + 8))
          (<[chunkName := chunk]> chunks)
    end
  else mret chunks.

(** [parseWavFile(wavBuffer)]: the two magics, the size field, then the
    chunks; a later chunk replaces an earlier one of the same name. *)
Definition parseWavFile (wavBuffer : BufRef) : M (gmap string DataView) :=
  view ← newDataView wavBuffer 0 None;
  riff ← getString view 0 4;
  wave ← getString view 8 4;
  let magic := riff +:+ "/" +:+ wave in
  if negb (magic =? "RIFF/WAVE")%string then
    throw (WavError ("Not a WAV file; expected RIFF/WAVE, got " +:+
                     quote +:+ magic +:+ quote))
  else
    recorded ← getUint32 view 4 true;
    let size := recorded + 8 in
    if negb (size =? dv_byteLength view) then
      throw (WavError ("File size (" +:+
                       numberToString (inject_Z (dv_byteLength view)) +:+
                       ") differs from recorded data size (" +:+
                       numberToString (inject_Z size) +:+ "); giving up"))
    else
      walkChunks (Z.to_nat (dv_byteLength view)) wavBuffer view 12 ∅.

Record WaveFormat : Type := {
  formatTag : Z;
  channels : Z;
  samplesPerSec : Z;
  avgBytesPerSec : Z;
  blockAlign : Z;
  bitsPerSample : Z;
}.

(** [parseFMT(view)], on the [DataView] of the fmt chunk. *)
Definition parseFMT (view : DataView) : M WaveFormat :=
  formatTag ← getUint16 view 0 true;
  channels ← getUint16 view 2 true;
  samplesPerSec ← getUint32 view 4 true;
  avgBytesPerSec ← getUint32 view 8 true;
  blockAlign ← getUint16 view 12 true;
  bitsPerSample ← getUint16 view 14 true;
  mret {| formatTag := formatTag; channels := channels;
          samplesPerSec := samplesPerSec; avgBytesPerSec := avgBytesPerSec;
          blockAlign := blockAlign; bitsPerSample := bitsPerSample |}.

(** [wavBufferToRawPcm(wavBuffer)] *)
Definition wavBufferToRawPcm (wavBuffer : BufRef) : M Uint16Array :=
  chunks ← parseWavFile wavBuffer;
  match chunks !! "fmt" with
  | None => throw (WavError ("no " +:+ quote +:+ "fmt" +:+ quote +:+ " chunk"))
  | Some fmtChunk =>
      fmt ← parseFMT fmtChunk;
      if negb (formatTag fmt =? 1) then
        throw (WavError ("Format should be PCM (1); got " +:+
                         numberToString (inject_Z (formatTag fmt))))
      else if negb (channels fmt =? 2) then
        throw (WavError ("Expected 2 channels; got " +:+
                         numberToString (inject_Z (channels fmt))))
      else if negb (samplesPerSec fmt =? 44100) then
        throw (WavError ("Expected a rate of 44.1 kHz; got " +:+
                         numberToString (inject_Z (samplesPerSec fmt) / 1000)%Q
                         +:+ " kHz"))
      else if negb (bitsPerSample fmt =? 16) then
        throw (WavError ("Expected 16-bit samples, got " +:+
                         numberToString (inject_Z (bitsPerSample fmt))))
      else
        match chunks !! "data" with
        | None =>
            throw (WavError ("no " +:+ quote +:+ "data" +:+ quote +:+ " chunk"))
        | Some data =>
            newUint16Array wavBuffer (dv_byteOffset data)
              (inject_Z (dv_byteLength data * 8)
               / inject_Z (bitsPerSample fmt))%Q
        end
  end.

(** [rawPcmToMsu(pcm, { intro = null, loop = 0 } = {})]: an option left out
    is [None]. A typed array is an object, hence truthy even when empty. *)
Definition rawPcmToMsu (pcm : Uint16Array) (intro : option Uint16Array)
    (loop : option Q) : M BufRef :=
  let loop :=
    match intro with
    | Some a => (inject_Z (ta_length a) / 2)%Q
    | None => default 0%Q loop
    end in
  let introOfs :=
    8 + match intro with Some a => ta_byteLength a | None => 0 end in
  out ← newBuffer (introOfs + ta_byteLength pcm);
  view ← newDataView out 0 None;
  putString view 0 "MSU1";;
  setUint32 view 4 loop true;;
  match intro with
  | Some a =>
      forLoop (Z.to_nat (ta_length a)) 0 ()
        (λ i _, v ← typedArrayGet a i;
                setUint16 view (8 + i * 2) (inject_Z v) false)
  | None => mret ()
  end;;
  forLoop (Z.to_nat (ta_length pcm)) 0 ()
    (λ i _, v ← typedArrayGet pcm i;
            setUint16 view (introOfs + i * 2) (inject_Z v) true);;
  mret out.

(** The object [msuToRawPcm] returns; a property the object literal does
    not have is [None]. *)
Record RawLoopedPCM : Type := {
  pcm_intro : option Uint16Array;
  pcm_loop : Uint16Array;
  pcm_loopPoint : option Z;
}.

(** [msuToRawPcm(msuBuffer, { packLoop } = {})] *)
Definition msuToRawPcm (msuBuffer : BufRef) (packLoop : bool)
    : M RawLoopedPCM :=
  view ← newDataView msuBuffer 0 None;
  magic ← getString view 0 4;
  if negb (magic =? "MSU1")%string then throw (MsuError "Not an MSU1 file")
  else
    loopPoint ← getUint32 view 4 true;
    byteLength ← bufferByteLength msuBuffer;
    let samples := (inject_Z (byteLength - 8) / 2)%Q in
    if Qlt_bool samples (inject_Z loopPoint) then
      throw (MsuError ("Loop point (" +:+ numberToString (inject_Z loopPoint)
                       +:+ ") is larger than the number of samples in the file ("
                       +:+ numberToString samples +:+ ")"))
    else if (loopPoint =? 0) || packLoop then
      loop ← newUint16Array msuBuffer 8 samples;
      mret {| pcm_intro := None; pcm_loop := loop;
              pcm_loopPoint := Some loopPoint |}
    else
      intro ← newUint16Array msuBuffer 8 (inject_Z loopPoint);
      loop ← newUint16Array msuBuffer (8 + loopPoint * 4)
               (samples - inject_Z loopPoint * 2)%Q;
      mret {| pcm_intro := Some intro; pcm_loop := loop;
              pcm_loopPoint := None |}.

(** [rawPcmToWav(pcm)]; [ofs] is the running offset of the source. *)
Definition rawPcmToWav (pcm : Uint16Array) : M BufRef :=
  let size := 44 + ta_byteLength pcm in
  wavFile ← newBuffer size;
  view ← newDataView wavFile 0 None;
  let ofs := 0 in
  putString view ofs "RIFF";; let ofs := ofs + 4 in
  setUint32 view ofs (inject_Z (size - 8)) true;; let ofs := ofs + 4 in
  putString view ofs "WAVE";; let ofs := ofs + 4 in
  putString view ofs "fmt ";; let ofs := ofs + 4 in
  setUint32 view ofs 16%Q true;; let ofs := ofs + 4 in
  setUint16 view ofs 1%Q true;; let ofs := ofs + 2 in
  setUint16 view ofs 2%Q true;; let ofs := ofs + 2 in
  setUint32 view ofs 44100%Q true;; let ofs := ofs + 4 in
  setUint32 view ofs (44100 * 16 * 2 / 8)%Q true;; let ofs := ofs + 4 in
  setUint16 view ofs 4%Q true;; let ofs := ofs + 2 in
  setUint16 view ofs 16%Q true;; let ofs := ofs + 2 in
  putString view ofs "data";; let ofs := ofs + 4 in
  setUint32 view ofs (inject_Z (ta_byteLength pcm)) true;;
  let ofs := ofs + 4 in
  forLoop (Z.to_nat (ta_length pcm)) 0 ofs
    (λ i ofs,
       tryCatch
         (v ← typedArrayGet pcm i;
          setUint16 view ofs (inject_Z v) true;;
          mret (ofs + 2))
         (λ e, throw (Error (newline +:+ numberToString (inject_Z ofs) +:+
                             ", " +:+
                             numberToString (inject_Z (ta_byteLength pcm))))));;
  mret wavFile.

(** ** Closed forms of the files the encoders build *)

Fixpoint stringBytes (chars : string) : list byte :=
  match chars with
  | EmptyString => []
  | String c rest => encode 1 (inject_Z (charCodeAt c)) false ++ stringBytes rest
  end.

Definition samplesBytes (littleEndian : bool) (samples : list Z) : list byte :=
  flat_map (λ v, encode 2 (inject_Z v) littleEndian) samples.

(** The loop point [rawPcmToMsu] stores. *)
Definition effectiveLoop (intro : option Uint16Array) (loop : option Q) : Q :=
  match intro with
  | Some a => (inject_Z (ta_length a) / 2)%Q
  | None => default 0%Q loop
  end.

(** "MSU1", the loop point, the intro samples most significant byte first,
    the loop samples least significant byte first. *)
Definition msuBytes (loop : Q) (intro : option (list Z)) (pcm : list Z)
    : list byte :=
  stringBytes "MSU1" ++ encode 4 loop true ++
  match intro with Some samples => samplesBytes false samples | None => [] end ++
  samplesBytes true pcm.

(** The 44-byte canonical header, then the samples. *)
Definition wavBytes (pcm : list Z) : list byte :=
  let byteLength := Z.of_nat (length pcm) * 2 in
  stringBytes "RIFF" ++ encode 4 (inject_Z (44 + byteLength - 8)) true ++
  stringBytes "WAVE" ++ stringBytes "fmt " ++ encode 4 16%Q true ++
  encode 2 1%Q true ++ encode 2 2%Q true ++ encode 4 44100%Q true ++
  encode 4 (44100 * 16 * 2 / 8)%Q true ++ encode 2 4%Q true ++
  encode 2 16%Q true ++ stringBytes "data" ++
  encode 4 (inject_Z byteLength) true ++ samplesBytes true pcm.

(** The string [getString] reads from the bytes [raw]. *)
Fixpoint bytesString (raw : list byte) : string :=
  match raw with
  | [] => EmptyString
  | b :: rest => String (fromCharCode (Z_of_byte b)) (bytesString rest)
  end.

(** ** Test vectors *)

(** A store whose only buffer holds the samples 10, 20, 30, 40, and the
    [Uint16Array] over the whole of it. *)
Definition store_10_40 : Heap :=
  [[x0a; x00; x14; x00; x1e; x00; x28; x00]].
Definition pcm_10_40 : Uint16Array :=
  {| ta_buffer := 0; ta_byteOffset := 0; ta_length := 4 |}.

(** A store with an intro 1, 2 in buffer 0 and a loop body 3, 4 in
    buffer 1. *)
Definition store_intro_loop : Heap :=
  [[x01; x00; x02; x00]; [x03; x00; x04; x00]].
Definition intro_1_2 : Uint16Array :=
  {| ta_buffer := 0; ta_byteOffset := 0; ta_length := 2 |}.
Definition loop_3_4 : Uint16Array :=
  {| ta_buffer := 1; ta_byteOffset := 0; ta_length := 2 |}.

(** An MSU-1 file with loop point 1 and the samples 1, 2, 3, 4. *)
Definition store_msu_split : Heap :=
  [[x4d; x53; x55; x31; x01; x00; x00; x00;
    x01; x00; x02; x00; x03; x00; x04; x00]].

(** An MSU-1 file of 16 bytes (two frames) with loop point 3. *)
Definition store_msu_3 : Heap :=
  [[x4d; x53; x55; x31; x03; x00; x00; x00;
    x01; x00; x02; x00; x03; x00; x04; x00]].

(** A 16-byte file with magic "MSU0". *)
Definition store_msu0 : Heap :=
  [[x4d; x53; x55; x30; x00; x00; x00; x00;
    x01; x00; x02; x00; x03; x00; x04; x00]].

(** An MSU-1 file of 16 bytes with loop point 1,000,000 (0x000F4240). *)
Definition store_msu_million : Heap :=
  [[x4d; x53; x55; x31; x40; x42; x0f; x00;
    x01; x00; x02; x00; x03; x00; x04; x00]].

(** The four bytes "RIFX". *)
Definition store_rifx : Heap := [[x52; x49; x46; x58]].

(** Twelve bytes "RIFX", size field 4, "WAVE". *)
Definition store_rifx_wave : Heap :=
  [[x52; x49; x46; x58; x04; x00; x00; x00; x57; x41; x56; x45]].

(** Twelve bytes "RIFF", size field 5 (the length is 12, not 13), "WAVE". *)
Definition store_riff_size : Heap :=
  [[x52; x49; x46; x46; x05; x00; x00; x00; x57; x41; x56; x45]].

(** A well-formed WAVE file without samples whose fmt chunk says: PCM,
    1 channel, 44100 Hz, 88200 bytes per second, block align 2, 16 bits. *)
Definition store_wav_mono : Heap :=
  [[x52; x49; x46; x46; x24; x00; x00; x00; x57; x41; x56; x45;
    x66; x6d; x74; x20; x10; x00; x00; x00;
    x01; x00; x01; x00; x44; xac; x00; x00; x88; x58; x01; x00;
    x02; x00; x10; x00;
    x64; x61; x74; x61; x00; x00; x00; x00]].

(** A computation that leaves the store as it found it. *)
Definition readOnly {A : Type} (m : M A) : Prop := ∀ h, (m h).1 = h.

(** A computation that writes to no buffer but [buffer], and allocates
    none. *)
Definition writesOnly {A : Type} (buffer : BufRef) (m : M A) : Prop :=
  ∀ h, length (m h).1 = length h ∧
       ∀ b, b ≠ buffer → (m h).1 !! b = h !! b.

(** A computation whose result, when it returns one, satisfies [P]. *)
Definition returns {A : Type} (P : A → Prop) (m : M A) : Prop :=
  ∀ h h' a, m h = (h', Return a) → P a.

(** A computation that never runs out of fuel: it returns or throws. *)
Definition total {A : Type} (m : M A) : Prop := ∀ h, (m h).2 ≠ OutOfFuel.

(** ** Bytes seen as samples *)

(** The 16-bit values a little-endian [Uint16Array] shows over a run of
    bytes; an odd byte at the end is left out. *)
Fixpoint bytesSamples (data : list byte) : list Z :=
  match data with
  | a :: b :: rest => bytesToNumber [a; b] :: bytesSamples rest
  | _ => []
  end.

(** A 16-bit value with its two bytes exchanged. *)
Definition swap16 (v : Z) : Z := v mod 256 * 256 + v / 256.

(** A file with the magic "MSU1" cut off inside the loop-point field. *)
Definition store_msu_cut : Heap := [[x4d; x53; x55; x31; x01; x00]].

(** ** RIFF/WAVE files *)

(** A chunk: its four-character name, the length of its body, the body. *)
Definition chunkBytes (chunk : string * list byte) : list byte :=
  stringBytes chunk.1 ++
  encode 4 (inject_Z (Z.of_nat (length chunk.2))) true ++ chunk.2.

Definition chunksBytes (chunks : list (string * list byte)) : list byte :=
  flat_map chunkBytes chunks.

(** "RIFF", the length of what follows the size field, "WAVE", the
    payload. *)
Definition riffBytes (payload : list byte) : list byte :=
  stringBytes "RIFF" ++
  encode 4 (inject_Z (4 + Z.of_nat (length payload))) true ++
  stringBytes "WAVE" ++ payload.

(** The 16 bytes of a fmt chunk body. *)
Definition fmtBytes (fmt : WaveFormat) : list byte :=
  encode 2 (inject_Z (formatTag fmt)) true ++
  encode 2 (inject_Z (channels fmt)) true ++
  encode 4 (inject_Z (samplesPerSec fmt)) true ++
  encode 4 (inject_Z (avgBytesPerSec fmt)) true ++
  encode 2 (inject_Z (blockAlign fmt)) true ++
  encode 2 (inject_Z (bitsPerSample fmt)) true.

(** Fields that fit their width. *)
Definition validFormat (fmt : WaveFormat) : Prop :=
  0 ≤ formatTag fmt < 2 ^ 16 ∧ 0 ≤ channels fmt < 2 ^ 16 ∧
  0 ≤ samplesPerSec fmt < 2 ^ 32 ∧ 0 ≤ avgBytesPerSec fmt < 2 ^ 32 ∧
  0 ≤ blockAlign fmt < 2 ^ 16 ∧ 0 ≤ bitsPerSample fmt < 2 ^ 16.

(** A chunk the file format can hold: a name of four characters and a body
    whose length fits the 32-bit length field. *)
Definition validChunk (chunk : string * list byte) : Prop :=
  String.length chunk.1 = 4%nat ∧ Z.of_nat (length chunk.2) < 2 ^ 32.

(** The key [parseWavFile] files a chunk under. *)
Definition chunkKey (chunk : string * list byte) : string :=
  removeNul (trim chunk.1).

(** The map the chunk walker builds from the chunks that start at [pos]. *)
Fixpoint chunkMap (buffer : BufRef) (pos : Z)
    (chunks : list (string * list byte)) (acc : gmap string DataView)
    : gmap string DataView :=
  match chunks with
  | [] => acc
  | chunk :: rest =>
      chunkMap buffer (pos + (Z.of_nat (length chunk.2) + 8)) rest
        (<[chunkKey chunk :=
             {| dv_buffer := buffer; dv_byteOffset := pos + 8;
                dv_byteLength := Z.of_nat (length chunk.2) |}]> acc)
  end.

(** The format [rawPcmToWav] writes. *)
Definition canonicalFormat : WaveFormat :=
  {| formatTag := 1; channels := 2; samplesPerSec := 44100;
     avgBytesPerSec := 176400; blockAlign := 4; bitsPerSample := 16 |}.

(** A file with two data chunks and a chunk of odd length between them. *)
Definition chunks_two_data : list (string * list byte) :=
  [("fmt ", fmtBytes canonicalFormat); ("data", [x01; x00; x02; x00]);
   ("LIST", [x61; x62; x63]); ("data", [x03; x00; x04; x00])].
Definition store_riff_two_data : Heap :=
  [riffBytes (chunksBytes chunks_two_data)].

(** A file whose fmt chunk is preceded by another chunk and carries two
    bytes more than the sixteen read, with zero for the byte rate and the
    block size, and whose data chunk is five bytes long and followed by
    another chunk. *)
Definition lenientFormat : WaveFormat :=
  {| formatTag := 1; channels := 2; samplesPerSec := 44100;
     avgBytesPerSec := 0; blockAlign := 0; bitsPerSample := 16 |}.
Definition chunks_lenient : list (string * list byte) :=
  [("LIST", [x61; x62]); ("fmt ", fmtBytes lenientFormat ++ [x00; x00]);
   ("data", [x01; x00; x02; x00; x03]); ("cue ", [x00])].
Definition store_riff_lenient : Heap := [riffBytes (chunksBytes chunks_lenient)].

(** The format of a mono file: tag 1, one channel, 44100 Hz, 16 bits. *)
Definition monoFormat : WaveFormat :=
  {| formatTag := 1; channels := 1; samplesPerSec := 44100;
     avgBytesPerSec := 88200; blockAlign := 2; bitsPerSample := 16 |}.

(** The WAVE file of the samples 10, 20, 30, 40, alone in the store. *)
Definition store_wav_10_40 : Heap := [wavBytes [10; 20; 30; 40]].

(** A file whose format has tag 3, one channel, 48000 Hz and 8 bits, and
    no data chunk. *)
Definition floatFormat : WaveFormat :=
  {| formatTag := 3; channels := 1; samplesPerSec := 48000;
     avgBytesPerSec := 48000; blockAlign := 1; bitsPerSample := 8 |}.
Definition store_riff_float : Heap :=
  [riffBytes (chunksBytes [("fmt ", fmtBytes floatFormat)])].

(** A file with a data chunk only, and a file with a fmt chunk only. *)
Definition store_riff_data_only : Heap :=
  [riffBytes (chunksBytes [("data", [x01; x00; x02; x00])])].
Definition store_riff_fmt_only : Heap :=
  [riffBytes (chunksBytes [("fmt ", fmtBytes canonicalFormat)])].

(** A file whose fmt chunk has the first 14 bytes of the format only. *)
Definition store_riff_short_fmt : Heap :=
  [riffBytes (chunksBytes [("fmt ", take 14 (fmtBytes canonicalFormat));
                           ("data", [x01; x00; x02; x00])])].

(** A file that ends two bytes into the body of a data chunk announced as
    four bytes long. *)
Definition store_riff_cut : Heap :=
  [riffBytes (chunksBytes [("fmt ", fmtBytes canonicalFormat)] ++
              stringBytes "data" ++ [x04; x00; x00; x00; x01; x00])].

(** A computation that throws nothing but errors in [E]. *)
Definition throws {A : Type} (E : error → Prop) (m : M A) : Prop :=
  ∀ h h' e, m h = (h', Throw e) → E e.

(** The errors of the WAVE decoder and of the MSU-1 decoder. *)
Definition wavFailure (e : error) : Prop :=
  e = RangeError ∨ ∃ message, e = WavError message.
Definition msuFailure (e : error) : Prop :=
  e = RangeError ∨ ∃ message, e = MsuError message.

(** ** The page script [example.js] *)

(** A file input of the page: the contents of the files selected in it. *)
Abbreviation FileInput := (list (list byte)).

(** [await file.arrayBuffer()]: a fresh buffer with the bytes of the file.
    The [await]s of the script are run in sequence. *)
Definition arrayBuffer (file : list byte) : M BufRef := λ h,
  (h ++ [file], Return (length h)).

(** [wavAsRawPcm(fileInput)]; the message of this [Error] is the whole
    message. *)
Definition wavAsRawPcm (fileInput : FileInput) : M Uint16Array :=
  if negb (Z.of_nat (length fileInput) =? 1) then
    throw (Error "No files selected")
  else
    buffer ← arrayBuffer (default [] (fileInput !! 0%nat));
    wavBufferToRawPcm buffer.

(** [msuAsRawPcm(fileInput, options)] *)
Definition msuAsRawPcm (fileInput : FileInput) (packLoop : bool)
    : M RawLoopedPCM :=
  if negb (Z.of_nat (length fileInput) =? 1) then
    throw (Error "No files selected")
  else
    buffer ← arrayBuffer (default [] (fileInput !! 0%nat));
    msuToRawPcm buffer packLoop.

(** [e instanceof WavError] *)
Definition instanceofWavError (e : error) : bool :=
  match e with WavError _ => true | _ => false end.

(** [makeMSU1({ source, intro, loop })]; [loop] is a number or left out. *)
Definition makeMSU1 (source intro : FileInput) (loop : option Q) : M BufRef :=
  data ← wavAsRawPcm source;
  tryCatch
    (introPcm ← wavAsRawPcm intro;
     rawPcmToMsu data (Some introPcm) None)
    (λ e, if instanceofWavError e then throw e
          else rawPcmToMsu data None loop).

(** The object [makeWav] returns. *)
Record WavBuffers : Type := {
  wav_intro : option BufRef;
  wav_loop : BufRef;
  wav_loopPoint : option Z;
}.

(** [makeWav({ source, ...options })] *)
Definition makeWav (source : FileInput) (packLoop : bool) : M WavBuffers :=
  r ← msuAsRawPcm source packLoop;
  intro ← match pcm_intro r with
           | Some a => wav ← rawPcmToWav a; mret (Some wav)
           | None => mret None
           end;
  loop ← rawPcmToWav (pcm_loop r);
  mret {| wav_intro := intro; wav_loop := loop;
          wav_loopPoint := pcm_loopPoint r |}.

(** A tiny intro file. *)
Definition file_tiny : list byte := [x52; x49; x46; x46].

(** * Properties *)

(** ** Bytes and numbers *)

Example numberToString_integer : numberToString (inject_Z 1000000) = "1000000".
Proof. reflexivity. Qed.

Example numberToString_kHz : numberToString (inject_Z 22050 / 1000) = "22.05".
Proof. reflexivity. Qed.

Example numberToString_half : numberToString (inject_Z (7 - 8) / 2) = "-0.5".
Proof. reflexivity. Qed.

Example truncate_half_negative : truncate (inject_Z (7 - 8) / 2) = 0.
Proof. reflexivity. Qed.

Example chunk_name_fmt : removeNul (trim "fmt ") = "fmt".
Proof. reflexivity. Qed.

Example encode_big_endian : encode 2 (inject_Z 258) false = [x01; x02].
Proof. reflexivity. Qed.

Example encode_little_endian : encode 2 (inject_Z 258) true = [x02; x01].
Proof. reflexivity. Qed.

Lemma Z_of_byte_range (b : byte) : 0 ≤ Z_of_byte b < 256.
Proof.
  unfold Z_of_byte. pose proof (Byte.to_N_bounded b) as Hb. lia.
Qed.

Lemma Z_of_byte_of_Z (z : Z) : Z_of_byte (byte_of_Z z) = z mod 256.
Proof.
  unfold Z_of_byte, byte_of_Z.
  assert (Hr : 0 ≤ z mod 256 < 256) by (apply Z.mod_pos_bound; lia).
  destruct (Byte.of_N (Z.to_N (z mod 256))) as [b|] eqn:Hb.
  - apply Byte.to_of_N in Hb. rewrite Hb. lia.
  - apply Byte.of_N_None_iff in Hb. lia.
Qed.

Lemma byte_of_Z_of_byte (b : byte) : byte_of_Z (Z_of_byte b) = b.
Proof.
  unfold byte_of_Z. pose proof (Z_of_byte_range b) as Hr.
  rewrite Z.mod_small by lia. unfold Z_of_byte.
  rewrite N2Z.id, Byte.of_to_N. reflexivity.
Qed.

Lemma length_numberToBytes (n : nat) (v : Z) :
  length (numberToBytes n v) = n.
Proof. revert v. induction n as [|n IH]; intros v; simpl; [|rewrite IH]; reflexivity. Qed.

Lemma bytesToNumber_range (raw : list byte) :
  0 ≤ bytesToNumber raw < 256 ^ Z.of_nat (length raw).
Proof.
  induction raw as [|b raw IH]; simpl bytesToNumber.
  - simpl. lia.
  - pose proof (Z_of_byte_range b) as Hb.
    replace (Z.of_nat (length (b :: raw))) with (Z.succ (Z.of_nat (length raw)))
      by (simpl length; lia).
    rewrite Z.pow_succ_r by lia. lia.
Qed.

Lemma bytesToNumber_numberToBytes (n : nat) (v : Z) :
  bytesToNumber (numberToBytes n v) = v mod 256 ^ Z.of_nat n.
Proof.
  revert v. induction n as [|n IH]; intros v.
  - simpl. rewrite Z.mod_1_r. reflexivity.
  - cbn [numberToBytes bytesToNumber]. rewrite IH, Z_of_byte_of_Z.
    replace (Z.of_nat (S n)) with (Z.succ (Z.of_nat n)) by lia.
    rewrite Z.pow_succ_r by lia.
    rewrite (Z.rem_mul_r v 256 (256 ^ Z.of_nat n)) by lia.
    reflexivity.
Qed.

Lemma truncate_inject_Z (z : Z) : truncate (inject_Z z) = z.
Proof. unfold truncate, inject_Z. simpl. apply Z.quot_1_r. Qed.

Lemma toUint_inject_Z (bits z : Z) : toUint bits (inject_Z z) = z mod 2 ^ bits.
Proof. unfold toUint. rewrite truncate_inject_Z. reflexivity. Qed.

(** ** Running computations *)

Lemma bind_return {A B : Type} (m : M A) (f : A → M B) h h' a :
  m h = (h', Return a) → (m ≫= f) h = f a h'.
Proof. intros H. unfold mbind, M_bind. rewrite H. reflexivity. Qed.

Lemma bind_throw {A B : Type} (m : M A) (f : A → M B) h h' e :
  m h = (h', Throw e) → (m ≫= f) h = (h', Throw e).
Proof. intros H. unfold mbind, M_bind. rewrite H. reflexivity. Qed.

Ltac mstep tac := erewrite bind_return; [cbv beta | solve [tac]].
Ltac mthrow tac := erewrite bind_throw; [| solve [tac]].

Lemma bufferBytes_last (h : Heap) cur : bufferBytes (h ++ [cur]) (length h) = cur.
Proof.
  unfold bufferBytes. rewrite lookup_app_r by lia.
  rewrite Nat.sub_diag. reflexivity.
Qed.

Lemma bufferBytes_old (h : Heap) cur b :
  (b < length h)%nat → bufferBytes (h ++ [cur]) b = bufferBytes h b.
Proof. intros Hb. unfold bufferBytes. rewrite lookup_app_l by lia. reflexivity. Qed.

Lemma insert_last (h : Heap) cur new : <[length h := new]> (h ++ [cur]) = h ++ [new].
Proof.
  replace (length h) with (length h + 0)%nat at 1 by lia.
  rewrite insert_app_r. reflexivity.
Qed.

Lemma toIndex_inject_Z (z : Z) h : 0 ≤ z → toIndex (inject_Z z) h = (h, Return z).
Proof.
  intros Hz. unfold toIndex. rewrite truncate_inject_Z.
  destruct (Z.ltb_spec z 0); [lia | reflexivity].
Qed.

Lemma toIndex_negative (z : Z) h : z < 0 → toIndex (inject_Z z) h = (h, Throw RangeError).
Proof.
  intros Hz. unfold toIndex. rewrite truncate_inject_Z.
  destruct (Z.ltb_spec z 0); [reflexivity | lia].
Qed.

Lemma newDataView_whole (buffer : BufRef) h :
  newDataView buffer 0 None h =
  (h, Return {| dv_buffer := buffer; dv_byteOffset := 0;
                dv_byteLength := Z.of_nat (length (bufferBytes h buffer)) |}).
Proof.
  unfold newDataView.
  mstep ltac:(apply toIndex_inject_Z; lia).
  mstep ltac:(reflexivity).
  destruct (Z.ltb_spec (Z.of_nat (length (bufferBytes h buffer))) 0); [lia|].
  rewrite Z.sub_0_r. reflexivity.
Qed.

Lemma newDataView_part (buffer : BufRef) (offset len : Z) h :
  0 ≤ offset → 0 ≤ len →
  offset + len ≤ Z.of_nat (length (bufferBytes h buffer)) →
  newDataView buffer offset (Some len) h =
  (h, Return {| dv_buffer := buffer; dv_byteOffset := offset;
                dv_byteLength := len |}).
Proof.
  intros Ho Hl Hb. unfold newDataView.
  mstep ltac:(apply toIndex_inject_Z; lia).
  mstep ltac:(reflexivity).
  destruct (Z.ltb_spec (Z.of_nat (length (bufferBytes h buffer))) offset); [lia|].
  mstep ltac:(apply toIndex_inject_Z; lia).
  destruct (Z.ltb_spec (Z.of_nat (length (bufferBytes h buffer))) (offset + len));
    [lia | reflexivity].
Qed.

Lemma newDataView_part_range (buffer : BufRef) (offset len : Z) h :
  0 ≤ offset →
  len < 0 ∨ Z.of_nat (length (bufferBytes h buffer)) < offset + len →
  newDataView buffer offset (Some len) h = (h, Throw RangeError).
Proof.
  intros Ho Hb. unfold newDataView.
  mstep ltac:(apply toIndex_inject_Z; lia).
  mstep ltac:(reflexivity).
  destruct (Z.ltb_spec (Z.of_nat (length (bufferBytes h buffer))) offset);
    [reflexivity|].
  destruct (Z.lt_ge_cases len 0) as [Hn|Hn].
  - mthrow ltac:(apply toIndex_negative; lia). reflexivity.
  - mstep ltac:(apply toIndex_inject_Z; lia).
    destruct (Z.ltb_spec (Z.of_nat (length (bufferBytes h buffer))) (offset + len));
      [reflexivity | lia].
Qed.

Lemma getViewValue_ok (view : DataView) (index : Z) (size : nat)
    (littleEndian : bool) h :
  0 ≤ index → index + Z.of_nat size ≤ dv_byteLength view →
  getViewValue view index size littleEndian h =
  (h, Return (bytesToNumber (ordered littleEndian
        (take size (drop (Z.to_nat (dv_byteOffset view + index))
                      (bufferBytes h (dv_buffer view))))))).
Proof.
  intros Hi Hb. unfold getViewValue.
  mstep ltac:(apply toIndex_inject_Z; lia).
  destruct (Z.ltb_spec (dv_byteLength view) (index + Z.of_nat size)); [lia|].
  reflexivity.
Qed.

Lemma getViewValue_range (view : DataView) (index : Z) (size : nat)
    (littleEndian : bool) h :
  index < 0 ∨ dv_byteLength view < index + Z.of_nat size →
  getViewValue view index size littleEndian h = (h, Throw RangeError).
Proof.
  intros Hr. unfold getViewValue.
  destruct (Z.lt_ge_cases index 0) as [Hn|Hn].
  - mthrow ltac:(apply toIndex_negative; lia). reflexivity.
  - mstep ltac:(apply toIndex_inject_Z; lia).
    destruct (Z.ltb_spec (dv_byteLength view) (index + Z.of_nat size));
      [reflexivity | lia].
Qed.

(** ** Writing a fresh buffer front to back *)

Lemma length_encode (size : nat) (value : Q) (littleEndian : bool) :
  length (encode size value littleEndian) = size.
Proof.
  unfold encode, ordered. destruct littleEndian;
    rewrite ?length_reverse, length_numberToBytes; reflexivity.
Qed.

Lemma length_stringBytes (chars : string) :
  length (stringBytes chars) = String.length chars.
Proof.
  induction chars as [|c chars IH]; [reflexivity|].
  cbn [stringBytes String.length]. rewrite length_app, length_encode, IH.
  reflexivity.
Qed.

Lemma length_samplesBytes (littleEndian : bool) (samples : list Z) :
  length (samplesBytes littleEndian samples) = (2 * length samples)%nat.
Proof.
  unfold samplesBytes. induction samples as [|v samples IH]; [reflexivity|].
  cbn [flat_map]. rewrite length_app, length_encode, IH. simpl length. lia.
Qed.

Lemma samplesBytes_snoc (littleEndian : bool) (samples : list Z) (v : Z) :
  samplesBytes littleEndian (samples ++ [v]) =
  samplesBytes littleEndian samples ++ encode 2 (inject_Z v) littleEndian.
Proof.
  unfold samplesBytes. rewrite flat_map_app. cbn [flat_map].
  rewrite app_nil_r. reflexivity.
Qed.

Lemma writeBytes_append (written raw : list byte) (rem : nat) :
  (length raw ≤ rem)%nat →
  writeBytes (length written) raw (written ++ replicate rem x00) =
  (written ++ raw) ++ replicate (rem - length raw) x00.
Proof.
  intros Hr. unfold writeBytes.
  rewrite decide_True by (rewrite length_app, length_replicate; lia).
  rewrite take_app_length, drop_app_add, drop_replicate, <- app_assoc.
  reflexivity.
Qed.

Section Fresh.
(** [view] is the [DataView] over the whole of the buffer allocated last,
    which holds [written] followed by zeros. *)
Variables (h : Heap) (view : DataView).
Hypothesis view_buffer : dv_buffer view = length h.
Hypothesis view_offset : dv_byteOffset view = 0.

Lemma setViewValue_append (written : list byte) (rem : nat) (index : Z)
    (size : nat) (value : Q) (littleEndian : bool) :
  dv_byteLength view = Z.of_nat (length written + rem) →
  index = Z.of_nat (length written) → (size ≤ rem)%nat →
  setViewValue view index size value littleEndian
    (h ++ [written ++ replicate rem x00]) =
  (h ++ [(written ++ encode size value littleEndian)
           ++ replicate (rem - size) x00], Return ()).
Proof.
  intros Hlen -> Hsize. unfold setViewValue.
  mstep ltac:(apply toIndex_inject_Z; lia).
  destruct (Z.ltb_spec (dv_byteLength view)
              (Z.of_nat (length written) + Z.of_nat size)); [lia|].
  unfold storeBytes. rewrite view_buffer, view_offset, bufferBytes_last.
  rewrite insert_last. rewrite Z.add_0_l, Nat2Z.id.
  rewrite writeBytes_append by (rewrite length_encode; lia).
  rewrite length_encode. reflexivity.
Qed.

Lemma putString_append (chars : string) :
  ∀ (written : list byte) (rem : nat) (index : Z),
    dv_byteLength view = Z.of_nat (length written + rem) →
    index = Z.of_nat (length written) → (String.length chars ≤ rem)%nat →
    putString view index chars (h ++ [written ++ replicate rem x00]) =
    (h ++ [(written ++ stringBytes chars)
             ++ replicate (rem - String.length chars) x00], Return ()).
Proof.
  induction chars as [|c chars IH]; intros written rem index Hlen Hidx Hrem.
  - cbn [putString stringBytes String.length].
    rewrite app_nil_r, Nat.sub_0_r. reflexivity.
  - cbn [putString stringBytes String.length] in *.
    mstep ltac:(unfold setUint8; apply setViewValue_append; [done|done|lia]).
    rewrite (IH _ (rem - 1)%nat).
    + rewrite <- !app_assoc.
      replace (rem - 1 - String.length chars)%nat
        with (rem - S (String.length chars))%nat by lia.
      reflexivity.
    + rewrite length_app, length_encode. lia.
    + rewrite length_app, length_encode. lia.
    + lia.
Qed.
End Fresh.

(** ** Reading a typed array *)

Lemma length_elementsOf (h : Heap) (array : Uint16Array) :
  length (elementsOf h array) = Z.to_nat (ta_length array).
Proof. unfold elementsOf. rewrite length_fmap, length_seq. reflexivity. Qed.

Lemma elementsOf_lookup (h : Heap) (array : Uint16Array) (i : nat) (v : Z) :
  elementsOf h array !! i = Some v →
  (i < Z.to_nat (ta_length array))%nat ∧
  v = bytesToNumber
        (take 2 (drop (Z.to_nat (ta_byteOffset array + 2 * Z.of_nat i))
                   (bufferBytes h (ta_buffer array)))).
Proof.
  unfold elementsOf. rewrite list_lookup_fmap.
  destruct (seq 0 (Z.to_nat (ta_length array)) !! i) as [j|] eqn:Hj;
    [|discriminate].
  apply lookup_seq in Hj as [-> Hlt]. cbn. intros [= <-]. split; [lia|].
  reflexivity.
Qed.

Lemma elementsOf_range (h : Heap) (array : Uint16Array) (i : nat) (v : Z) :
  elementsOf h array !! i = Some v → 0 ≤ v < 65536.
Proof.
  intros [_ ->]%elementsOf_lookup.
  match goal with |- context [bytesToNumber ?l] =>
    pose proof (bytesToNumber_range l) as Hr;
    assert (Hl : (length l ≤ 2)%nat) by (rewrite length_take; lia)
  end.
  assert (256 ^ Z.of_nat (length (take 2
            (drop (Z.to_nat (ta_byteOffset array + 2 * Z.of_nat i))
               (bufferBytes h (ta_buffer array))))) ≤ 256 ^ 2)
    by (apply Z.pow_le_mono_r; lia).
  lia.
Qed.

Lemma typedArrayGet_old (h : Heap) (cur : list byte) (array : Uint16Array)
    (i : nat) (v : Z) :
  (ta_buffer array < length h)%nat →
  elementsOf h array !! i = Some v →
  typedArrayGet array (Z.of_nat i) (h ++ [cur]) = (h ++ [cur], Return v).
Proof.
  intros Hb [Hi ->]%elementsOf_lookup. unfold typedArrayGet.
  destruct (Z.ltb_spec (Z.of_nat i) 0); [lia|].
  destruct (Z.leb_spec (ta_length array) (Z.of_nat i)); [lia|].
  cbn [orb]. unfold mbind, M_bind, loadBytes, mret, M_ret.
  rewrite bufferBytes_old by done. reflexivity.
Qed.

(** ** Loops *)

Lemma forLoop_run {S : Type} (P : nat → S → Heap → Prop)
    (body : Z → S → M S) (count : nat) :
  ∀ (i0 : Z) (s0 : S) (h0 : Heap),
    P 0%nat s0 h0 →
    (∀ k s h, (k < count)%nat → P k s h →
       ∃ s' h', body (i0 + Z.of_nat k) s h = (h', Return s') ∧ P (Datatypes.S k) s' h') →
    ∃ s' h', forLoop count i0 s0 body h0 = (h', Return s') ∧ P count s' h'.
Proof.
  revert P. induction count as [|count IH]; intros P i0 s0 h0 H0 Hstep.
  - exists s0, h0. split; [reflexivity | assumption].
  - destruct (Hstep 0%nat s0 h0 ltac:(lia) H0) as (s1 & h1 & Hrun & H1).
    rewrite Z.add_0_r in Hrun.
    destruct (IH (λ k, P (Datatypes.S k)) (i0 + 1) s1 h1 H1) as (s' & h' & Hloop & HP).
    + intros k s h Hk HPk.
      destruct (Hstep (Datatypes.S k) s h ltac:(lia) HPk) as (s2 & h2 & Hb & HP2).
      exists s2, h2. split; [|assumption].
      rewrite <- Hb. f_equal. lia.
    + exists s', h'. split; [|assumption].
      cbn [forLoop]. mstep ltac:(exact Hrun). exact Hloop.
Qed.

Lemma tryCatch_return {A : Type} (m : M A) (handler : error → M A) h h' a :
  m h = (h', Return a) → tryCatch m handler h = (h', Return a).
Proof. intros H. unfold tryCatch. rewrite H. reflexivity. Qed.

Section Copy.
(** Copying the elements of [array], which lives in [h], into the fresh
    buffer behind [view]. *)
Variables (h : Heap) (view : DataView) (array : Uint16Array).
Variables (littleEndian : bool) (written : list byte) (rem : nat).
Hypothesis view_buffer : dv_buffer view = length h.
Hypothesis view_offset : dv_byteOffset view = 0.
Hypothesis view_length : dv_byteLength view = Z.of_nat (length written + rem).
Hypothesis array_buffer : (ta_buffer array < length h)%nat.
Hypothesis room : (2 * Z.to_nat (ta_length array) ≤ rem)%nat.

Let copied (k : nat) : Heap :=
  h ++ [(written ++ samplesBytes littleEndian (take k (elementsOf h array)))
          ++ replicate (rem - 2 * k) x00].

Lemma copy_step (k : nat) (ofs : Z) :
  (k < Z.to_nat (ta_length array))%nat →
  ofs = Z.of_nat (length written) + Z.of_nat k * 2 →
  (v ← typedArrayGet array (0 + Z.of_nat k);
   setUint16 view ofs (inject_Z v) littleEndian) (copied k) =
  (copied (S k), Return ()).
Proof.
  intros Hk ->. unfold copied.
  destruct (lookup_lt_is_Some_2 (elementsOf h array) k) as [v Hv];
    [rewrite length_elementsOf; lia|].
  rewrite Z.add_0_l.
  mstep ltac:(apply typedArrayGet_old; [exact array_buffer | exact Hv]).
  unfold setUint16.
  assert (Hlen : length (take k (elementsOf h array)) = k)
    by (rewrite length_take, length_elementsOf; lia).
  rewrite setViewValue_append; try assumption.
  - rewrite (take_S_r _ _ _ Hv), samplesBytes_snoc, !app_assoc.
    replace (rem - 2 * S k)%nat with (rem - 2 * k - 2)%nat by lia.
    reflexivity.
  - rewrite length_app, length_samplesBytes, Hlen. lia.
  - rewrite length_app, length_samplesBytes, Hlen. lia.
  - lia.
Qed.

Lemma copied_all :
  copied (Z.to_nat (ta_length array)) =
  h ++ [(written ++ samplesBytes littleEndian (elementsOf h array))
          ++ replicate (rem - 2 * Z.to_nat (ta_length array)) x00].
Proof.
  unfold copied. rewrite take_ge by (rewrite length_elementsOf; lia).
  reflexivity.
Qed.

(** The loops of [rawPcmToMsu]. *)
Lemma copyLoop_append (base : Z) :
  base = Z.of_nat (length written) →
  forLoop (Z.to_nat (ta_length array)) 0 ()
    (λ i _, v ← typedArrayGet array i;
            setUint16 view (base + i * 2) (inject_Z v) littleEndian)
    (h ++ [written ++ replicate rem x00]) =
  (h ++ [(written ++ samplesBytes littleEndian (elementsOf h array))
           ++ replicate (rem - 2 * Z.to_nat (ta_length array)) x00],
   Return ()).
Proof.
  intros ->.
  destruct (forLoop_run (λ k (_ : unit) hh, hh = copied k)
              (λ i _, v ← typedArrayGet array i;
                      setUint16 view (Z.of_nat (length written) + i * 2)
                        (inject_Z v) littleEndian)
              (Z.to_nat (ta_length array)) 0 ()
              (h ++ [written ++ replicate rem x00]))
    as ([] & h' & Hrun & ->).
  - unfold copied. rewrite take_0. cbn [samplesBytes flat_map].
    rewrite app_nil_r, Nat.sub_0_r. reflexivity.
  - intros k [] hh Hk ->. exists (), (copied (S k)). split; [|reflexivity].
    apply copy_step; [exact Hk | lia].
  - rewrite Hrun, copied_all. reflexivity.
Qed.

(** The loop of [rawPcmToWav], which carries [ofs] along. *)
Lemma copyLoop_ofs_append (base : Z) (handler : Z → error → M Z) :
  base = Z.of_nat (length written) →
  forLoop (Z.to_nat (ta_length array)) 0 base
    (λ i ofs,
       tryCatch
         (v ← typedArrayGet array i;
          setUint16 view ofs (inject_Z v) littleEndian;;
          mret (ofs + 2))
         (handler ofs))
    (h ++ [written ++ replicate rem x00]) =
  (h ++ [(written ++ samplesBytes littleEndian (elementsOf h array))
           ++ replicate (rem - 2 * Z.to_nat (ta_length array)) x00],
   Return (base + Z.of_nat (Z.to_nat (ta_length array)) * 2)).
Proof.
  intros ->.
  destruct (forLoop_run
              (λ k ofs hh, ofs = Z.of_nat (length written) + Z.of_nat k * 2
                           ∧ hh = copied k)
              (λ i ofs,
                 tryCatch
                   (v ← typedArrayGet array i;
                    setUint16 view ofs (inject_Z v) littleEndian;;
                    mret (ofs + 2))
                   (handler ofs))
              (Z.to_nat (ta_length array)) 0 (Z.of_nat (length written))
              (h ++ [written ++ replicate rem x00]))
    as (ofs & h' & Hrun & -> & ->).
  - split; [lia|]. unfold copied. rewrite take_0. cbn [samplesBytes flat_map].
    rewrite app_nil_r, Nat.sub_0_r. reflexivity.
  - intros k ofs hh Hk [-> ->].
    exists (Z.of_nat (length written) + Z.of_nat (S k) * 2), (copied (S k)).
    split; [|split; reflexivity].
    apply tryCatch_return.
    pose proof (copy_step k _ Hk eq_refl) as Hstep.
    unfold mbind, M_bind in Hstep |- *.
    destruct (typedArrayGet array (0 + Z.of_nat k) (copied k))
      as [h1 [v| |]]; try discriminate.
    rewrite Hstep. unfold mret, M_ret. do 2 f_equal. lia.
  - rewrite Hrun, copied_all. reflexivity.
Qed.
End Copy.

(** ** What the encoders build *)

Lemma newBuffer_run (size : Z) (h : Heap) :
  newBuffer size h =
  (h ++ [[] ++ replicate (Z.to_nat size) x00], Return (length h)).
Proof. reflexivity. Qed.

Lemma newDataView_fresh (h : Heap) (cur : list byte) :
  newDataView (length h) 0 None (h ++ [cur]) =
  (h ++ [cur], Return {| dv_buffer := length h; dv_byteOffset := 0;
                         dv_byteLength := Z.of_nat (length cur) |}).
Proof. rewrite newDataView_whole, bufferBytes_last. reflexivity. Qed.

Ltac lengths :=
  try match goal with
      | H : dv_byteLength _ = _ |- dv_byteLength _ = _ => rewrite H
      end;
  rewrite ?length_app, ?length_stringBytes, ?length_encode,
    ?length_samplesBytes, ?length_elementsOf, ?length_replicate;
  cbn [String.length length]; unfold ta_byteLength; lia.

Ltac wput := mstep ltac:(apply putString_append;
                          [done|done|lengths|lengths|lengths]).
Ltac wset := mstep ltac:(unfold setUint32, setUint16;
                          apply setViewValue_append;
                          [done|done|lengths|lengths|lengths]).

Lemma newDataView_fresh' (h : Heap) (size : nat) :
  ∃ view, dv_buffer view = length h ∧ dv_byteOffset view = 0 ∧
          dv_byteLength view = Z.of_nat size ∧
          newDataView (length h) 0 None (h ++ [[] ++ replicate size x00]) =
          (h ++ [[] ++ replicate size x00], Return view).
Proof.
  eexists. split; [|split; [|split]]; [| | |apply newDataView_fresh];
    [reflexivity|reflexivity|].
  cbn [dv_byteLength]. rewrite length_app, length_replicate. reflexivity.
Qed.

Lemma rawPcmToMsu_run (h : Heap) (pcm : Uint16Array)
    (intro : option Uint16Array) (loop : option Q) :
  validUint16Array h pcm →
  (∀ a, intro = Some a → validUint16Array h a) →
  rawPcmToMsu pcm intro loop h =
  (h ++ [msuBytes (effectiveLoop intro loop) (elementsOf h <$> intro)
           (elementsOf h pcm)],
   Return (length h)).
Proof.
  intros (Hpb & _ & _ & Hpl & _) Hintro. unfold rawPcmToMsu, msuBytes.
  fold (effectiveLoop intro loop).
  mstep ltac:(apply newBuffer_run).
  match goal with |- context [replicate ?n x00] =>
    destruct (newDataView_fresh' h n) as (view & Hvb & Hvo & Hvl & Hview)
  end.
  mstep ltac:(exact Hview). clear Hview.
  destruct intro as [a|]; cbn [fmap option_fmap option_map].
  - destruct (Hintro a eq_refl) as (Hab & _ & _ & Hal & _).
    wput. wset.
    mstep ltac:(apply copyLoop_append; [done|done|lengths|done|lengths|lengths]).
    mstep ltac:(apply copyLoop_append; [done|done|lengths|done|lengths|lengths]).
    unfold mret, M_ret. do 3 f_equal.
    match goal with |- context [replicate ?n x00] =>
      replace n with 0%nat by lengths
    end.
    cbn [replicate]. rewrite app_nil_r, <- !app_assoc. reflexivity.
  - wput. wset.
    mstep ltac:(reflexivity).
    mstep ltac:(apply copyLoop_append; [done|done|lengths|done|lengths|lengths]).
    unfold mret, M_ret. do 3 f_equal.
    match goal with |- context [replicate ?n x00] =>
      replace n with 0%nat by lengths
    end.
    cbn [replicate]. rewrite app_nil_r, <- !app_assoc. reflexivity.
Qed.

Lemma rawPcmToWav_run (h : Heap) (pcm : Uint16Array) :
  validUint16Array h pcm →
  rawPcmToWav pcm h = (h ++ [wavBytes (elementsOf h pcm)], Return (length h)).
Proof.
  intros (Hpb & _ & _ & Hpl & _). unfold rawPcmToWav, wavBytes.
  rewrite length_elementsOf, Z2Nat.id by lia.
  fold (ta_byteLength pcm).
  mstep ltac:(apply newBuffer_run).
  match goal with |- context [replicate ?n x00] =>
    destruct (newDataView_fresh' h n) as (view & Hvb & Hvo & Hvl & Hview)
  end.
  mstep ltac:(exact Hview). clear Hview.
  wput. wset. wput. wput. wset. wset. wset. wset. wset. wset. wset. wput. wset.
  mstep ltac:(apply copyLoop_ofs_append;
              [done|done|lengths|done|lengths|lengths]).
  unfold mret, M_ret. do 3 f_equal.
  match goal with |- context [replicate ?n x00] =>
    replace n with 0%nat by lengths
  end.
  cbn [replicate]. rewrite app_nil_r, <- !app_assoc. reflexivity.
Qed.

(** ** Reading a buffer *)

Lemma getViewValue_at (view : DataView) (index : Z) (size : nat)
    (littleEndian : bool) (h : Heap) (pre raw post : list byte) :
  bufferBytes h (dv_buffer view) = pre ++ raw ++ post →
  length raw = size →
  0 ≤ index → Z.of_nat (length pre) = dv_byteOffset view + index →
  index + Z.of_nat size ≤ dv_byteLength view →
  getViewValue view index size littleEndian h =
  (h, Return (bytesToNumber (ordered littleEndian raw))).
Proof.
  intros Hbytes <- Hi Hpre Hb. rewrite getViewValue_ok by lia.
  rewrite Hbytes, <- Hpre, Nat2Z.id, drop_app_length, take_app_length.
  reflexivity.
Qed.

Lemma getString_at (view : DataView) (h : Heap) (raw : list byte) :
  ∀ (index : Z) (size : nat) (pre post : list byte),
    bufferBytes h (dv_buffer view) = pre ++ raw ++ post →
    length raw = size →
    0 ≤ index → Z.of_nat (length pre) = dv_byteOffset view + index →
    index + Z.of_nat size ≤ dv_byteLength view →
    getString view index size h = (h, Return (bytesString raw)).
Proof.
  induction raw as [|b raw IH]; intros index size pre post Hbytes <- Hi Hpre Hb.
  - reflexivity.
  - cbn [length getString bytesString].
    mstep ltac:(unfold getUint8;
                apply (getViewValue_at _ _ _ _ _ pre [b] (raw ++ post));
                [exact Hbytes|reflexivity|lia|lia|cbn [length] in Hb; lia]).
    mstep ltac:(apply (IH _ _ (pre ++ [b]) post);
                [rewrite <- app_assoc; exact Hbytes|reflexivity|lia
                |rewrite length_app; cbn [length]; lia
                |cbn [length] in Hb; lia]).
    unfold mret, M_ret, ordered. cbn [reverse rev_append bytesToNumber].
    rewrite Z.mul_0_r, Z.add_0_r. reflexivity.
Qed.

Lemma byte_of_char (b : byte) : byte_of_Z (charCodeAt (fromCharCode (Z_of_byte b))) = b.
Proof. destruct b; reflexivity. Qed.

Lemma bytesString_inj (l1 l2 : list byte) : bytesString l1 = bytesString l2 → l1 = l2.
Proof.
  revert l2. induction l1 as [|a l1 IH]; intros [|b l2]; cbn; try discriminate.
  - reflexivity.
  - intros [= Hc Hs]. f_equal; [|auto].
    rewrite <- (byte_of_char a), <- (byte_of_char b), Hc. reflexivity.
Qed.

Lemma Qlt_bool_half (a b : Z) :
  Qlt_bool (inject_Z a / 2) (inject_Z b) = (a <? 2 * b).
Proof.
  unfold Qlt_bool. apply Bool.eq_iff_eq_true. rewrite !Z.ltb_lt.
  cbn [inject_Z Qdiv Qmult Qinv Qnum Qden]. lia.
Qed.

Lemma truncate_half (a : Z) : truncate (inject_Z a / 2) = a ÷ 2.
Proof.
  unfold truncate. cbn [inject_Z Qdiv Qmult Qinv Qnum Qden].
  rewrite Z.mul_1_r. reflexivity.
Qed.

(** ** Reading samples back *)

Lemma samplesBytes_middle (littleEndian : bool) (l1 l2 : list Z) (v : Z) :
  samplesBytes littleEndian (l1 ++ v :: l2) =
  samplesBytes littleEndian l1 ++ encode 2 (inject_Z v) littleEndian
    ++ samplesBytes littleEndian l2.
Proof. unfold samplesBytes. rewrite flat_map_app. reflexivity. Qed.

Lemma decode_encode_16 (v : Z) :
  0 ≤ v < 65536 → bytesToNumber (encode 2 (inject_Z v) true) = v.
Proof.
  intros Hv. unfold encode, ordered.
  rewrite bytesToNumber_numberToBytes, toUint_inject_Z.
  change (2 ^ (8 * Z.of_nat 2)) with 65536. change (256 ^ Z.of_nat 2) with 65536.
  rewrite Z.mod_mod by lia. apply Z.mod_small. lia.
Qed.

Lemma decode_encode_32 (v : Z) :
  0 ≤ v < 2 ^ 32 → bytesToNumber (encode 4 (inject_Z v) true) = v.
Proof.
  intros Hv. unfold encode, ordered.
  rewrite bytesToNumber_numberToBytes, toUint_inject_Z.
  change (2 ^ (8 * Z.of_nat 4)) with (2 ^ 32).
  change (256 ^ Z.of_nat 4) with (2 ^ 32).
  rewrite Z.mod_mod by lia. apply Z.mod_small. lia.
Qed.

Lemma elementsOf_samplesBytes (h : Heap) (buffer : BufRef) (offset : Z)
    (pre post : list byte) (samples : list Z) :
  bufferBytes h buffer = pre ++ samplesBytes true samples ++ post →
  Z.of_nat (length pre) = offset →
  Forall (λ v, 0 ≤ v < 65536) samples →
  elementsOf h {| ta_buffer := buffer; ta_byteOffset := offset;
                  ta_length := Z.of_nat (length samples) |} = samples.
Proof.
  intros Hbytes <- Hrange. apply list_eq. intros i.
  unfold elementsOf. cbn [ta_buffer ta_byteOffset ta_length].
  rewrite list_lookup_fmap, Nat2Z.id.
  destruct (samples !! i) as [v|] eqn:Hv.
  - pose proof (lookup_lt_Some _ _ _ Hv) as Hi.
    rewrite lookup_seq_lt by exact Hi. cbn [fmap option_fmap option_map Nat.add].
    f_equal.
    rewrite Hbytes, <- (take_drop_middle samples i v Hv) at 1.
    rewrite samplesBytes_middle, <- !app_assoc, (app_assoc pre).
    rewrite drop_app_length', take_app_length'.
    + apply decode_encode_16.
      rewrite Forall_lookup in Hrange. exact (Hrange i v Hv).
    + rewrite length_encode. reflexivity.
    + rewrite length_app, length_samplesBytes, length_take. lia.
  - apply lookup_ge_None in Hv.
    rewrite lookup_seq_ge by exact Hv. reflexivity.
Qed.

Lemma elementsOf_Forall_range (h : Heap) (array : Uint16Array) :
  Forall (λ v, 0 ≤ v < 65536) (elementsOf h array).
Proof.
  apply Forall_lookup. intros i v Hv. exact (elementsOf_range h array i v Hv).
Qed.

Lemma toIndex_ok (q : Q) h : 0 ≤ truncate q → toIndex q h = (h, Return (truncate q)).
Proof.
  intros Hq. unfold toIndex. destruct (Z.ltb_spec (truncate q) 0); [lia | reflexivity].
Qed.

Lemma toIndex_range (q : Q) h : truncate q < 0 → toIndex q h = (h, Throw RangeError).
Proof.
  intros Hq. unfold toIndex. destruct (Z.ltb_spec (truncate q) 0); [reflexivity | lia].
Qed.

Lemma newUint16Array_ok (buffer : BufRef) (offset : Z) (len : Q) h :
  0 ≤ offset → offset mod 2 = 0 → 0 ≤ truncate len →
  offset + truncate len * 2 ≤ Z.of_nat (length (bufferBytes h buffer)) →
  newUint16Array buffer offset len h =
  (h, Return {| ta_buffer := buffer; ta_byteOffset := offset;
                ta_length := truncate len |}).
Proof.
  intros Ho Hal Hl Hb. unfold newUint16Array.
  mstep ltac:(apply toIndex_inject_Z; lia).
  rewrite Hal. cbn [Z.eqb negb].
  mstep ltac:(apply toIndex_ok; lia).
  mstep ltac:(reflexivity).
  destruct (Z.ltb_spec (Z.of_nat (length (bufferBytes h buffer)))
              (offset + truncate len * 2)); [lia | reflexivity].
Qed.

Lemma newUint16Array_range (buffer : BufRef) (offset : Z) (len : Q) h :
  offset < 0 ∨ offset mod 2 ≠ 0 ∨ truncate len < 0 ∨
  Z.of_nat (length (bufferBytes h buffer)) < offset + truncate len * 2 →
  newUint16Array buffer offset len h = (h, Throw RangeError).
Proof.
  intros Hr. unfold newUint16Array.
  destruct (Z.lt_ge_cases offset 0) as [Hn|Hn].
  { mthrow ltac:(apply toIndex_negative; lia). reflexivity. }
  mstep ltac:(apply toIndex_inject_Z; lia).
  destruct (Z.eqb_spec (offset mod 2) 0) as [Hal|Hal]; cbn [negb]; [|reflexivity].
  destruct (Z.lt_ge_cases (truncate len) 0) as [Hl|Hl].
  { mthrow ltac:(apply toIndex_range; lia). reflexivity. }
  mstep ltac:(apply toIndex_ok; lia).
  mstep ltac:(reflexivity).
  destruct (Z.ltb_spec (Z.of_nat (length (bufferBytes h buffer)))
              (offset + truncate len * 2)); [reflexivity | lia].
Qed.

Lemma bytesString_stringBytes_MSU1 : bytesString (stringBytes "MSU1") = "MSU1".
Proof. reflexivity. Qed.

(** ** Parsing what [rawPcmToMsu] built without an intro *)

Lemma msuToRawPcm_packed (h : Heap) (n : Z) (samples : list Z) (packLoop : bool) :
  0 ≤ n < 2 ^ 32 → n ≤ Z.of_nat (length samples) →
  n = 0 ∨ packLoop = true →
  msuToRawPcm (length h) packLoop (h ++ [msuBytes (inject_Z n) None samples]) =
  (h ++ [msuBytes (inject_Z n) None samples],
   Return {| pcm_intro := None;
             pcm_loop := {| ta_buffer := length h; ta_byteOffset := 8;
                            ta_length := Z.of_nat (length samples) |};
             pcm_loopPoint := Some n |}).
Proof.
  intros Hn Hle Hpack. unfold msuToRawPcm.
  assert (Hlen : Z.of_nat (length (msuBytes (inject_Z n) None samples))
                 = 8 + 2 * Z.of_nat (length samples)).
  { unfold msuBytes. rewrite !length_app, length_stringBytes, length_encode,
      length_samplesBytes. cbn [String.length length]. lia. }
  mstep ltac:(apply newDataView_fresh).
  rewrite Hlen.
  mstep ltac:(eapply (getString_at _ _ (stringBytes "MSU1") 0 4 []);
    cbn [dv_buffer dv_byteOffset dv_byteLength];
    [rewrite bufferBytes_last; reflexivity | reflexivity | lia | reflexivity
    | lia]).
  rewrite bytesString_stringBytes_MSU1. cbn [String.eqb Ascii.eqb Bool.eqb negb andb].
  mstep ltac:(unfold getUint32;
    eapply (getViewValue_at _ _ _ _ _ (stringBytes "MSU1") (encode 4 (inject_Z n) true));
    cbn [dv_buffer dv_byteOffset dv_byteLength];
    [rewrite bufferBytes_last; reflexivity | reflexivity | lia | reflexivity
    | lia]).
  cbn [ordered]. rewrite decode_encode_32 by lia.
  mstep ltac:(reflexivity).
  rewrite bufferBytes_last, Hlen, Qlt_bool_half.
  destruct (Z.ltb_spec (8 + 2 * Z.of_nat (length samples) - 8) (2 * n)); [lia|].
  assert (Htr : truncate (inject_Z (8 + 2 * Z.of_nat (length samples) - 8) / 2)
                = Z.of_nat (length samples)).
  { rewrite truncate_half.
    replace (8 + 2 * Z.of_nat (length samples) - 8)
      with (Z.of_nat (length samples) * 2) by lia.
    apply Z.quot_mul. lia. }
  replace ((n =? 0) || packLoop) with true
    by (destruct Hpack as [-> | ->]; [reflexivity | apply eq_sym, orb_true_r]).
  mstep ltac:(apply newUint16Array_ok;
    [lia | reflexivity | rewrite Htr; lia
    | rewrite Htr, bufferBytes_last, Hlen; lia]).
  rewrite Htr. reflexivity.
Qed.

(** ** Parsing what [rawPcmToWav] built *)

Lemma length_wavBytes (samples : list Z) :
  Z.of_nat (length (wavBytes samples)) = 44 + Z.of_nat (length samples) * 2.
Proof.
  unfold wavBytes. rewrite !length_app, !length_stringBytes, !length_encode,
    length_samplesBytes. cbn [String.length]. lia.
Qed.

Ltac rd_bytes :=
  cbn [dv_buffer]; rewrite bufferBytes_last; unfold wavBytes;
  rewrite <- ?app_assoc; reflexivity.
Ltac rd_len :=
  cbn [dv_byteOffset dv_byteLength];
  rewrite ?length_app, ?length_encode, ?length_stringBytes; reflexivity.
Ltac rd_lia := cbn [dv_byteOffset dv_byteLength]; lia.
Ltac rdS pre raw :=
  mstep ltac:(eapply (getString_at _ _ raw _ _ pre);
              [rd_bytes | rd_len | rd_lia | rd_len | rd_lia]).
Ltac rdV pre raw :=
  mstep ltac:(eapply (getViewValue_at _ _ _ _ _ pre raw);
              [rd_bytes | rd_len | rd_lia | rd_len | rd_lia]).

Lemma walkChunks_step (fuel : nat) (wavBuffer : BufRef) (view : DataView)
    (pos : Z) (chunks : gmap string DataView) :
  pos < dv_byteLength view →
  walkChunks (S fuel) wavBuffer view pos chunks =
  (name ← getString view pos 4;
   length ← getUint32 view (pos + 4) true;
   chunk ← newDataView wavBuffer (pos + 8) (Some length);
   walkChunks fuel wavBuffer view (pos + (length + 8))
     (<[removeNul (trim name) := chunk]> chunks)).
Proof.
  intros Hpos. cbn [walkChunks].
  destruct (Z.ltb_spec pos (dv_byteLength view)); [reflexivity | lia].
Qed.

Lemma walkChunks_done (fuel : nat) (wavBuffer : BufRef) (view : DataView)
    (pos : Z) (chunks : gmap string DataView) :
  dv_byteLength view ≤ pos →
  walkChunks fuel wavBuffer view pos chunks = mret chunks.
Proof.
  intros Hpos. destruct fuel; cbn [walkChunks];
    (destruct (Z.ltb_spec pos (dv_byteLength view)); [lia | reflexivity]).
Qed.

Lemma parseWavFile_wavBytes (h : Heap) (samples : list Z) :
  36 + Z.of_nat (length samples) * 2 < 2 ^ 32 →
  parseWavFile (length h) (h ++ [wavBytes samples]) =
  (h ++ [wavBytes samples],
   Return (<["data" := {| dv_buffer := length h; dv_byteOffset := 44;
                          dv_byteLength := Z.of_nat (length samples) * 2 |}]>
           (<["fmt" := {| dv_buffer := length h; dv_byteOffset := 20;
                          dv_byteLength := 16 |}]> ∅))).
Proof.
  intros Hfit. unfold parseWavFile.
  pose proof (length_wavBytes samples) as Hlen.
  mstep ltac:(apply newDataView_fresh).
  rewrite Hlen.
  rdS (@nil byte) (stringBytes "RIFF").
  rdS (stringBytes "RIFF" ++ encode 4 (inject_Z
         (44 + Z.of_nat (length samples) * 2 - 8)) true) (stringBytes "WAVE").
  change (bytesString (stringBytes "RIFF") +:+ "/" +:+
          bytesString (stringBytes "WAVE")) with "RIFF/WAVE".
  cbn [String.eqb Ascii.eqb Bool.eqb negb andb].
  unfold getUint32.
  rdV (stringBytes "RIFF") (encode 4 (inject_Z
         (44 + Z.of_nat (length samples) * 2 - 8)) true).
  cbn [ordered dv_byteLength]. rewrite decode_encode_32 by lia.
  replace (44 + Z.of_nat (length samples) * 2 - 8 + 8 =?
           44 + Z.of_nat (length samples) * 2) with true
    by (symmetry; apply Z.eqb_eq; lia).
  cbn [negb].
  replace (Z.to_nat (44 + Z.of_nat (length samples) * 2))
    with (S (S (Z.to_nat (42 + Z.of_nat (length samples) * 2)))) by lia.
  rewrite walkChunks_step by (cbn [dv_byteLength]; lia).
  rdS (stringBytes "RIFF" ++ encode 4 (inject_Z
         (44 + Z.of_nat (length samples) * 2 - 8)) true ++ stringBytes "WAVE")
      (stringBytes "fmt ").
  unfold getUint32.
  rdV (stringBytes "RIFF" ++ encode 4 (inject_Z
         (44 + Z.of_nat (length samples) * 2 - 8)) true ++ stringBytes "WAVE"
       ++ stringBytes "fmt ")
      (encode 4 16%Q true).
  change (bytesToNumber (ordered true (encode 4 16%Q true))) with 16.
  change (removeNul (trim (bytesString (stringBytes "fmt ")))) with "fmt".
  mstep ltac:(apply newDataView_part;
              rewrite ?bufferBytes_last, ?Hlen; lia).
  change (12 + 8) with 20. change (12 + (16 + 8)) with 36.
  rewrite walkChunks_step by (cbn [dv_byteLength]; lia).
  rdS (stringBytes "RIFF" ++ encode 4 (inject_Z
         (44 + Z.of_nat (length samples) * 2 - 8)) true ++ stringBytes "WAVE"
       ++ stringBytes "fmt " ++ encode 4 16%Q true ++ encode 2 1%Q true ++ encode 2 2%Q true ++ encode 4 44100%Q true ++ encode 4 (44100 * 16 * 2 / 8)%Q true ++ encode 2 4%Q true ++ encode 2 16%Q true)
      (stringBytes "data").
  unfold getUint32.
  rdV (stringBytes "RIFF" ++ encode 4 (inject_Z
         (44 + Z.of_nat (length samples) * 2 - 8)) true ++ stringBytes "WAVE"
       ++ stringBytes "fmt " ++ encode 4 16%Q true ++ encode 2 1%Q true ++ encode 2 2%Q true ++ encode 4 44100%Q true ++ encode 4 (44100 * 16 * 2 / 8)%Q true ++ encode 2 4%Q true ++ encode 2 16%Q true ++ stringBytes "data")
      (encode 4 (inject_Z (Z.of_nat (length samples) * 2)) true).
  cbn [ordered]. rewrite decode_encode_32 by lia.
  change (removeNul (trim (bytesString (stringBytes "data")))) with "data".
  mstep ltac:(apply newDataView_part;
              rewrite ?bufferBytes_last, ?Hlen; lia).
  rewrite walkChunks_done by (cbn [dv_byteLength]; lia).
  reflexivity.
Qed.

Lemma parseFMT_wavBytes (h : Heap) (samples : list Z) :
  parseFMT {| dv_buffer := length h; dv_byteOffset := 20; dv_byteLength := 16 |}
    (h ++ [wavBytes samples]) =
  (h ++ [wavBytes samples],
   Return {| formatTag := 1; channels := 2; samplesPerSec := 44100;
             avgBytesPerSec := 176400; blockAlign := 4; bitsPerSample := 16 |}).
Proof.
  unfold parseFMT, getUint16, getUint32.
  rdV (stringBytes "RIFF" ++ encode 4 (inject_Z
         (44 + Z.of_nat (length samples) * 2 - 8)) true ++ stringBytes "WAVE"
       ++ stringBytes "fmt " ++ encode 4 16%Q true)
      (encode 2 1%Q true).
  rdV (stringBytes "RIFF" ++ encode 4 (inject_Z
         (44 + Z.of_nat (length samples) * 2 - 8)) true ++ stringBytes "WAVE"
       ++ stringBytes "fmt " ++ encode 4 16%Q true ++ encode 2 1%Q true)
      (encode 2 2%Q true).
  rdV (stringBytes "RIFF" ++ encode 4 (inject_Z
         (44 + Z.of_nat (length samples) * 2 - 8)) true ++ stringBytes "WAVE"
       ++ stringBytes "fmt " ++ encode 4 16%Q true ++ encode 2 1%Q true
       ++ encode 2 2%Q true)
      (encode 4 44100%Q true).
  rdV (stringBytes "RIFF" ++ encode 4 (inject_Z
         (44 + Z.of_nat (length samples) * 2 - 8)) true ++ stringBytes "WAVE"
       ++ stringBytes "fmt " ++ encode 4 16%Q true ++ encode 2 1%Q true
       ++ encode 2 2%Q true ++ encode 4 44100%Q true)
      (encode 4 (44100 * 16 * 2 / 8)%Q true).
  rdV (stringBytes "RIFF" ++ encode 4 (inject_Z
         (44 + Z.of_nat (length samples) * 2 - 8)) true ++ stringBytes "WAVE"
       ++ stringBytes "fmt " ++ encode 4 16%Q true ++ encode 2 1%Q true
       ++ encode 2 2%Q true ++ encode 4 44100%Q true
       ++ encode 4 (44100 * 16 * 2 / 8)%Q true)
      (encode 2 4%Q true).
  rdV (stringBytes "RIFF" ++ encode 4 (inject_Z
         (44 + Z.of_nat (length samples) * 2 - 8)) true ++ stringBytes "WAVE"
       ++ stringBytes "fmt " ++ encode 4 16%Q true ++ encode 2 1%Q true
       ++ encode 2 2%Q true ++ encode 4 44100%Q true
       ++ encode 4 (44100 * 16 * 2 / 8)%Q true ++ encode 2 4%Q true)
      (encode 2 16%Q true).
  reflexivity.
Qed.

Lemma truncate_bits (a : Z) : truncate (inject_Z (a * 8) / inject_Z 16) = a ÷ 2.
Proof.
  unfold truncate. cbn [inject_Z Qdiv Qmult Qinv Qnum Qden].
  change (Z.pos (1 * 16)) with (8 * 2). rewrite Z.mul_1_r.
  rewrite (Z.mul_comm a 8). apply Z.quot_mul_cancel_l; lia.
Qed.

Lemma wavBufferToRawPcm_wavBytes (h : Heap) (samples : list Z) :
  36 + Z.of_nat (length samples) * 2 < 2 ^ 32 →
  wavBufferToRawPcm (length h) (h ++ [wavBytes samples]) =
  (h ++ [wavBytes samples],
   Return {| ta_buffer := length h; ta_byteOffset := 44;
             ta_length := Z.of_nat (length samples) |}).
Proof.
  intros Hfit. unfold wavBufferToRawPcm.
  mstep ltac:(apply parseWavFile_wavBytes; exact Hfit).
  rewrite lookup_insert_ne by done. rewrite lookup_insert_eq.
  mstep ltac:(apply parseFMT_wavBytes).
  cbn [formatTag channels samplesPerSec bitsPerSample Z.eqb Pos.eqb negb].
  rewrite lookup_insert_eq. cbn [dv_byteOffset dv_byteLength].
  assert (Htr : truncate (inject_Z (Z.of_nat (length samples) * 2 * 8) / inject_Z 16)
                = Z.of_nat (length samples)).
  { rewrite truncate_bits. apply Z.quot_mul. lia. }
  rewrite newUint16Array_ok.
  - rewrite Htr. reflexivity.
  - lia.
  - reflexivity.
  - rewrite Htr. lia.
  - rewrite Htr, bufferBytes_last, length_wavBytes. lia.
Qed.

(** ** Frames: what a call leaves alone *)

Lemma readOnly_ret {A : Type} (a : A) : readOnly (mret a).
Proof. intros h. reflexivity. Qed.

Lemma readOnly_throw {A : Type} (e : error) : readOnly (@throw A e).
Proof. intros h. reflexivity. Qed.

Lemma readOnly_bind {A B : Type} (m : M A) (f : A → M B) :
  readOnly m → (∀ a, readOnly (f a)) → readOnly (m ≫= f).
Proof.
  intros Hm Hf h. unfold mbind, M_bind. specialize (Hm h).
  destruct (m h) as [h' [a| |]]; cbn [fst] in *; subst h'; [apply Hf| |];
    reflexivity.
Qed.

Lemma readOnly_toIndex (q : Q) : readOnly (toIndex q).
Proof. intros h. unfold toIndex. destruct (truncate q <? 0); reflexivity. Qed.

Lemma readOnly_bufferByteLength (buffer : BufRef) :
  readOnly (bufferByteLength buffer).
Proof. intros h. reflexivity. Qed.

Lemma readOnly_loadBytes (buffer : BufRef) (index : Z) (count : nat) :
  readOnly (loadBytes buffer index count).
Proof. intros h. reflexivity. Qed.

Create HintDb readonly.
#[export] Hint Resolve readOnly_ret readOnly_throw readOnly_toIndex
  readOnly_bufferByteLength readOnly_loadBytes : readonly.

Ltac read_only :=
  repeat first
    [ progress auto with readonly
    | apply readOnly_bind; [|intros ?]
    | match goal with
      | |- readOnly (if ?c then _ else _) => destruct c
      | |- readOnly (match ?o with Some _ => _ | None => _ end) => destruct o
      end ].

Lemma readOnly_newDataView (buffer : BufRef) (byteOffset : Z)
    (byteLength : option Z) : readOnly (newDataView buffer byteOffset byteLength).
Proof. unfold newDataView. read_only. Qed.

Lemma readOnly_getViewValue (view : DataView) (index : Z) (size : nat)
    (littleEndian : bool) : readOnly (getViewValue view index size littleEndian).
Proof. unfold getViewValue. read_only. Qed.

Lemma readOnly_newUint16Array (buffer : BufRef) (byteOffset : Z) (len : Q) :
  readOnly (newUint16Array buffer byteOffset len).
Proof. unfold newUint16Array. read_only. Qed.

Lemma readOnly_typedArrayGet (array : Uint16Array) (index : Z) :
  readOnly (typedArrayGet array index).
Proof. unfold typedArrayGet. read_only. Qed.

#[export] Hint Resolve readOnly_newDataView readOnly_getViewValue
  readOnly_newUint16Array readOnly_typedArrayGet : readonly.

Lemma readOnly_getString (view : DataView) (size : nat) :
  ∀ offset, readOnly (getString view offset size).
Proof.
  induction size as [|size IH]; intros offset; cbn [getString].
  - read_only.
  - unfold getUint8. apply readOnly_bind; [auto with readonly|]. intros c.
    apply readOnly_bind; [apply IH|]. intros rest. read_only.
Qed.

#[export] Hint Resolve readOnly_getString : readonly.

Lemma readOnly_walkChunks (wavBuffer : BufRef) (view : DataView) (fuel : nat) :
  ∀ pos chunks, readOnly (walkChunks fuel wavBuffer view pos chunks).
Proof.
  induction fuel as [|fuel IH]; intros pos chunks; cbn [walkChunks].
  - destruct (pos <? dv_byteLength view); [intros h; reflexivity | read_only].
  - destruct (pos <? dv_byteLength view); [|read_only].
    unfold getUint32. read_only.
Qed.

#[export] Hint Resolve readOnly_walkChunks : readonly.

Lemma readOnly_parseWavFile (wavBuffer : BufRef) : readOnly (parseWavFile wavBuffer).
Proof. unfold parseWavFile, getUint32. read_only. Qed.

Lemma readOnly_parseFMT (view : DataView) : readOnly (parseFMT view).
Proof. unfold parseFMT, getUint16, getUint32. read_only. Qed.

#[export] Hint Resolve readOnly_parseWavFile readOnly_parseFMT : readonly.

Lemma readOnly_wavBufferToRawPcm (wavBuffer : BufRef) :
  readOnly (wavBufferToRawPcm wavBuffer).
Proof. unfold wavBufferToRawPcm. read_only. Qed.

Lemma readOnly_msuToRawPcm (msuBuffer : BufRef) (packLoop : bool) :
  readOnly (msuToRawPcm msuBuffer packLoop).
Proof. unfold msuToRawPcm, getUint32. read_only. Qed.

Lemma returns_ret {A : Type} (P : A → Prop) (a : A) : P a → returns P (mret a).
Proof. intros HP h h' a' [= _ <-]. exact HP. Qed.

Lemma returns_throw {A : Type} (P : A → Prop) (e : error) : returns P (throw e).
Proof. intros h h' a [=]. Qed.

Lemma returns_bind {A B : Type} (Q : A → Prop) (P : B → Prop)
    (m : M A) (f : A → M B) :
  returns Q m → (∀ a, Q a → returns P (f a)) → returns P (m ≫= f).
Proof.
  intros Hm Hf h h' b. unfold mbind, M_bind.
  destruct (m h) as [h1 [a| |]] eqn:Hrun; [|discriminate|discriminate].
  apply (Hf a (Hm _ _ _ Hrun)).
Qed.

Lemma returns_any {A : Type} (m : M A) : returns (λ _, True) m.
Proof. intros h h' a _. exact I. Qed.

Lemma returns_newUint16Array (buffer : BufRef) (byteOffset : Z) (len : Q) :
  returns (λ a, ta_buffer a = buffer) (newUint16Array buffer byteOffset len).
Proof.
  unfold newUint16Array.
  apply (returns_bind (λ _, True)); [apply returns_any|intros offset _].
  destruct (negb _); [apply returns_throw|].
  apply (returns_bind (λ _, True)); [apply returns_any|intros newLength _].
  apply (returns_bind (λ _, True)); [apply returns_any|intros bufferLength _].
  destruct (_ <? _); [apply returns_throw|]. apply returns_ret. reflexivity.
Qed.

Lemma returns_wavBufferToRawPcm (wavBuffer : BufRef) :
  returns (λ a, ta_buffer a = wavBuffer) (wavBufferToRawPcm wavBuffer).
Proof.
  unfold wavBufferToRawPcm.
  apply (returns_bind (λ _, True)); [apply returns_any|intros chunks _].
  destruct (chunks !! "fmt"); [|apply returns_throw].
  apply (returns_bind (λ _, True)); [apply returns_any|intros fmt _].
  repeat (destruct (negb _); [apply returns_throw|]).
  destruct (chunks !! "data"); [|apply returns_throw].
  apply returns_newUint16Array.
Qed.

Lemma returns_msuToRawPcm (msuBuffer : BufRef) (packLoop : bool) :
  returns (λ r, ta_buffer (pcm_loop r) = msuBuffer ∧
                ∀ a, pcm_intro r = Some a → ta_buffer a = msuBuffer)
    (msuToRawPcm msuBuffer packLoop).
Proof.
  unfold msuToRawPcm.
  apply (returns_bind (λ _, True)); [apply returns_any|intros view _].
  apply (returns_bind (λ _, True)); [apply returns_any|intros magic _].
  destruct (negb _); [apply returns_throw|].
  apply (returns_bind (λ _, True)); [apply returns_any|intros loopPoint _].
  apply (returns_bind (λ _, True)); [apply returns_any|intros byteLength _].
  destruct (Qlt_bool _ _); [apply returns_throw|].
  destruct (_ || _).
  - eapply returns_bind; [apply returns_newUint16Array|intros loop Hloop].
    apply returns_ret. split; [exact Hloop | discriminate].
  - eapply returns_bind; [apply returns_newUint16Array|intros intro Hintro].
    eapply returns_bind; [apply returns_newUint16Array|intros loop Hloop].
    apply returns_ret. split; [exact Hloop|]. intros a [= <-]. exact Hintro.
Qed.

(** ** Frames: what the encoders write *)

Lemma writesOnly_readOnly {A : Type} (buffer : BufRef) (m : M A) :
  readOnly m → writesOnly buffer m.
Proof. intros Hm h. rewrite (Hm h). split; [reflexivity|]. intros; reflexivity. Qed.

Lemma writesOnly_bind {A B : Type} (buffer : BufRef) (m : M A) (f : A → M B) :
  writesOnly buffer m → (∀ a, writesOnly buffer (f a)) →
  writesOnly buffer (m ≫= f).
Proof.
  intros Hm Hf h. unfold mbind, M_bind. destruct (Hm h) as [Hlen Hother].
  destruct (m h) as [h1 [a| |]]; cbn [fst] in *; [|split; assumption..].
  destruct (Hf a h1) as [Hlen' Hother']. split; [congruence|].
  intros b Hb. rewrite Hother', Hother by exact Hb. reflexivity.
Qed.

Lemma writesOnly_storeBytes (buffer : BufRef) (index : Z) (raw : list byte) :
  writesOnly buffer (storeBytes buffer index raw).
Proof.
  intros h. unfold storeBytes. cbn [fst]. split; [apply length_insert|].
  intros b Hb. apply list_lookup_insert_ne. congruence.
Qed.

Lemma writesOnly_setViewValue (view : DataView) (index : Z) (size : nat)
    (value : Q) (littleEndian : bool) :
  writesOnly (dv_buffer view) (setViewValue view index size value littleEndian).
Proof.
  unfold setViewValue. apply writesOnly_bind.
  - apply writesOnly_readOnly, readOnly_toIndex.
  - intros getIndex. destruct (_ <? _).
    + apply writesOnly_readOnly, readOnly_throw.
    + apply writesOnly_storeBytes.
Qed.

Lemma writesOnly_putString (view : DataView) (chars : string) :
  ∀ offset, writesOnly (dv_buffer view) (putString view offset chars).
Proof.
  induction chars as [|c chars IH]; intros offset; cbn [putString].
  - apply writesOnly_readOnly, readOnly_ret.
  - apply writesOnly_bind; [apply writesOnly_setViewValue|]. intros _. apply IH.
Qed.

Lemma writesOnly_tryCatch {A : Type} (buffer : BufRef) (m : M A)
    (handler : error → M A) :
  writesOnly buffer m → (∀ e, writesOnly buffer (handler e)) →
  writesOnly buffer (tryCatch m handler).
Proof.
  intros Hm Hh h. unfold tryCatch. destruct (Hm h) as [Hlen Hother].
  destruct (m h) as [h1 [a|e|]]; cbn [fst] in *; [split; assumption| |split; assumption].
  destruct (Hh e h1) as [Hlen' Hother']. split; [congruence|].
  intros b Hb. rewrite Hother', Hother by exact Hb. reflexivity.
Qed.

Lemma writesOnly_forLoop {S : Type} (buffer : BufRef) (body : Z → S → M S)
    (count : nat) :
  (∀ i s, writesOnly buffer (body i s)) →
  ∀ i s, writesOnly buffer (forLoop count i s body).
Proof.
  intros Hbody. induction count as [|count IH]; intros i s; cbn [forLoop].
  - apply writesOnly_readOnly, readOnly_ret.
  - apply writesOnly_bind; [apply Hbody|]. intros s'. apply IH.
Qed.

Lemma writesOnly_last {A : Type} (buffer : BufRef) (m : M A) (h : Heap)
    (cur : list byte) :
  buffer = length h → writesOnly buffer m →
  ∃ out, (m (h ++ [cur])).1 = h ++ [out].
Proof.
  intros -> Hm. destruct (Hm (h ++ [cur])) as [Hlen Hother].
  rewrite length_app in Hlen. cbn [length] in Hlen.
  destruct (lookup_lt_is_Some_2 (m (h ++ [cur])).1 (length h)) as [out Hout];
    [lia|].
  exists out. apply list_eq. intros b.
  destruct (decide (b = length h)) as [->|Hb].
  - rewrite Hout, lookup_app_r, Nat.sub_diag by lia. reflexivity.
  - rewrite (Hother b Hb).
    destruct (decide (b < length h)%nat).
    + rewrite !lookup_app_l by lia. reflexivity.
    + rewrite !lookup_ge_None_2 by (rewrite length_app; cbn [length]; lia).
      reflexivity.
Qed.

Lemma rawPcmToMsu_frame (pcm : Uint16Array) (intro : option Uint16Array)
    (loop : option Q) (h : Heap) :
  ∃ out, (rawPcmToMsu pcm intro loop h).1 = h ++ [out].
Proof.
  unfold rawPcmToMsu.
  erewrite bind_return by reflexivity.
  erewrite bind_return by apply newDataView_whole.
  cbv beta.
  match goal with |- context [putString ?v _ _] => set (view := v) end.
  apply (writesOnly_last (dv_buffer view)); [reflexivity|].
  apply writesOnly_bind; [apply (writesOnly_putString _ "MSU1")|intros _].
  apply writesOnly_bind; [apply writesOnly_setViewValue|intros _].
  apply writesOnly_bind.
  - destruct intro as [a|]; [|apply writesOnly_readOnly, readOnly_ret].
    apply writesOnly_forLoop. intros i s.
    apply writesOnly_bind; [apply writesOnly_readOnly, readOnly_typedArrayGet|].
    intros v. apply writesOnly_setViewValue.
  - intros _. apply writesOnly_bind; [|intros _; apply writesOnly_readOnly, readOnly_ret].
    apply writesOnly_forLoop. intros i s.
    apply writesOnly_bind; [apply writesOnly_readOnly, readOnly_typedArrayGet|].
    intros v. apply writesOnly_setViewValue.
Qed.

Lemma rawPcmToWav_frame (pcm : Uint16Array) (h : Heap) :
  ∃ out, (rawPcmToWav pcm h).1 = h ++ [out].
Proof.
  unfold rawPcmToWav.
  erewrite bind_return by reflexivity.
  erewrite bind_return by apply newDataView_whole.
  cbv beta.
  match goal with |- context [putString ?v _ _] => set (view := v) end.
  apply (writesOnly_last (dv_buffer view)); [reflexivity|].
  repeat (apply writesOnly_bind;
          [first [apply writesOnly_putString | apply writesOnly_setViewValue]
          |intros _]).
  apply writesOnly_bind; [|intros _; apply writesOnly_readOnly, readOnly_ret].
  apply writesOnly_forLoop. intros i ofs.
  apply writesOnly_tryCatch.
  - apply writesOnly_bind; [apply writesOnly_readOnly, readOnly_typedArrayGet|].
    intros v. apply writesOnly_bind; [apply writesOnly_setViewValue|].
    intros _. apply writesOnly_readOnly, readOnly_ret.
  - intros e. apply writesOnly_readOnly, readOnly_throw.
Qed.

(** ** The chunk walker has fuel enough *)

Lemma total_ret {A : Type} (a : A) : total (mret a).
Proof. intros h. discriminate. Qed.

Lemma total_throw {A : Type} (e : error) : total (@throw A e).
Proof. intros h. discriminate. Qed.

Lemma total_bind {A B : Type} (Q : A → Prop) (m : M A) (f : A → M B) :
  total m → returns Q m → (∀ a, Q a → total (f a)) → total (m ≫= f).
Proof.
  intros Hm HQ Hf h. unfold mbind, M_bind. specialize (Hm h).
  destruct (m h) as [h1 [a| |]] eqn:Hrun; cbn [snd] in *;
    [|discriminate|contradiction].
  apply (Hf a (HQ _ _ _ Hrun)).
Qed.

Lemma total_toIndex (q : Q) : total (toIndex q).
Proof. intros h. unfold toIndex. destruct (truncate q <? 0); discriminate. Qed.

Ltac total_step :=
  first
    [ apply total_ret | apply total_throw | apply total_toIndex
    | apply (total_bind (λ _, True)); [|apply returns_any|intros ? _]
    | match goal with
      | |- total (if ?c then _ else _) => destruct c
      | |- total (match ?o with Some _ => _ | None => _ end) => destruct o
      | |- total (bufferByteLength _) => intros ?; discriminate
      | |- total (loadBytes _ _ _) => intros ?; discriminate
      end ].

Lemma total_newDataView (buffer : BufRef) (byteOffset : Z)
    (byteLength : option Z) : total (newDataView buffer byteOffset byteLength).
Proof. unfold newDataView. repeat total_step. Qed.

Lemma total_getViewValue (view : DataView) (index : Z) (size : nat)
    (littleEndian : bool) : total (getViewValue view index size littleEndian).
Proof. unfold getViewValue. repeat total_step. Qed.

Lemma returns_getViewValue (view : DataView) (index : Z) (size : nat)
    (littleEndian : bool) :
  returns (λ v, 0 ≤ v) (getViewValue view index size littleEndian).
Proof.
  unfold getViewValue.
  apply (returns_bind (λ _, True)); [apply returns_any|intros getIndex _].
  destruct (_ <? _); [apply returns_throw|].
  apply (returns_bind (λ _, True)); [apply returns_any|intros raw _].
  apply returns_ret. apply bytesToNumber_range.
Qed.

Lemma total_getString (view : DataView) (size : nat) :
  ∀ offset, total (getString view offset size).
Proof.
  induction size as [|size IH]; intros offset; cbn [getString].
  - apply total_ret.
  - apply (total_bind (λ _, True));
      [apply total_getViewValue|apply returns_any|intros c _].
    apply (total_bind (λ _, True)); [apply IH|apply returns_any|intros rest _].
    apply total_ret.
Qed.

Lemma walkChunks_fuel (wavBuffer : BufRef) (view : DataView) (fuel : nat) :
  ∀ pos chunks,
    dv_byteLength view - pos ≤ Z.of_nat fuel →
    total (walkChunks fuel wavBuffer view pos chunks).
Proof.
  induction fuel as [|fuel IH]; intros pos chunks Hfuel; cbn [walkChunks];
    destruct (Z.ltb_spec pos (dv_byteLength view)) as [Hpos|Hpos];
    try apply total_ret; [lia|].
  apply (total_bind (λ _, True));
    [apply total_getString|apply returns_any|intros name _].
  apply (total_bind (λ v, 0 ≤ v));
    [apply total_getViewValue|apply returns_getViewValue|intros len Hlen].
  apply (total_bind (λ _, True));
    [apply total_newDataView|apply returns_any|intros chunk _].
  apply IH. lia.
Qed.

Lemma total_parseWavFile (wavBuffer : BufRef) : total (parseWavFile wavBuffer).
Proof.
  unfold parseWavFile.
  apply (total_bind (λ _, True));
    [apply total_newDataView|apply returns_any|intros view _].
  apply (total_bind (λ _, True));
    [apply total_getString|apply returns_any|intros riff _].
  apply (total_bind (λ _, True));
    [apply total_getString|apply returns_any|intros wave _].
  destruct (negb _); [apply total_throw|].
  apply (total_bind (λ _, True));
    [apply total_getViewValue|apply returns_any|intros recorded _].
  destruct (negb _); [apply total_throw|].
  apply walkChunks_fuel. lia.
Qed.

Lemma total_newUint16Array (buffer : BufRef) (byteOffset : Z) (len : Q) :
  total (newUint16Array buffer byteOffset len).
Proof. unfold newUint16Array. repeat total_step. Qed.

Lemma total_parseFMT (view : DataView) : total (parseFMT view).
Proof.
  unfold parseFMT, getUint16, getUint32.
  repeat (apply (total_bind (λ _, True));
          [apply total_getViewValue|apply returns_any|intros ? _]).
  apply total_ret.
Qed.

(** [wavBufferToRawPcm] returns or throws on every buffer: the fuel given
    to the chunk walker never runs out. *)
Lemma total_wavBufferToRawPcm (wavBuffer : BufRef) :
  total (wavBufferToRawPcm wavBuffer).
Proof.
  unfold wavBufferToRawPcm.
  apply (total_bind (λ _, True));
    [apply total_parseWavFile|apply returns_any|intros chunks _].
  destruct (chunks !! "fmt"); [|apply total_throw].
  apply (total_bind (λ _, True));
    [apply total_parseFMT|apply returns_any|intros fmt _].
  repeat (destruct (negb _); [apply total_throw|]).
  destruct (chunks !! "data"); [|apply total_throw].
  apply total_newUint16Array.
Qed.

(** * The claims *)

Ltac valid_array := unfold validUint16Array; cbn; repeat split; lia.

Lemma wavBytes_data (samples : list Z) :
  ∃ header, Z.of_nat (length header) = 44 ∧
            wavBytes samples = header ++ samplesBytes true samples ++ [].
Proof.
  exists (stringBytes "RIFF" ++
          encode 4 (inject_Z (44 + Z.of_nat (length samples) * 2 - 8)) true ++
          stringBytes "WAVE" ++ stringBytes "fmt " ++ encode 4 16%Q true ++
          encode 2 1%Q true ++ encode 2 2%Q true ++ encode 4 44100%Q true ++
          encode 4 (44100 * 16 * 2 / 8)%Q true ++ encode 2 4%Q true ++
          encode 2 16%Q true ++ stringBytes "data" ++
          encode 4 (inject_Z (Z.of_nat (length samples) * 2)) true).
  split.
  - rewrite !length_app, !length_stringBytes, !length_encode. reflexivity.
  - unfold wavBytes. rewrite app_nil_r, <- !app_assoc. reflexivity.
Qed.

(** C1. Round trip through WAVE: for a store [h] and a sample sequence [p]
    in it that fits a RIFF container (its byte length plus the 36 bytes of
    header after the size field is below 2^32), [rawPcmToWav p] returns a
    fresh buffer, [wavBufferToRawPcm] succeeds on it, and the sequence it
    returns has the elements of [p]. *)
Theorem wav_round_trip (h : Heap) (p : Uint16Array) :
  validUint16Array h p → 36 + ta_byteLength p < 2 ^ 32 →
  ∃ h' wav view,
    rawPcmToWav p h = (h', Return wav) ∧
    wavBufferToRawPcm wav h' = (h', Return view) ∧
    elementsOf h' view = elementsOf h p.
Proof.
  intros Hp Hfit.
  assert (Hlen : Z.of_nat (length (elementsOf h p)) = ta_length p).
  { rewrite length_elementsOf. destruct Hp as (_ & _ & _ & Hl & _). lia. }
  unfold ta_byteLength in Hfit.
  eexists _, _, _. split; [apply rawPcmToWav_run; exact Hp|].
  split; [apply wavBufferToRawPcm_wavBytes; lia|].
  destruct (wavBytes_data (elementsOf h p)) as (header & Hheader & Hdata).
  apply (elementsOf_samplesBytes _ _ _ header []).
  - rewrite bufferBytes_last. exact Hdata.
  - lia.
  - apply elementsOf_Forall_range.
Qed.

Lemma wav_round_trip_witness :
  ∃ h' wav view,
    rawPcmToWav pcm_10_40 store_10_40 = (h', Return wav) ∧
    wavBufferToRawPcm wav h' = (h', Return view) ∧
    elementsOf h' view = elementsOf store_10_40 pcm_10_40.
Proof.
  apply (wav_round_trip store_10_40 pcm_10_40).
  - valid_array.
  - vm_compute. reflexivity.
Defined.

(** C2. Round trip through MSU-1 with [packLoop]: for a sample sequence [p]
    and a loop index [n] with [0 <= n <= p.length / 2] that the 32-bit loop
    field can hold, [msuToRawPcm(rawPcmToMsu(p, {loop: n}), {packLoop: true})]
    succeeds, its [loop] has the elements of [p] and its [loopPoint] is [n]. *)
Theorem msu_packLoop_round_trip (h : Heap) (p : Uint16Array) (n : Z) :
  validUint16Array h p → 0 ≤ n → 2 * n ≤ ta_length p → n < 2 ^ 32 →
  ∃ h' msu r,
    rawPcmToMsu p None (Some (inject_Z n)) h = (h', Return msu) ∧
    msuToRawPcm msu true h' = (h', Return r) ∧
    elementsOf h' (pcm_loop r) = elementsOf h p ∧
    pcm_loopPoint r = Some n ∧
    pcm_intro r = None.
Proof.
  intros Hp Hn Hle Hfit.
  assert (Hlen : Z.of_nat (length (elementsOf h p)) = ta_length p).
  { rewrite length_elementsOf. destruct Hp as (_ & _ & _ & Hl & _). lia. }
  eexists _, _, _. split; [apply rawPcmToMsu_run; [exact Hp | discriminate]|].
  cbn [effectiveLoop default fmap option_fmap option_map].
  split; [apply msuToRawPcm_packed; [lia | lia | right; reflexivity]|].
  cbn [pcm_loop pcm_loopPoint pcm_intro]. split; [|split; reflexivity].
  apply (elementsOf_samplesBytes _ _ _
           (stringBytes "MSU1" ++ encode 4 (inject_Z n) true) []).
  - rewrite bufferBytes_last. unfold msuBytes.
    rewrite app_nil_r, <- app_assoc. reflexivity.
  - rewrite length_app, length_stringBytes, length_encode. reflexivity.
  - apply elementsOf_Forall_range.
Qed.

Lemma msu_packLoop_round_trip_witness :
  ∃ h' msu r,
    rawPcmToMsu pcm_10_40 None (Some (inject_Z 1)) store_10_40
      = (h', Return msu) ∧
    msuToRawPcm msu true h' = (h', Return r) ∧
    elementsOf h' (pcm_loop r) = elementsOf store_10_40 pcm_10_40 ∧
    pcm_loopPoint r = Some 1 ∧
    pcm_intro r = None.
Proof.
  apply (msu_packLoop_round_trip store_10_40 pcm_10_40 1).
  - valid_array.
  - lia.
  - vm_compute. discriminate.
  - lia.
Defined.

Lemma samplesBytes_lookup (littleEndian : bool) (samples : list Z)
    (i k : nat) (v : Z) :
  samples !! i = Some v → (k < 2)%nat →
  samplesBytes littleEndian samples !! (2 * i + k)%nat =
  encode 2 (inject_Z v) littleEndian !! k.
Proof.
  intros Hv Hk.
  rewrite <- (take_drop_middle samples i v Hv) at 1.
  rewrite samplesBytes_middle.
  pose proof (lookup_lt_Some _ _ _ Hv) as Hi.
  rewrite lookup_app_r
    by (rewrite length_samplesBytes, length_take; lia).
  rewrite length_samplesBytes, length_take.
  replace (2 * i + k - 2 * (i `min` length samples))%nat with k by lia.
  apply lookup_app_l. rewrite length_encode. exact Hk.
Qed.

Lemma encode_16_bytes (v : Z) (littleEndian : bool) :
  0 ≤ v < 65536 →
  Z_of_byte <$> encode 2 (inject_Z v) littleEndian =
  if littleEndian then [v mod 256; Z.shiftr v 8] else [Z.shiftr v 8; v mod 256].
Proof.
  intros Hv. unfold encode. rewrite toUint_inject_Z.
  change (2 ^ (8 * Z.of_nat 2)) with 65536. rewrite (Z.mod_small v) by lia.
  rewrite Z.shiftr_div_pow2 by lia. change (2 ^ 8) with 256.
  assert (Hhi : (v / 256) mod 256 = v / 256).
  { apply Z.mod_small. split; [apply Z.div_pos; lia|].
    apply Z.div_lt_upper_bound; lia. }
  destruct littleEndian; cbn [ordered numberToBytes reverse rev_append fmap list_fmap];
    rewrite !Z_of_byte_of_Z, Hhi; reflexivity.
Qed.

(** C8. [rawPcmToMsu([10, 20, 30, 40], {loop: 1})] builds exactly the 16
    bytes "MSU1", 01 00 00 00, 0A 00 14 00 1E 00 28 00, in a fresh buffer. *)
Theorem rawPcmToMsu_example (h : Heap) (pcm : Uint16Array) :
  validUint16Array h pcm → elementsOf h pcm = [10; 20; 30; 40] →
  rawPcmToMsu pcm None (Some 1%Q) h =
  (h ++ [[x4d; x53; x55; x31; x01; x00; x00; x00;
          x0a; x00; x14; x00; x1e; x00; x28; x00]],
   Return (length h)).
Proof.
  intros Hpcm Helems.
  rewrite rawPcmToMsu_run by (exact Hpcm || discriminate).
  rewrite Helems. reflexivity.
Qed.

Lemma rawPcmToMsu_example_witness :
  rawPcmToMsu pcm_10_40 None (Some 1%Q) store_10_40 =
  (store_10_40 ++ [[x4d; x53; x55; x31; x01; x00; x00; x00;
                    x0a; x00; x14; x00; x1e; x00; x28; x00]],
   Return (length store_10_40)).
Proof.
  apply (rawPcmToMsu_example store_10_40 pcm_10_40).
  - valid_array.
  - reflexivity.
Defined.

(** C9. In the buffer [rawPcmToMsu] builds when an intro is given, intro
    sample [i] lies most significant byte first at offsets [8 + 2i] and
    [8 + 2i + 1], and loop sample [j] lies least significant byte first at
    its place after the intro. *)
Theorem rawPcmToMsu_byte_order (h : Heap) (pcm intro : Uint16Array)
    (loop : option Q) :
  validUint16Array h pcm → validUint16Array h intro →
  ∃ out,
    rawPcmToMsu pcm (Some intro) loop h = (h ++ [out], Return (length h)) ∧
    (∀ (i : nat) (v : Z), elementsOf h intro !! i = Some v →
       Z_of_byte <$> out !! (8 + 2 * i)%nat = Some (Z.shiftr v 8) ∧
       Z_of_byte <$> out !! (8 + 2 * i + 1)%nat = Some (v mod 256)) ∧
    (∀ (j : nat) (w : Z), elementsOf h pcm !! j = Some w →
       Z_of_byte <$> out !! (8 + Z.to_nat (ta_byteLength intro) + 2 * j)%nat
         = Some (w mod 256) ∧
       Z_of_byte <$> out !! (8 + Z.to_nat (ta_byteLength intro) + 2 * j + 1)%nat
         = Some (Z.shiftr w 8)).
Proof.
  intros Hpcm Hintro.
  eexists. split.
  { apply rawPcmToMsu_run; [exact Hpcm|]. intros a [= <-]. exact Hintro. }
  cbn [fmap option_fmap option_map]. unfold msuBytes.
  set (header := stringBytes "MSU1").
  set (field := encode 4 _ true).
  assert (Hheader : length header = 4%nat) by reflexivity.
  assert (Hfield : length field = 4%nat) by apply length_encode.
  assert (Hil : length (elementsOf h intro) = Z.to_nat (ta_length intro))
    by apply length_elementsOf.
  split.
  - intros i v Hv.
    pose proof (elementsOf_range _ _ _ _ Hv) as Hr.
    pose proof (encode_16_bytes v false Hr) as Henc.
    assert (Hat : ∀ k, (k < 2)%nat →
      (header ++ field ++ samplesBytes false (elementsOf h intro)
         ++ samplesBytes true (elementsOf h pcm)) !! (8 + 2 * i + k)%nat
      = encode 2 (inject_Z v) false !! k).
    { intros k Hk. pose proof (lookup_lt_Some _ _ _ Hv) as Hi.
      rewrite lookup_app_r by lia. rewrite lookup_app_r by lia.
      rewrite lookup_app_l by (rewrite length_samplesBytes; lia).
      rewrite Hheader, Hfield.
      replace (8 + 2 * i + k - 4 - 4)%nat with (2 * i + k)%nat by lia.
      apply samplesBytes_lookup; assumption. }
    rewrite <- (Nat.add_0_r (8 + 2 * i)) at 1.
    rewrite !Hat by lia. rewrite <- !list_lookup_fmap, Henc. split; reflexivity.
  - intros j w Hw.
    pose proof (elementsOf_range _ _ _ _ Hw) as Hr.
    pose proof (encode_16_bytes w true Hr) as Henc.
    assert (Hat : ∀ k, (k < 2)%nat →
      (header ++ field ++ samplesBytes false (elementsOf h intro)
         ++ samplesBytes true (elementsOf h pcm))
        !! (8 + Z.to_nat (ta_byteLength intro) + 2 * j + k)%nat
      = encode 2 (inject_Z w) true !! k).
    { intros k Hk. destruct Hintro as (_ & _ & _ & Hl & _).
      unfold ta_byteLength.
      rewrite lookup_app_r by lia. rewrite lookup_app_r by lia.
      rewrite lookup_app_r by (rewrite length_samplesBytes; lia).
      rewrite Hheader, Hfield, length_samplesBytes, Hil.
      replace (8 + Z.to_nat (ta_length intro * 2) + 2 * j + k - 4 - 4
               - 2 * Z.to_nat (ta_length intro))%nat
        with (2 * j + k)%nat by lia.
      apply samplesBytes_lookup; assumption. }
    rewrite <- (Nat.add_0_r (8 + _ + 2 * j)) at 1.
    rewrite !Hat by lia. rewrite <- !list_lookup_fmap, Henc. split; reflexivity.
Qed.

Lemma rawPcmToMsu_byte_order_witness :
  ∃ out,
    rawPcmToMsu loop_3_4 (Some intro_1_2) None store_intro_loop
      = (store_intro_loop ++ [out], Return (length store_intro_loop)) ∧
    (∀ (i : nat) (v : Z), elementsOf store_intro_loop intro_1_2 !! i = Some v →
       Z_of_byte <$> out !! (8 + 2 * i)%nat = Some (Z.shiftr v 8) ∧
       Z_of_byte <$> out !! (8 + 2 * i + 1)%nat = Some (v mod 256)) ∧
    (∀ (j : nat) (w : Z), elementsOf store_intro_loop loop_3_4 !! j = Some w →
       Z_of_byte <$> out !! (8 + Z.to_nat (ta_byteLength intro_1_2) + 2 * j)%nat
         = Some (w mod 256) ∧
       Z_of_byte <$> out
           !! (8 + Z.to_nat (ta_byteLength intro_1_2) + 2 * j + 1)%nat
         = Some (Z.shiftr w 8)).
Proof.
  apply (rawPcmToMsu_byte_order store_intro_loop loop_3_4 intro_1_2 None);
    valid_array.
Defined.

Lemma bufferBytes_lookup (h : Heap) (buffer : BufRef) (bytes : list byte) :
  h !! buffer = Some bytes → bufferBytes h buffer = bytes.
Proof. intros H. unfold bufferBytes. rewrite H. reflexivity. Qed.

Lemma bytesString_neq (raw expected : list byte) :
  raw ≠ expected →
  (bytesString raw =? bytesString expected)%string = false.
Proof.
  intros Hne. apply String.eqb_neq. intros Heq. apply Hne.
  exact (bytesString_inj _ _ Heq).
Qed.

(** C7. [msuToRawPcm] throws an [MsuError] on a buffer of at least four
    bytes that does not start with "MSU1", and on a 16-byte buffer that
    starts with "MSU1" and whose loop-point field is 1,000,000. *)
Theorem msuToRawPcm_rejects :
  (∀ (h : Heap) (msuBuffer : BufRef) (packLoop : bool) (bytes : list byte),
     h !! msuBuffer = Some bytes → (4 ≤ length bytes)%nat →
     take 4 bytes ≠ [x4d; x53; x55; x31] →
     msuToRawPcm msuBuffer packLoop h
       = (h, Throw (MsuError "Not an MSU1 file"))) ∧
  (∀ (h : Heap) (msuBuffer : BufRef) (packLoop : bool) (bytes : list byte),
     h !! msuBuffer = Some bytes → length bytes = 16%nat →
     take 4 bytes = [x4d; x53; x55; x31] →
     bytesToNumber (take 4 (drop 4 bytes)) = 1000000 →
     msuToRawPcm msuBuffer packLoop h
       = (h, Throw (MsuError ("Loop point (1000000) is larger than the " +:+
                              "number of samples in the file (4)")))).
Proof.
  split.
  - intros h msuBuffer packLoop bytes Hbytes%bufferBytes_lookup Hlen Hmagic.
    unfold msuToRawPcm.
    mstep ltac:(apply newDataView_whole).
    mstep ltac:(apply (getString_at _ _ (take 4 bytes) 0 4 [] (drop 4 bytes));
      cbn [dv_buffer dv_byteOffset dv_byteLength];
      [rewrite Hbytes; cbn [app]; symmetry; apply take_drop
      |rewrite length_take; lia | lia | reflexivity | rewrite Hbytes; lia]).
    change "MSU1" with (bytesString [x4d; x53; x55; x31]).
    rewrite (bytesString_neq _ _ Hmagic). reflexivity.
  - intros h msuBuffer packLoop bytes Hbytes%bufferBytes_lookup Hlen Hmagic Hloop.
    unfold msuToRawPcm.
    mstep ltac:(apply newDataView_whole).
    mstep ltac:(apply (getString_at _ _ (take 4 bytes) 0 4 [] (drop 4 bytes));
      cbn [dv_buffer dv_byteOffset dv_byteLength];
      [rewrite Hbytes; cbn [app]; symmetry; apply take_drop
      |rewrite length_take; lia | lia | reflexivity | rewrite Hbytes; lia]).
    rewrite Hmagic. cbn [bytesString negb].
    change (_ =? "MSU1")%string with true. cbn [negb].
    mstep ltac:(unfold getUint32;
      apply (getViewValue_at _ _ _ _ _ (take 4 bytes) (take 4 (drop 4 bytes))
               (drop 4 (drop 4 bytes)));
      cbn [dv_buffer dv_byteOffset dv_byteLength];
      [rewrite Hbytes, take_drop, take_drop; reflexivity
      |rewrite length_take, length_drop; lia | lia
      |rewrite length_take; lia | rewrite Hbytes; lia]).
    cbn [ordered]. rewrite Hloop.
    mstep ltac:(reflexivity).
    rewrite Hbytes, Hlen. reflexivity.
Qed.

Lemma msuToRawPcm_rejects_witness :
  msuToRawPcm 0 false store_msu0
    = (store_msu0, Throw (MsuError "Not an MSU1 file")) ∧
  msuToRawPcm 0 true store_msu_million
    = (store_msu_million,
       Throw (MsuError ("Loop point (1000000) is larger than the " +:+
                        "number of samples in the file (4)"))).
Proof.
  destruct msuToRawPcm_rejects as [Hmagic Hloop]. split.
  - apply (Hmagic store_msu0 0%nat false _ eq_refl).
    + simpl. lia.
    + simpl. discriminate.
  - apply (Hloop store_msu_million 0%nat true _ eq_refl); reflexivity.
Defined.

Lemma bytesString_magic (raw : list byte) (wave : string) :
  length raw = 4%nat →
  bytesString raw +:+ "/" +:+ wave = "RIFF/WAVE" →
  raw = [x52; x49; x46; x46].
Proof.
  intros Hlen Heq.
  destruct raw as [|a [|b [|c [|d [|]]]]]; try discriminate Hlen.
  apply bytesString_inj. cbn in Heq |- *.
  injection Heq as Ha Hb Hc Hd _. rewrite Ha, Hb, Hc, Hd. reflexivity.
Qed.

Lemma parseWavFile_rejects (h : Heap) (wavBuffer : BufRef) (bytes : list byte) :
  h !! wavBuffer = Some bytes → (12 ≤ length bytes)%nat →
  take 4 bytes ≠ [x52; x49; x46; x46] ∨
  bytesToNumber (take 4 (drop 4 bytes)) + 8 ≠ Z.of_nat (length bytes) →
  ∃ message, parseWavFile wavBuffer h = (h, Throw (WavError message)).
Proof.
  intros Hbytes%bufferBytes_lookup Hlen Hbad. unfold parseWavFile.
  mstep ltac:(apply newDataView_whole).
  mstep ltac:(apply (getString_at _ _ (take 4 bytes) 0 4 [] (drop 4 bytes));
    cbn [dv_buffer dv_byteOffset dv_byteLength];
    [rewrite Hbytes; cbn [app]; symmetry; apply take_drop
    |rewrite length_take; lia | lia | reflexivity | rewrite Hbytes; lia]).
  mstep ltac:(apply (getString_at _ _ (take 4 (drop 8 bytes)) 8 4
                       (take 8 bytes) (drop 4 (drop 8 bytes)));
    cbn [dv_buffer dv_byteOffset dv_byteLength];
    [rewrite Hbytes, take_drop, take_drop; reflexivity
    |rewrite length_take, length_drop; lia | lia
    |rewrite length_take; lia | rewrite Hbytes; lia]).
  destruct (String.eqb_spec
              (bytesString (take 4 bytes) +:+ "/" +:+
               bytesString (take 4 (drop 8 bytes))) "RIFF/WAVE")
    as [Hmagic|Hmagic]; cbn [negb]; [|eexists; reflexivity].
  destruct Hbad as [Hriff|Hsize].
  { exfalso. apply Hriff.
    eapply (bytesString_magic (take 4 bytes)); [|exact Hmagic].
    rewrite length_take. lia. }
  mstep ltac:(unfold getUint32;
    apply (getViewValue_at _ _ _ _ _ (take 4 bytes) (take 4 (drop 4 bytes))
             (drop 4 (drop 4 bytes)));
    cbn [dv_buffer dv_byteOffset dv_byteLength];
    [rewrite Hbytes, take_drop, take_drop; reflexivity
    |rewrite length_take, length_drop; lia | lia
    |rewrite length_take; lia | rewrite Hbytes; lia]).
  cbn [ordered dv_byteLength]. rewrite Hbytes.
  destruct (Z.eqb_spec (bytesToNumber (take 4 (drop 4 bytes)) + 8)
              (Z.of_nat (length bytes))) as [Heq|Hne]; [contradiction|].
  cbn [negb]. eexists. reflexivity.
Qed.

(** C4, on the code. On the MSU-1 file with loop point 1 and the samples
    1, 2, 3, 4, read without [packLoop], the object returned has no
    [loopPoint], its [intro] holds one sample value (1), not the first
    [1 * 2] values (1, 2), and its [loop] holds 3, 4: sample 2 is in
    neither. *)
Theorem msuToRawPcm_split_failing_input :
  msuToRawPcm 0 false store_msu_split =
  (store_msu_split,
   Return {| pcm_intro := Some {| ta_buffer := 0; ta_byteOffset := 8;
                                  ta_length := 1 |};
             pcm_loop := {| ta_buffer := 0; ta_byteOffset := 12;
                            ta_length := 2 |};
             pcm_loopPoint := None |}) ∧
  elementsOf store_msu_split
    {| ta_buffer := 0; ta_byteOffset := 8; ta_length := 1 |} = [1] ∧
  elementsOf store_msu_split
    {| ta_buffer := 0; ta_byteOffset := 12; ta_length := 2 |} = [3; 4].
Proof. repeat split; vm_compute; reflexivity. Qed.

(** C5, on the code. On the 16-byte MSU-1 file (two frames, four sample
    values) with loop point 3, the guard [loopPoint > (byteLength - 8) / 2]
    lets the loop point through: with [packLoop] the call returns loop
    point 3, without it the call throws a [RangeError], not an
    [MsuError]. *)
Theorem msuToRawPcm_bound_failing_input :
  msuToRawPcm 0 true store_msu_3 =
  (store_msu_3,
   Return {| pcm_intro := None;
             pcm_loop := {| ta_buffer := 0; ta_byteOffset := 8;
                            ta_length := 4 |};
             pcm_loopPoint := Some 3 |}) ∧
  msuToRawPcm 0 false store_msu_3 = (store_msu_3, Throw RangeError) ∧
  ¬ (3 * 2 ≤ (Z.of_nat (length (bufferBytes store_msu_3 0)) - 8) / 2).
Proof. repeat split; vm_compute; (reflexivity || discriminate || auto). Qed.

(** C3, on the code. With intro 1, 2 and loop body 3, 4,
    [rawPcmToMsu(loop, {intro})] followed by [msuToRawPcm] without
    [packLoop] returns an [intro] with the single element 256 (the bytes
    00 01 of the intro sample 1, stored most significant first, read in
    host order), the [loop] 3, 4 and no [loopPoint]. *)
Theorem msu_intro_round_trip_failing_input :
  elementsOf store_intro_loop intro_1_2 = [1; 2] ∧
  elementsOf store_intro_loop loop_3_4 = [3; 4] ∧
  ∃ h' msu r,
    rawPcmToMsu loop_3_4 (Some intro_1_2) None store_intro_loop
      = (h', Return msu) ∧
    msuToRawPcm msu false h' = (h', Return r) ∧
    elementsOf h' <$> pcm_intro r = Some [256] ∧
    elementsOf h' (pcm_loop r) = [3; 4] ∧
    pcm_loopPoint r = None.
Proof.
  split; [reflexivity|]. split; [reflexivity|].
  eexists _, _, _. split; [vm_compute; reflexivity|].
  split; [vm_compute; reflexivity|].
  repeat split; vm_compute; reflexivity.
Qed.

Lemma returns_rawPcmToMsu (pcm : Uint16Array) (intro : option Uint16Array)
    (loop : option Q) (h : Heap) :
  ∀ h' msu, rawPcmToMsu pcm intro loop h = (h', Return msu) → msu = length h.
Proof.
  intros h' msu. unfold rawPcmToMsu.
  erewrite bind_return by reflexivity.
  revert h' msu. apply (returns_bind (λ _, True)); [apply returns_any|intros view _].
  apply (returns_bind (λ _, True)); [apply returns_any|intros _ _].
  apply (returns_bind (λ _, True)); [apply returns_any|intros _ _].
  apply (returns_bind (λ _, True)); [apply returns_any|intros _ _].
  apply (returns_bind (λ _, True)); [apply returns_any|intros _ _].
  apply returns_ret. reflexivity.
Qed.

Lemma returns_rawPcmToWav (pcm : Uint16Array) (h : Heap) :
  ∀ h' wav, rawPcmToWav pcm h = (h', Return wav) → wav = length h.
Proof.
  intros h' wav. unfold rawPcmToWav.
  erewrite bind_return by reflexivity.
  revert h' wav.
  repeat (apply (returns_bind (λ _, True)); [apply returns_any|intros ? _]).
  apply returns_ret. reflexivity.
Qed.




(** * Further properties of the code *)

(** ** Bytes as samples *)

Lemma bytesSamples_lookup (data : list byte) :
  ∀ i : nat, (2 * i + 2 ≤ length data)%nat →
    bytesSamples data !! i = Some (bytesToNumber (take 2 (drop (2 * i) data))).
Proof.
  induction data as [data IH] using (induction_ltof1 _ (@length byte)).
  unfold ltof in IH. intros i Hi.
  destruct data as [|a [|b rest]]; cbn [length] in Hi; try lia.
  destruct i as [|i].
  - reflexivity.
  - cbn [bytesSamples lookup list_lookup].
    replace (2 * S i)%nat with (S (S (2 * i))) by lia. cbn [drop].
    apply IH; cbn [length]; lia.
Qed.

Lemma length_bytesSamples (data : list byte) :
  length (bytesSamples data) = (length data / 2)%nat.
Proof.
  induction data as [data IH] using (induction_ltof1 _ (@length byte)).
  unfold ltof in IH.
  destruct data as [|a [|b rest]]; [reflexivity..|].
  cbn [bytesSamples length]. rewrite IH by (cbn [length]; lia).
  change (S (S (length rest))) with (1 * 2 + length rest)%nat.
  rewrite Nat.div_add_l by lia. reflexivity.
Qed.

Lemma elementsOf_bytesSamples (h : Heap) (buffer : BufRef) (offset n : Z)
    (pre rest : list byte) :
  bufferBytes h buffer = pre ++ rest → Z.of_nat (length pre) = offset →
  0 ≤ n → 2 * n ≤ Z.of_nat (length rest) →
  elementsOf h {| ta_buffer := buffer; ta_byteOffset := offset;
                  ta_length := n |} = take (Z.to_nat n) (bytesSamples rest).
Proof.
  intros Hbytes <- Hn Hfit. apply list_eq. intros i.
  unfold elementsOf. cbn [ta_buffer ta_byteOffset ta_length].
  rewrite list_lookup_fmap.
  destruct (decide (i < Z.to_nat n)%nat) as [Hi|Hi].
  - rewrite lookup_seq_lt by exact Hi.
    rewrite lookup_take_lt by exact Hi.
    rewrite bytesSamples_lookup by lia.
    cbn [fmap option_fmap option_map Nat.add]. f_equal. f_equal. f_equal.
    rewrite Hbytes.
    replace (Z.to_nat (Z.of_nat (length pre) + 2 * Z.of_nat i))
      with (length pre + 2 * i)%nat by lia.
    rewrite drop_app_add. reflexivity.
  - rewrite lookup_seq_ge by lia. rewrite lookup_take_ge by lia. reflexivity.
Qed.

Lemma numberToBytes_bytesToNumber (raw : list byte) :
  numberToBytes (length raw) (bytesToNumber raw) = raw.
Proof.
  induction raw as [|b raw IH]; [reflexivity|].
  cbn [length numberToBytes bytesToNumber].
  pose proof (Z_of_byte_range b) as Hb.
  f_equal.
  - unfold byte_of_Z. rewrite (Z.mul_comm 256), Z.mod_add by lia.
    fold (byte_of_Z (Z_of_byte b)). apply byte_of_Z_of_byte.
  - rewrite (Z.mul_comm 256), Z.div_add by lia.
    rewrite (Z.div_small (Z_of_byte b)) by lia. exact IH.
Qed.

Lemma encode_bytesToNumber (raw : list byte) :
  encode (length raw) (inject_Z (bytesToNumber raw)) true = raw.
Proof.
  unfold encode, ordered. rewrite toUint_inject_Z.
  pose proof (bytesToNumber_range raw) as Hr.
  replace (2 ^ (8 * Z.of_nat (length raw))) with (256 ^ Z.of_nat (length raw))
    by (change 256 with (2 ^ 8); rewrite <- Z.pow_mul_r by lia; reflexivity).
  rewrite Z.mod_small by lia. apply numberToBytes_bytesToNumber.
Qed.

Lemma samplesBytes_bytesSamples (data : list byte) :
  Nat.Even (length data) → samplesBytes true (bytesSamples data) = data.
Proof.
  induction data as [data IH] using (induction_ltof1 _ (@length byte)).
  unfold ltof in IH. intros Heven.
  destruct data as [|a [|b rest]].
  - reflexivity.
  - destruct Heven as [k Hk]. cbn [length] in Hk. lia.
  - cbn [bytesSamples]. unfold samplesBytes. cbn [flat_map].
    fold (samplesBytes true (bytesSamples rest)).
    change (encode 2 (inject_Z (bytesToNumber [a; b])) true)
      with (encode (length [a; b]) (inject_Z (bytesToNumber [a; b])) true).
    rewrite (encode_bytesToNumber [a; b]).
    rewrite IH; [reflexivity | cbn [length]; lia |].
    destruct Heven as [k Hk]. cbn [length] in Hk. exists (k - 1)%nat. lia.
Qed.

Lemma bytesSamples_samplesBytes (samples : list Z) (rest : list byte) :
  bytesSamples (samplesBytes true samples ++ rest) =
  ((λ v, v mod 65536) <$> samples) ++ bytesSamples rest.
Proof.
  induction samples as [|v samples IH]; [reflexivity|].
  unfold samplesBytes. cbn [flat_map]. fold (samplesBytes true samples).
  rewrite <- app_assoc.
  pose proof (length_encode 2 (inject_Z v) true) as Hlen.
  destruct (encode 2 (inject_Z v) true) as [|a [|b [|]]] eqn:Henc;
    try discriminate Hlen.
  cbn [app bytesSamples fmap list_fmap]. rewrite IH. f_equal.
  rewrite <- Henc. unfold encode, ordered.
  rewrite bytesToNumber_numberToBytes, toUint_inject_Z.
  change (2 ^ (8 * Z.of_nat 2)) with 65536. change (256 ^ Z.of_nat 2) with 65536.
  apply Z.mod_mod. lia.
Qed.

(** ** Reads that fall outside the view *)

Lemma getString_range (view : DataView) (h : Heap) (size : nat) :
  ∀ index, 0 ≤ index → index ≤ dv_byteLength view < index + Z.of_nat size →
    getString view index size h = (h, Throw RangeError).
Proof.
  induction size as [|size IH]; intros index Hi Hr; [lia|].
  cbn [getString]. unfold getUint8.
  destruct (Z.lt_ge_cases (dv_byteLength view) (index + 1)) as [Hout|Hin].
  - mthrow ltac:(apply getViewValue_range; lia). reflexivity.
  - mstep ltac:(apply getViewValue_ok; lia).
    mthrow ltac:(apply IH; lia). reflexivity.
Qed.

Lemma truncate_half_minus (a l : Z) :
  truncate (inject_Z a / 2 - inject_Z l * 2) = (a - 4 * l) ÷ 2.
Proof.
  unfold truncate. cbn [inject_Z Qdiv Qmult Qinv Qminus Qplus Qopp Qnum Qden].
  f_equal. lia.
Qed.

(** ** [msuToRawPcm] on any buffer *)

Ltac msu_magic Hbytes :=
  unfold msuToRawPcm;
  mstep ltac:(apply newDataView_whole);
  match type of Hbytes with
  | bufferBytes _ _ = ?bytes =>
      mstep ltac:(apply (getString_at _ _ (take 4 bytes) 0 4 [] (drop 4 bytes));
        cbn [dv_buffer dv_byteOffset dv_byteLength];
        [rewrite Hbytes; cbn [app]; symmetry; apply take_drop
        |rewrite length_take; lia | lia | reflexivity | rewrite Hbytes; lia])
  end.

Ltac msu_loop_point Hbytes :=
  match type of Hbytes with
  | bufferBytes _ _ = ?bytes =>
      mstep ltac:(unfold getUint32;
        apply (getViewValue_at _ _ _ _ _ (take 4 bytes) (take 4 (drop 4 bytes))
                 (drop 4 (drop 4 bytes)));
        cbn [dv_buffer dv_byteOffset dv_byteLength];
        [rewrite Hbytes, take_drop, take_drop; reflexivity
        |rewrite length_take, length_drop; lia | lia
        |rewrite length_take; lia | rewrite Hbytes; lia]);
      cbn [ordered];
      mstep ltac:(reflexivity);
      rewrite Hbytes
  end.

Lemma take_4_length (bytes : list byte) (a b c d : byte) :
  take 4 bytes = [a; b; c; d] → (4 ≤ length bytes)%nat.
Proof.
  intros H. apply (f_equal length) in H. rewrite length_take in H.
  cbn [length] in H. lia.
Qed.

(** X1. On a buffer too short for the magic, or for the loop point after a
    good magic, [msuToRawPcm] ends in the [RangeError] of the read, not in
    an [MsuError]. *)
Theorem msuToRawPcm_short_buffer (h : Heap) (msuBuffer : BufRef)
    (packLoop : bool) (bytes : list byte) :
  h !! msuBuffer = Some bytes →
  (length bytes < 4)%nat ∨
  (take 4 bytes = [x4d; x53; x55; x31] ∧ (length bytes < 8)%nat) →
  msuToRawPcm msuBuffer packLoop h = (h, Throw RangeError).
Proof.
  intros Hbytes%bufferBytes_lookup [Hshort|[Hmagic Hshort]].
  - unfold msuToRawPcm. mstep ltac:(apply newDataView_whole).
    mthrow ltac:(apply getString_range;
                 cbn [dv_byteLength]; rewrite ?Hbytes; lia).
    reflexivity.
  - pose proof (take_4_length _ _ _ _ _ Hmagic) as Hlen.
    msu_magic Hbytes. rewrite Hmagic.
    change (negb _) with false. cbv iota.
    mthrow ltac:(unfold getUint32; apply getViewValue_range;
                 cbn [dv_byteLength]; rewrite Hbytes; lia).
    reflexivity.
Qed.

Lemma msuToRawPcm_short_buffer_witness :
  msuToRawPcm 0 false store_msu_cut = (store_msu_cut, Throw RangeError).
Proof.
  apply (msuToRawPcm_short_buffer store_msu_cut 0%nat false _ eq_refl).
  right. split; [reflexivity | simpl; lia].
Defined.

(** X2. The guard of [msuToRawPcm]: on a buffer with the magic and a loop point
    above half the number of bytes after the header, the call throws the
    [MsuError] whose message has the loop point and that half. *)
Theorem msuToRawPcm_loop_point_guard (h : Heap) (msuBuffer : BufRef)
    (packLoop : bool) (bytes : list byte) :
  h !! msuBuffer = Some bytes → (8 ≤ length bytes)%nat →
  take 4 bytes = [x4d; x53; x55; x31] →
  Z.of_nat (length bytes) - 8 < 2 * bytesToNumber (take 4 (drop 4 bytes)) →
  msuToRawPcm msuBuffer packLoop h =
  (h, Throw (MsuError
     ("Loop point (" +:+
      numberToString (inject_Z (bytesToNumber (take 4 (drop 4 bytes)))) +:+
      ") is larger than the number of samples in the file (" +:+
      numberToString (inject_Z (Z.of_nat (length bytes) - 8) / 2) +:+ ")"))).
Proof.
  intros Hbytes%bufferBytes_lookup Hlen Hmagic Hguard.
  msu_magic Hbytes. rewrite Hmagic. change (negb _) with false. cbv iota.
  msu_loop_point Hbytes.
  rewrite Qlt_bool_half.
  destruct (Z.ltb_spec (Z.of_nat (length bytes) - 8)
              (2 * bytesToNumber (take 4 (drop 4 bytes)))); [reflexivity|lia].
Qed.

Lemma msuToRawPcm_loop_point_guard_witness :
  msuToRawPcm 0 false store_msu_million =
  (store_msu_million,
   Throw (MsuError ("Loop point (1000000) is larger than the number of " +:+
                    "samples in the file (4)"))).
Proof.
  apply (msuToRawPcm_loop_point_guard store_msu_million 0%nat false _ eq_refl).
  - simpl. lia.
  - reflexivity.
  - vm_compute. reflexivity.
Defined.

Lemma quot_half_length (data : list byte) :
  Z.of_nat (length data) ÷ 2 = Z.of_nat (length data / 2).
Proof.
  rewrite Z.quot_div_nonneg by lia. rewrite Nat2Z.inj_div. reflexivity.
Qed.

Lemma msuToRawPcm_whole_run (h : Heap) (msuBuffer : BufRef) (packLoop : bool)
    (bytes : list byte) :
  h !! msuBuffer = Some bytes → (8 ≤ length bytes)%nat →
  take 4 bytes = [x4d; x53; x55; x31] →
  2 * bytesToNumber (take 4 (drop 4 bytes)) ≤ Z.of_nat (length bytes) - 8 →
  bytesToNumber (take 4 (drop 4 bytes)) = 0 ∨ packLoop = true →
  msuToRawPcm msuBuffer packLoop h =
  (h, Return {| pcm_intro := None;
                pcm_loop := {| ta_buffer := msuBuffer; ta_byteOffset := 8;
                               ta_length :=
                                 Z.of_nat (length (drop 8 bytes) / 2) |};
                pcm_loopPoint := Some (bytesToNumber (take 4 (drop 4 bytes))) |}) ∧
  elementsOf h {| ta_buffer := msuBuffer; ta_byteOffset := 8;
                  ta_length := Z.of_nat (length (drop 8 bytes) / 2) |}
    = bytesSamples (drop 8 bytes).
Proof.
  intros Hlookup Hlen Hmagic Hguard Hwhole.
  pose proof (bufferBytes_lookup _ _ _ Hlookup) as Hbytes.
  assert (Htr : truncate (inject_Z (Z.of_nat (length bytes) - 8) / 2)
                = Z.of_nat (length (drop 8 bytes) / 2)).
  { rewrite truncate_half, <- quot_half_length, length_drop. f_equal. lia. }
  pose proof (Nat.Div0.mul_div_le (length (drop 8 bytes)) 2) as Hhalf.
  split.
  - msu_magic Hbytes. rewrite Hmagic. change (negb _) with false. cbv iota.
    msu_loop_point Hbytes.
    rewrite Qlt_bool_half.
    destruct (Z.ltb_spec (Z.of_nat (length bytes) - 8)
                (2 * bytesToNumber (take 4 (drop 4 bytes)))); [lia|].
    replace ((bytesToNumber (take 4 (drop 4 bytes)) =? 0) || packLoop) with true
      by (destruct Hwhole as [-> | ->]; [reflexivity | apply eq_sym, orb_true_r]).
    mstep ltac:(apply newUint16Array_ok;
      [lia | reflexivity | rewrite Htr; lia
      | rewrite Htr, Hbytes; rewrite length_drop in *; lia]).
    rewrite Htr. reflexivity.
  - rewrite (elementsOf_bytesSamples h msuBuffer 8 _ (take 8 bytes) (drop 8 bytes)).
    + rewrite Nat2Z.id. apply take_ge. rewrite length_bytesSamples. lia.
    + rewrite Hbytes, take_drop. reflexivity.
    + rewrite length_take. lia.
    + lia.
    + lia.
Qed.

(** X3. Without a split (loop point 0, or [packLoop]) and with a loop point
    the guard lets through, [msuToRawPcm] returns every 16-bit value after
    the 8-byte header as [loop], with the loop point of the file and no
    [intro]; a trailing odd byte is left out. *)
Theorem msuToRawPcm_whole (h : Heap) (msuBuffer : BufRef) (packLoop : bool)
    (bytes : list byte) :
  h !! msuBuffer = Some bytes → (8 ≤ length bytes)%nat →
  take 4 bytes = [x4d; x53; x55; x31] →
  2 * bytesToNumber (take 4 (drop 4 bytes)) ≤ Z.of_nat (length bytes) - 8 →
  bytesToNumber (take 4 (drop 4 bytes)) = 0 ∨ packLoop = true →
  ∃ loop,
    msuToRawPcm msuBuffer packLoop h =
    (h, Return {| pcm_intro := None; pcm_loop := loop;
                  pcm_loopPoint := Some (bytesToNumber (take 4 (drop 4 bytes))) |}) ∧
    ta_buffer loop = msuBuffer ∧ ta_byteOffset loop = 8 ∧
    elementsOf h loop = bytesSamples (drop 8 bytes).
Proof.
  intros Hlookup Hlen Hmagic Hguard Hwhole.
  destruct (msuToRawPcm_whole_run h msuBuffer packLoop bytes Hlookup Hlen Hmagic
              Hguard Hwhole) as [Hrun Helems].
  eexists. split; [exact Hrun|]. split; [reflexivity|]. split; [reflexivity|].
  exact Helems.
Qed.

Lemma msuToRawPcm_whole_witness :
  ∃ loop,
    msuToRawPcm 0 true store_msu_split =
    (store_msu_split,
     Return {| pcm_intro := None; pcm_loop := loop; pcm_loopPoint := Some 1 |}) ∧
    ta_buffer loop = 0%nat ∧ ta_byteOffset loop = 8 ∧
    elementsOf store_msu_split loop = [1; 2; 3; 4].
Proof.
  apply (msuToRawPcm_whole store_msu_split 0%nat true _ eq_refl).
  - simpl. lia.
  - reflexivity.
  - vm_compute. discriminate.
  - right. reflexivity.
Defined.

Lemma msuToRawPcm_split_unfold (h : Heap) (msuBuffer : BufRef)
    (bytes : list byte) (L : Z) :
  h !! msuBuffer = Some bytes → (8 ≤ length bytes)%nat →
  take 4 bytes = [x4d; x53; x55; x31] →
  bytesToNumber (take 4 (drop 4 bytes)) = L → L ≠ 0 →
  2 * L ≤ Z.of_nat (length bytes) - 8 →
  msuToRawPcm msuBuffer false h =
  (intro ← newUint16Array msuBuffer 8 (inject_Z L);
   loop ← newUint16Array msuBuffer (8 + L * 4)
            (inject_Z (Z.of_nat (length bytes) - 8) / 2 - inject_Z L * 2)%Q;
   mret {| pcm_intro := Some intro; pcm_loop := loop;
           pcm_loopPoint := None |}) h.
Proof.
  intros Hbytes%bufferBytes_lookup Hlen Hmagic HL Hnz Hguard.
  msu_magic Hbytes. rewrite Hmagic. change (negb _) with false. cbv iota.
  msu_loop_point Hbytes. rewrite HL.
  rewrite Qlt_bool_half.
  destruct (Z.ltb_spec (Z.of_nat (length bytes) - 8) (2 * L)); [lia|].
  destruct (Z.eqb_spec L 0); [contradiction|]. reflexivity.
Qed.

Lemma msuToRawPcm_split_run (h : Heap) (msuBuffer : BufRef)
    (bytes : list byte) (L : Z) :
  h !! msuBuffer = Some bytes → (8 ≤ length bytes)%nat →
  take 4 bytes = [x4d; x53; x55; x31] →
  bytesToNumber (take 4 (drop 4 bytes)) = L → L ≠ 0 →
  4 * L ≤ Z.of_nat (length bytes) - 8 →
  let intro := {| ta_buffer := msuBuffer; ta_byteOffset := 8;
                  ta_length := L |} in
  let loop := {| ta_buffer := msuBuffer; ta_byteOffset := 8 + L * 4;
                 ta_length :=
                   Z.of_nat (length (drop (Z.to_nat (8 + L * 4)) bytes) / 2) |} in
  msuToRawPcm msuBuffer false h =
  (h, Return {| pcm_intro := Some intro; pcm_loop := loop;
                pcm_loopPoint := None |}) ∧
  elementsOf h intro = take (Z.to_nat L) (bytesSamples (drop 8 bytes)) ∧
  elementsOf h loop = bytesSamples (drop (Z.to_nat (8 + L * 4)) bytes).
Proof.
  intros Hlookup Hlen Hmagic HL Hnz Hfit intro loop. subst intro loop.
  pose proof (bufferBytes_lookup _ _ _ Hlookup) as Hbytes.
  assert (HL0 : 0 ≤ L) by (rewrite <- HL; apply bytesToNumber_range).
  rewrite (msuToRawPcm_split_unfold h msuBuffer bytes L) by (assumption || lia).
  set (rest := drop (Z.to_nat (8 + L * 4)) bytes).
  assert (Hrest : length rest = Z.to_nat (Z.of_nat (length bytes) - 8 - 4 * L))
    by (unfold rest; rewrite length_drop; lia).
  assert (Htr : truncate (inject_Z (Z.of_nat (length bytes) - 8) / 2
                          - inject_Z L * 2)
                = Z.of_nat (length rest / 2)).
  { rewrite truncate_half_minus, <- quot_half_length, Hrest. f_equal. lia. }
  pose proof (Nat.Div0.mul_div_le (length rest) 2) as Hhalf.
  split; [|split].
  - mstep ltac:(apply newUint16Array_ok;
      [lia | reflexivity | rewrite truncate_inject_Z; lia
      | rewrite truncate_inject_Z, Hbytes; lia]).
    mstep ltac:(apply newUint16Array_ok;
      [lia
      | replace (8 + L * 4) with ((4 + L * 2) * 2) by lia; apply Z.mod_mul; lia
      | rewrite Htr; lia
      | rewrite Htr, Hbytes; lia]).
    rewrite truncate_inject_Z, Htr. reflexivity.
  - apply (elementsOf_bytesSamples h msuBuffer 8 L (take 8 bytes) (drop 8 bytes)).
    + rewrite Hbytes, take_drop. reflexivity.
    + rewrite length_take. lia.
    + lia.
    + rewrite length_drop. lia.
  - rewrite (elementsOf_bytesSamples h msuBuffer (8 + L * 4) _
               (take (Z.to_nat (8 + L * 4)) bytes) rest).
    + rewrite Nat2Z.id. apply take_ge. rewrite length_bytesSamples. lia.
    + rewrite Hbytes. unfold rest. rewrite take_drop. reflexivity.
    + rewrite length_take. lia.
    + lia.
    + lia.
Qed.

(** X4. With a split (loop point L not 0, no [packLoop]) [msuToRawPcm]
    returns an [intro] of L values from byte 8, a [loop] from byte 8 + 4L to
    the end, and no [loopPoint], when the buffer has 4L bytes after the
    header; when it has at least 2L but fewer than 4L, the guard lets the
    loop point through and the call ends in a [RangeError]. *)
Theorem msuToRawPcm_split (h : Heap) (msuBuffer : BufRef) (bytes : list byte)
    (L : Z) :
  h !! msuBuffer = Some bytes → (8 ≤ length bytes)%nat →
  take 4 bytes = [x4d; x53; x55; x31] →
  bytesToNumber (take 4 (drop 4 bytes)) = L → L ≠ 0 →
  2 * L ≤ Z.of_nat (length bytes) - 8 →
  (4 * L ≤ Z.of_nat (length bytes) - 8 →
   ∃ intro loop,
     msuToRawPcm msuBuffer false h =
     (h, Return {| pcm_intro := Some intro; pcm_loop := loop;
                   pcm_loopPoint := None |}) ∧
     intro = {| ta_buffer := msuBuffer; ta_byteOffset := 8; ta_length := L |} ∧
     ta_buffer loop = msuBuffer ∧ ta_byteOffset loop = 8 + L * 4 ∧
     elementsOf h intro = take (Z.to_nat L) (bytesSamples (drop 8 bytes)) ∧
     elementsOf h loop = bytesSamples (drop (Z.to_nat (8 + L * 4)) bytes)) ∧
  (Z.of_nat (length bytes) - 8 < 4 * L →
   msuToRawPcm msuBuffer false h = (h, Throw RangeError)).
Proof.
  intros Hlookup Hlen Hmagic HL Hnz Hguard. split.
  - intros Hfit.
    destruct (msuToRawPcm_split_run h msuBuffer bytes L Hlookup Hlen Hmagic HL
                Hnz Hfit) as (Hrun & Hintro & Hloop).
    eexists _, _. split; [exact Hrun|]. split; [reflexivity|].
    split; [reflexivity|]. split; [reflexivity|]. split; assumption.
  - intros Hover.
    pose proof (bufferBytes_lookup _ _ _ Hlookup) as Hbytes.
    assert (HL0 : 0 ≤ L) by (rewrite <- HL; apply bytesToNumber_range).
    rewrite (msuToRawPcm_split_unfold h msuBuffer bytes L) by assumption.
    mstep ltac:(apply newUint16Array_ok;
      [lia | reflexivity | rewrite truncate_inject_Z; lia
      | rewrite truncate_inject_Z, Hbytes; lia]).
    mthrow ltac:(apply newUint16Array_range; rewrite truncate_half_minus, Hbytes;
      destruct (Z.lt_ge_cases ((Z.of_nat (length bytes) - 8 - 4 * L) ÷ 2) 0);
      [right; right; left; lia|];
      right; right; right;
      assert ((Z.of_nat (length bytes) - 8 - 4 * L) ÷ 2 ≤ 0)
        by (apply Z.quot_le_upper_bound; lia); lia).
    reflexivity.
Qed.

Lemma msuToRawPcm_split_witness :
  (∃ intro loop,
     msuToRawPcm 0 false store_msu_split =
     (store_msu_split, Return {| pcm_intro := Some intro; pcm_loop := loop;
                                 pcm_loopPoint := None |}) ∧
     intro = {| ta_buffer := 0; ta_byteOffset := 8; ta_length := 1 |} ∧
     ta_buffer loop = 0%nat ∧ ta_byteOffset loop = 12 ∧
     elementsOf store_msu_split intro = [1] ∧
     elementsOf store_msu_split loop = [3; 4]) ∧
  msuToRawPcm 0 false store_msu_3 = (store_msu_3, Throw RangeError).
Proof.
  split.
  - apply (msuToRawPcm_split store_msu_split 0%nat _ 1 eq_refl);
      [simpl; lia | reflexivity | reflexivity | discriminate
      | vm_compute; discriminate | vm_compute; discriminate].
  - apply (msuToRawPcm_split store_msu_3 0%nat _ 3 eq_refl);
      [simpl; lia | reflexivity | reflexivity | discriminate
      | vm_compute; discriminate | vm_compute; reflexivity].
Defined.

(** ** The parts of an MSU-1 file *)

Lemma msuBytes_parts (loop : Q) (intro : option (list Z)) (pcm : list Z) :
  let data := match intro with
              | Some samples => samplesBytes false samples
              | None => []
              end ++ samplesBytes true pcm in
  let bytes := msuBytes loop intro pcm in
  take 4 bytes = [x4d; x53; x55; x31] ∧
  take 4 (drop 4 bytes) = encode 4 loop true ∧
  drop 8 bytes = data ∧
  length bytes = (8 + length data)%nat.
Proof.
  cbv zeta. unfold msuBytes.
  change (stringBytes "MSU1") with [x4d; x53; x55; x31].
  pose proof (length_encode 4 loop true) as Hlen.
  destruct (encode 4 loop true) as [|a [|b [|c [|d [|]]]]]; try discriminate Hlen.
  cbn [app take drop length]. repeat split; reflexivity.
Qed.

Lemma decode_encode_uint32 (q : Q) :
  bytesToNumber (encode 4 q true) = truncate q mod 2 ^ 32.
Proof.
  unfold encode, ordered, toUint. rewrite bytesToNumber_numberToBytes.
  change (2 ^ (8 * Z.of_nat 4)) with (2 ^ 32).
  change (256 ^ Z.of_nat 4) with (2 ^ 32).
  apply Z.mod_mod. lia.
Qed.

(** X5. [rawPcmToMsu] never throws. It returns a fresh buffer of
    [8 + intro.byteLength + pcm.byteLength] bytes that starts with "MSU1",
    and whose loop-point field holds, modulo 2^32, half the intro length
    rounded down when an intro is given (the [loop] option is then
    ignored), else [loop] rounded towards zero (0 when left out). *)
Theorem rawPcmToMsu_layout (h : Heap) (pcm : Uint16Array)
    (intro : option Uint16Array) (loop : option Q) :
  validUint16Array h pcm →
  (∀ a, intro = Some a → validUint16Array h a) →
  ∃ out,
    rawPcmToMsu pcm intro loop h = (h ++ [out], Return (length h)) ∧
    Z.of_nat (length out) =
      8 + match intro with Some a => ta_byteLength a | None => 0 end
        + ta_byteLength pcm ∧
    take 4 out = [x4d; x53; x55; x31] ∧
    bytesToNumber (take 4 (drop 4 out)) =
      match intro with
      | Some a => ta_length a ÷ 2
      | None => truncate (default 0%Q loop)
      end mod 2 ^ 32.
Proof.
  intros Hpcm Hintro.
  eexists. split; [apply rawPcmToMsu_run; assumption|].
  destruct (msuBytes_parts (effectiveLoop intro loop) (elementsOf h <$> intro)
              (elementsOf h pcm)) as (Hmagic & Hfield & _ & Hlen).
  split; [|split].
  - rewrite Hlen, length_app, length_samplesBytes, length_elementsOf.
    destruct Hpcm as (_ & _ & _ & Hpl & _). unfold ta_byteLength.
    destruct intro as [a|]; cbn [fmap option_fmap option_map].
    + destruct (Hintro a eq_refl) as (_ & _ & _ & Hal & _).
      rewrite length_samplesBytes, length_elementsOf. lia.
    + cbn [length]. lia.
  - exact Hmagic.
  - rewrite Hfield, decode_encode_uint32. unfold effectiveLoop.
    destruct intro as [a|]; [rewrite truncate_half|]; reflexivity.
Qed.

Lemma rawPcmToMsu_layout_witness :
  ∃ out,
    rawPcmToMsu loop_3_4 (Some intro_1_2) (Some 7%Q) store_intro_loop
      = (store_intro_loop ++ [out], Return (length store_intro_loop)) ∧
    Z.of_nat (length out) = 8 + ta_byteLength intro_1_2 + ta_byteLength loop_3_4 ∧
    take 4 out = [x4d; x53; x55; x31] ∧
    bytesToNumber (take 4 (drop 4 out)) = (ta_length intro_1_2 ÷ 2) mod 2 ^ 32.
Proof.
  apply (rawPcmToMsu_layout store_intro_loop loop_3_4 (Some intro_1_2)
           (Some 7%Q)).
  - valid_array.
  - intros a [= <-]. valid_array.
Defined.

(** X6. Reading an MSU-1 file whole and writing it again gives the file
    back: on a buffer of even length with the magic and a loop point the
    guard lets through, [rawPcmToMsu] on the [loop] and [loopPoint] that
    [msuToRawPcm] returns with [packLoop] builds a buffer with the same
    bytes. *)
Theorem msu_decode_encode (h : Heap) (msuBuffer : BufRef) (bytes : list byte) :
  h !! msuBuffer = Some bytes → (8 ≤ length bytes)%nat →
  Nat.Even (length bytes) →
  take 4 bytes = [x4d; x53; x55; x31] →
  2 * bytesToNumber (take 4 (drop 4 bytes)) ≤ Z.of_nat (length bytes) - 8 →
  ∃ r loopPoint,
    msuToRawPcm msuBuffer true h = (h, Return r) ∧
    pcm_loopPoint r = Some loopPoint ∧
    rawPcmToMsu (pcm_loop r) None (Some (inject_Z loopPoint)) h
      = (h ++ [bytes], Return (length h)).
Proof.
  intros Hlookup Hlen Heven Hmagic Hguard.
  destruct (msuToRawPcm_whole_run h msuBuffer true bytes Hlookup Hlen Hmagic
              Hguard (or_intror eq_refl)) as [Hrun Helems].
  eexists _, _. split; [exact Hrun|]. split; [reflexivity|].
  cbn [pcm_loop].
  pose proof (bufferBytes_lookup _ _ _ Hlookup) as Hbytes.
  pose proof (Nat.Div0.mul_div_le (length (drop 8 bytes)) 2) as Hhalf.
  rewrite rawPcmToMsu_run.
  - rewrite Helems.
    cbn [fmap option_fmap option_map effectiveLoop default from_option id].
    do 3 f_equal. unfold msuBytes. cbn [app].
    assert (Hsplit : take 4 bytes ++ take 4 (drop 4 bytes) ++ drop 8 bytes = bytes).
    { change (drop 8 bytes) with (drop (4 + 4) bytes).
      rewrite <- (drop_drop bytes 4 4), take_drop, take_drop. reflexivity. }
    assert (Henc : encode 4 (inject_Z (bytesToNumber (take 4 (drop 4 bytes)))) true
                   = take 4 (drop 4 bytes)).
    { pose proof (encode_bytesToNumber (take 4 (drop 4 bytes))) as Henc.
      rewrite length_take, length_drop in Henc.
      replace (4 `min` (length bytes - 4))%nat with 4%nat in Henc by lia.
      exact Henc. }
    rewrite Henc, samplesBytes_bytesSamples.
    + change (stringBytes "MSU1") with [x4d; x53; x55; x31].
      rewrite <- Hmagic. exact Hsplit.
    + rewrite length_drop. destruct Heven as [k Hk]. exists (k - 4)%nat. lia.
  - unfold validUint16Array. cbn [ta_buffer ta_byteOffset ta_length].
    rewrite Hbytes. rewrite length_drop in Hhalf |- *.
    split; [apply (lookup_lt_Some _ _ _ Hlookup)|].
    repeat split; lia.
  - discriminate.
Qed.

Lemma msu_decode_encode_witness :
  ∃ r loopPoint,
    msuToRawPcm 0 true store_msu_split = (store_msu_split, Return r) ∧
    pcm_loopPoint r = Some loopPoint ∧
    rawPcmToMsu (pcm_loop r) None (Some (inject_Z loopPoint)) store_msu_split
      = (store_msu_split ++ [bufferBytes store_msu_split 0],
         Return (length store_msu_split)).
Proof.
  apply (msu_decode_encode store_msu_split 0%nat _ eq_refl).
  - simpl. lia.
  - exists 8%nat. reflexivity.
  - reflexivity.
  - vm_compute. discriminate.
Defined.

(** ** An intro through the encoder and back *)

Lemma decode_encode_16_be (v : Z) :
  0 ≤ v < 65536 → bytesToNumber (encode 2 (inject_Z v) false) = swap16 v.
Proof.
  intros Hv. unfold encode. rewrite toUint_inject_Z.
  change (2 ^ (8 * Z.of_nat 2)) with 65536. rewrite Z.mod_small by lia.
  cbn [numberToBytes ordered reverse rev_append bytesToNumber].
  rewrite !Z_of_byte_of_Z. unfold swap16.
  assert (Hhi : (v / 256) mod 256 = v / 256).
  { apply Z.mod_small. split; [apply Z.div_pos; lia|].
    apply Z.div_lt_upper_bound; lia. }
  rewrite Hhi. lia.
Qed.

Lemma bytesSamples_samplesBytes_be (samples : list Z) (rest : list byte) :
  Forall (λ v, 0 ≤ v < 65536) samples →
  bytesSamples (samplesBytes false samples ++ rest) =
  (swap16 <$> samples) ++ bytesSamples rest.
Proof.
  induction 1 as [|v samples Hv _ IH]; [reflexivity|].
  unfold samplesBytes. cbn [flat_map]. fold (samplesBytes false samples).
  rewrite <- app_assoc.
  pose proof (length_encode 2 (inject_Z v) false) as Hlen.
  destruct (encode 2 (inject_Z v) false) as [|a [|b [|]]] eqn:Henc;
    try discriminate Hlen.
  cbn [app bytesSamples fmap list_fmap]. rewrite IH. f_equal.
  rewrite <- Henc. apply decode_encode_16_be. exact Hv.
Qed.

Lemma bytesSamples_samplesBytes_le (samples : list Z) :
  Forall (λ v, 0 ≤ v < 65536) samples →
  bytesSamples (samplesBytes true samples) = samples.
Proof.
  intros Hrange.
  rewrite <- (app_nil_r (samplesBytes true samples)), bytesSamples_samplesBytes.
  cbn [bytesSamples]. rewrite app_nil_r.
  induction Hrange as [|v samples Hv _ IH]; [reflexivity|].
  cbn [fmap list_fmap]. rewrite Z.mod_small by lia. f_equal. exact IH.
Qed.

Lemma lookup_fresh (h : Heap) (bytes : list byte) :
  (h ++ [bytes]) !! length h = Some bytes.
Proof. rewrite lookup_app_r, Nat.sub_diag by lia. reflexivity. Qed.

(** X7. An intro through [rawPcmToMsu] and back with [packLoop]: the call
    succeeds, [loopPoint] is half the intro length rounded down, and [loop]
    holds the intro samples, each with its two bytes exchanged, followed by
    the loop samples as they were. *)
Theorem msu_intro_packLoop_round_trip (h : Heap) (pcm intro : Uint16Array)
    (loop : option Q) :
  validUint16Array h pcm → validUint16Array h intro →
  ta_length intro < 2 ^ 33 →
  ∃ h' msu r,
    rawPcmToMsu pcm (Some intro) loop h = (h', Return msu) ∧
    msuToRawPcm msu true h' = (h', Return r) ∧
    pcm_intro r = None ∧
    pcm_loopPoint r = Some (ta_length intro ÷ 2) ∧
    elementsOf h' (pcm_loop r) =
      (swap16 <$> elementsOf h intro) ++ elementsOf h pcm.
Proof.
  intros Hpcm Hintro Hfit.
  pose proof (rawPcmToMsu_run h pcm (Some intro) loop Hpcm) as Hencode.
  cbn [fmap option_fmap option_map effectiveLoop] in Hencode.
  destruct (msuBytes_parts (inject_Z (ta_length intro) / 2)
              (Some (elementsOf h intro)) (elementsOf h pcm))
    as (Hmagic & Hfield & Hdata & Hlen).
  assert (Hil : 0 ≤ ta_length intro) by apply Hintro.
  assert (HL : bytesToNumber
                 (take 4 (drop 4 (msuBytes (inject_Z (ta_length intro) / 2)
                                    (Some (elementsOf h intro))
                                    (elementsOf h pcm))))
               = ta_length intro ÷ 2).
  { rewrite Hfield, decode_encode_uint32, truncate_half.
    apply Z.mod_small. split; [apply Z.quot_pos; lia|].
    apply Z.quot_lt_upper_bound; lia. }
  destruct (msuToRawPcm_whole_run
              (h ++ [msuBytes (inject_Z (ta_length intro) / 2)
                       (Some (elementsOf h intro)) (elementsOf h pcm)])
              (length h) true _ (lookup_fresh h _)) as [Hrun Helems].
  - rewrite Hlen. lia.
  - exact Hmagic.
  - rewrite HL, Hlen, length_app, !length_samplesBytes, !length_elementsOf.
    pose proof (Z.quot_mul_le (ta_length intro) 2 1) as Hq.
    assert (2 * (ta_length intro ÷ 2) ≤ ta_length intro).
    { rewrite (Z.quot_rem' (ta_length intro) 2) at 2.
      pose proof (Z.rem_nonneg (ta_length intro) 2). lia. }
    destruct Hpcm as (_ & _ & _ & Hpl & _). lia.
  - right. reflexivity.
  - eexists _, _, _. split; [apply Hencode; intros a [= <-]; exact Hintro|].
    split; [exact Hrun|]. cbn [pcm_intro pcm_loopPoint pcm_loop].
    split; [reflexivity|]. split; [rewrite HL; reflexivity|].
    rewrite Helems, Hdata, bytesSamples_samplesBytes_be
      by apply elementsOf_Forall_range.
    rewrite bytesSamples_samplesBytes_le by apply elementsOf_Forall_range.
    reflexivity.
Qed.

Lemma msu_intro_packLoop_round_trip_witness :
  ∃ h' msu r,
    rawPcmToMsu loop_3_4 (Some intro_1_2) None store_intro_loop
      = (h', Return msu) ∧
    msuToRawPcm msu true h' = (h', Return r) ∧
    pcm_intro r = None ∧
    pcm_loopPoint r = Some (ta_length intro_1_2 ÷ 2) ∧
    elementsOf h' (pcm_loop r) =
      (swap16 <$> elementsOf store_intro_loop intro_1_2)
      ++ elementsOf store_intro_loop loop_3_4.
Proof.
  apply (msu_intro_packLoop_round_trip store_intro_loop loop_3_4 intro_1_2 None).
  - valid_array.
  - valid_array.
  - vm_compute. reflexivity.
Defined.

(** X8. An intro of 2k sample values (k at least 1) through [rawPcmToMsu]
    and back without [packLoop]: the call succeeds, the [loop] returned has
    the loop samples as they were, the [intro] returned has k values, the
    first k intro samples with their two bytes exchanged, and there is no
    [loopPoint]. *)
Theorem msu_intro_split_round_trip (h : Heap) (pcm intro : Uint16Array)
    (loop : option Q) (k : Z) :
  validUint16Array h pcm → validUint16Array h intro →
  ta_length intro = 2 * k → 1 ≤ k < 2 ^ 32 →
  ∃ h' msu r a,
    rawPcmToMsu pcm (Some intro) loop h = (h', Return msu) ∧
    msuToRawPcm msu false h' = (h', Return r) ∧
    pcm_loopPoint r = None ∧
    pcm_intro r = Some a ∧
    elementsOf h' a = swap16 <$> take (Z.to_nat k) (elementsOf h intro) ∧
    elementsOf h' (pcm_loop r) = elementsOf h pcm.
Proof.
  intros Hpcm Hintro Heven Hk.
  pose proof (rawPcmToMsu_run h pcm (Some intro) loop Hpcm) as Hencode.
  cbn [fmap option_fmap option_map effectiveLoop] in Hencode.
  destruct (msuBytes_parts (inject_Z (ta_length intro) / 2)
              (Some (elementsOf h intro)) (elementsOf h pcm))
    as (Hmagic & Hfield & Hdata & Hlen).
  assert (HL : bytesToNumber
                 (take 4 (drop 4 (msuBytes (inject_Z (ta_length intro) / 2)
                                    (Some (elementsOf h intro))
                                    (elementsOf h pcm))))
               = k).
  { rewrite Hfield, decode_encode_uint32, truncate_half, Heven.
    rewrite (Z.mul_comm 2 k), Z.quot_mul by lia. apply Z.mod_small. lia. }
  assert (Hpl : 0 ≤ ta_length pcm) by apply Hpcm.
  destruct (msuToRawPcm_split_run
              (h ++ [msuBytes (inject_Z (ta_length intro) / 2)
                       (Some (elementsOf h intro)) (elementsOf h pcm)])
              (length h) _ k (lookup_fresh h _)) as (Hrun & Hi & Hl).
  - rewrite Hlen. lia.
  - exact Hmagic.
  - exact HL.
  - lia.
  - rewrite Hlen, length_app, !length_samplesBytes, !length_elementsOf. lia.
  - eexists _, _, _, _. split; [apply Hencode; intros a [= <-]; exact Hintro|].
    split; [exact Hrun|]. cbn [pcm_intro pcm_loopPoint pcm_loop].
    split; [reflexivity|]. split; [reflexivity|]. split.
    + rewrite Hi, Hdata, bytesSamples_samplesBytes_be
        by apply elementsOf_Forall_range.
      rewrite take_app_le by (rewrite length_fmap, length_elementsOf; lia).
      rewrite fmap_take. reflexivity.
    + rewrite Hl.
      replace (Z.to_nat (8 + k * 4)) with (8 + Z.to_nat (4 * k))%nat by lia.
      rewrite <- drop_drop, Hdata.
      rewrite drop_app_length'
        by (rewrite length_samplesBytes, length_elementsOf; lia).
      apply bytesSamples_samplesBytes_le, elementsOf_Forall_range.
Qed.

Lemma msu_intro_split_round_trip_witness :
  ∃ h' msu r a,
    rawPcmToMsu loop_3_4 (Some intro_1_2) None store_intro_loop
      = (h', Return msu) ∧
    msuToRawPcm msu false h' = (h', Return r) ∧
    pcm_loopPoint r = None ∧
    pcm_intro r = Some a ∧
    elementsOf h' a
      = swap16 <$> take (Z.to_nat 1) (elementsOf store_intro_loop intro_1_2) ∧
    elementsOf h' (pcm_loop r) = elementsOf store_intro_loop loop_3_4.
Proof.
  apply (msu_intro_split_round_trip store_intro_loop loop_3_4 intro_1_2 None 1).
  - valid_array.
  - valid_array.
  - reflexivity.
  - lia.
Defined.

(** ** The chunk walker on a list of chunks *)

Lemma bytesString_stringBytes (chars : string) :
  bytesString (stringBytes chars) = chars.
Proof.
  induction chars as [|c chars IH]; [reflexivity|].
  cbn [stringBytes]. unfold encode. rewrite toUint_inject_Z.
  cbn [numberToBytes ordered reverse rev_append app bytesString].
  rewrite IH. f_equal.
  rewrite Z_of_byte_of_Z. change (2 ^ (8 * Z.of_nat 1)) with 256.
  rewrite Z.mod_mod by lia. unfold fromCharCode, charCodeAt.
  pose proof (N_ascii_bounded c) as Hc.
  rewrite Z.mod_small by lia. rewrite N2Z.id. apply ascii_N_embedding.
Qed.

Lemma length_chunkBytes (chunk : string * list byte) :
  validChunk chunk → length (chunkBytes chunk) = (8 + length chunk.2)%nat.
Proof.
  intros [Hname _]. unfold chunkBytes.
  rewrite !length_app, length_stringBytes, length_encode, Hname. lia.
Qed.

Lemma length_chunksBytes_ge (chunks : list (string * list byte)) :
  Forall validChunk chunks →
  (8 * length chunks ≤ length (chunksBytes chunks))%nat.
Proof.
  induction 1 as [|chunk chunks Hc _ IH]; [cbn; lia|].
  unfold chunksBytes in *. cbn [flat_map length].
  rewrite length_app, length_chunkBytes by exact Hc. lia.
Qed.

Lemma walkChunks_chunks (h : Heap) (buffer : BufRef) (view : DataView)
    (chunks : list (string * list byte)) :
  dv_buffer view = buffer → dv_byteOffset view = 0 →
  Forall validChunk chunks →
  ∀ (pre : list byte) (fuel : nat) (pos : Z) (acc : gmap string DataView),
    bufferBytes h buffer = pre ++ chunksBytes chunks →
    Z.of_nat (length pre) = pos →
    dv_byteLength view = pos + Z.of_nat (length (chunksBytes chunks)) →
    (length chunks ≤ fuel)%nat →
    walkChunks fuel buffer view pos acc h =
    (h, Return (chunkMap buffer pos chunks acc)).
Proof.
  intros Hvb Hvo Hvalid.
  induction Hvalid as [|chunk chunks Hc Hvalid IH];
    intros pre fuel pos acc Hbytes Hpre Hlen Hfuel.
  - rewrite walkChunks_done by (cbn [chunksBytes flat_map length] in Hlen; lia).
    reflexivity.
  - destruct fuel as [|fuel]; [cbn [length] in Hfuel; lia|].
    pose proof (length_chunkBytes chunk Hc) as Hcl.
    destruct Hc as [Hname Hbody].
    unfold chunksBytes in Hbytes, Hlen. cbn [flat_map] in Hbytes, Hlen.
    fold (chunksBytes chunks) in Hbytes, Hlen.
    rewrite length_app, Hcl in Hlen.
    rewrite walkChunks_step by lia.
    mstep ltac:(apply (getString_at _ _ (stringBytes chunk.1) pos 4 pre
                         (encode 4 (inject_Z (Z.of_nat (length chunk.2))) true
                          ++ chunk.2 ++ chunksBytes chunks));
      [rewrite Hvb, Hbytes; unfold chunkBytes; rewrite <- !app_assoc; reflexivity
      |rewrite length_stringBytes; exact Hname | lia | rewrite Hvo; lia | lia]).
    rewrite bytesString_stringBytes.
    mstep ltac:(unfold getUint32;
      apply (getViewValue_at _ _ _ _ _ (pre ++ stringBytes chunk.1)
               (encode 4 (inject_Z (Z.of_nat (length chunk.2))) true)
               (chunk.2 ++ chunksBytes chunks));
      [rewrite Hvb, Hbytes; unfold chunkBytes; rewrite <- !app_assoc; reflexivity
      |apply length_encode | lia
      |rewrite length_app, length_stringBytes, Hname, Hvo; lia | lia]).
    cbn [ordered]. rewrite decode_encode_32 by lia.
    mstep ltac:(apply newDataView_part;
      [lia | lia
      | rewrite Hbytes, !length_app, Hcl; lia]).
    apply (IH (pre ++ chunkBytes chunk)).
    + rewrite <- app_assoc. exact Hbytes.
    + rewrite length_app, Hcl. lia.
    + rewrite Hlen. lia.
    + cbn [length] in Hfuel. lia.
Qed.

Lemma length_riffBytes (payload : list byte) :
  length (riffBytes payload) = (12 + length payload)%nat.
Proof.
  unfold riffBytes. rewrite !length_app, !length_stringBytes, length_encode.
  reflexivity.
Qed.

Lemma parseWavFile_chunks (h : Heap) (wavBuffer : BufRef)
    (chunks : list (string * list byte)) :
  h !! wavBuffer = Some (riffBytes (chunksBytes chunks)) →
  Forall validChunk chunks →
  4 + Z.of_nat (length (chunksBytes chunks)) < 2 ^ 32 →
  parseWavFile wavBuffer h =
  (h, Return (chunkMap wavBuffer 12 chunks ∅)).
Proof.
  intros Hbytes%bufferBytes_lookup Hvalid Hfit.
  pose proof (length_riffBytes (chunksBytes chunks)) as Hlen.
  pose proof (length_chunksBytes_ge chunks Hvalid) as Hge.
  unfold parseWavFile.
  mstep ltac:(apply newDataView_whole).
  rewrite Hbytes, Hlen.
  mstep ltac:(apply (getString_at _ _ (stringBytes "RIFF") 0 4 []
                       (encode 4 (inject_Z (4 + Z.of_nat (length (chunksBytes chunks)))) true
                        ++ stringBytes "WAVE" ++ chunksBytes chunks));
    cbn [dv_buffer dv_byteOffset dv_byteLength];
    [rewrite Hbytes; reflexivity | reflexivity | lia | reflexivity | lia]).
  mstep ltac:(apply (getString_at _ _ (stringBytes "WAVE") 8 4
                       (stringBytes "RIFF" ++
                        encode 4 (inject_Z (4 + Z.of_nat (length (chunksBytes chunks)))) true)
                       (chunksBytes chunks));
    cbn [dv_buffer dv_byteOffset dv_byteLength];
    [rewrite Hbytes; unfold riffBytes; rewrite <- !app_assoc; reflexivity
    | reflexivity | lia
    | rewrite length_app, length_stringBytes, length_encode; reflexivity | lia]).
  change (bytesString (stringBytes "RIFF") +:+ "/" +:+
          bytesString (stringBytes "WAVE")) with "RIFF/WAVE".
  change (negb ("RIFF/WAVE" =? "RIFF/WAVE")%string) with false. cbv iota.
  mstep ltac:(unfold getUint32;
    apply (getViewValue_at _ _ _ _ _ (stringBytes "RIFF")
             (encode 4 (inject_Z (4 + Z.of_nat (length (chunksBytes chunks)))) true)
             (stringBytes "WAVE" ++ chunksBytes chunks));
    cbn [dv_buffer dv_byteOffset dv_byteLength];
    [rewrite Hbytes; reflexivity | apply length_encode | lia | reflexivity | lia]).
  cbn [ordered dv_byteLength]. rewrite decode_encode_32 by lia.
  replace (4 + Z.of_nat (length (chunksBytes chunks)) + 8 =?
           Z.of_nat (12 + length (chunksBytes chunks))) with true
    by (symmetry; apply Z.eqb_eq; lia).
  cbn [negb].
  apply (walkChunks_chunks h wavBuffer _ chunks) with
    (pre := stringBytes "RIFF" ++
            encode 4 (inject_Z (4 + Z.of_nat (length (chunksBytes chunks)))) true
            ++ stringBytes "WAVE").
  - reflexivity.
  - reflexivity.
  - exact Hvalid.
  - rewrite Hbytes. unfold riffBytes. rewrite <- !app_assoc. reflexivity.
  - rewrite !length_app, !length_stringBytes, length_encode. reflexivity.
  - cbn [dv_byteLength]. lia.
  - lia.
Qed.

Lemma length_chunksBytes_app (l1 l2 : list (string * list byte)) :
  length (chunksBytes (l1 ++ l2)) =
  (length (chunksBytes l1) + length (chunksBytes l2))%nat.
Proof. unfold chunksBytes. rewrite flat_map_app, length_app. reflexivity. Qed.

Lemma chunkMap_app (buffer : BufRef) (l1 l2 : list (string * list byte)) :
  Forall validChunk l1 →
  ∀ pos acc,
    chunkMap buffer pos (l1 ++ l2) acc =
    chunkMap buffer (pos + Z.of_nat (length (chunksBytes l1))) l2
      (chunkMap buffer pos l1 acc).
Proof.
  induction 1 as [|chunk l1 Hc _ IH]; intros pos acc.
  - cbn [app chunkMap chunksBytes flat_map length]. rewrite Z.add_0_r.
    reflexivity.
  - cbn [app chunkMap]. rewrite IH. f_equal.
    unfold chunksBytes. cbn [flat_map]. rewrite length_app.
    rewrite length_chunkBytes by exact Hc. lia.
Qed.

Lemma chunkMap_lookup_other (buffer : BufRef) (key : string)
    (chunks : list (string * list byte)) :
  Forall (λ c, chunkKey c ≠ key) chunks →
  ∀ pos acc, chunkMap buffer pos chunks acc !! key = acc !! key.
Proof.
  induction 1 as [|chunk chunks Hc _ IH]; intros pos acc; [reflexivity|].
  cbn [chunkMap]. rewrite IH. apply lookup_insert_ne. exact Hc.
Qed.

Lemma chunkMap_lookup_last (buffer : BufRef)
    (before after : list (string * list byte)) (chunk : string * list byte)
    (acc : gmap string DataView) :
  Forall validChunk before →
  Forall (λ c, chunkKey c ≠ chunkKey chunk) after →
  chunkMap buffer 12 (before ++ chunk :: after) acc !! chunkKey chunk =
  Some {| dv_buffer := buffer;
          dv_byteOffset := 12 + Z.of_nat (length (chunksBytes before)) + 8;
          dv_byteLength := Z.of_nat (length chunk.2) |}.
Proof.
  intros Hbefore Hafter. rewrite chunkMap_app by exact Hbefore.
  cbn [chunkMap]. rewrite chunkMap_lookup_other by exact Hafter.
  apply lookup_insert_eq.
Qed.

Lemma riff_chunk_split (before after : list (string * list byte))
    (chunk : string * list byte) :
  Forall validChunk (before ++ chunk :: after) →
  ∃ pre,
    riffBytes (chunksBytes (before ++ chunk :: after)) =
      pre ++ chunk.2 ++ chunksBytes after ∧
    Z.of_nat (length pre) = 12 + Z.of_nat (length (chunksBytes before)) + 8.
Proof.
  intros Hvalid.
  apply Forall_app in Hvalid as [_ Hvalid].
  apply Forall_cons in Hvalid as [[Hname _] _].
  exists (stringBytes "RIFF" ++
          encode 4 (inject_Z (4 + Z.of_nat
             (length (chunksBytes (before ++ chunk :: after))))) true ++
          stringBytes "WAVE" ++ chunksBytes before ++ stringBytes chunk.1 ++
          encode 4 (inject_Z (Z.of_nat (length chunk.2))) true).
  split.
  - unfold riffBytes, chunksBytes. rewrite flat_map_app. cbn [flat_map].
    unfold chunkBytes. rewrite <- !app_assoc. reflexivity.
  - rewrite !length_app, !length_stringBytes, !length_encode, Hname.
    cbn [String.length]. lia.
Qed.

(** X9. [parseWavFile] on a RIFF/WAVE file made of any chunks: the call
    succeeds; a chunk that no later chunk shares its key with is filed under
    its name, trimmed and without NULs, as the view of its body; a key no
    chunk has is absent. *)
Theorem parseWavFile_finds_chunk (h : Heap) (wavBuffer : BufRef)
    (before after : list (string * list byte)) (chunk : string * list byte) :
  h !! wavBuffer = Some (riffBytes (chunksBytes (before ++ chunk :: after))) →
  Forall validChunk (before ++ chunk :: after) →
  4 + Z.of_nat (length (chunksBytes (before ++ chunk :: after))) < 2 ^ 32 →
  Forall (λ c, chunkKey c ≠ chunkKey chunk) after →
  ∃ found view,
    parseWavFile wavBuffer h = (h, Return found) ∧
    found !! chunkKey chunk = Some view ∧
    dv_buffer view = wavBuffer ∧
    dv_byteLength view = Z.of_nat (length chunk.2) ∧
    take (length chunk.2)
      (drop (Z.to_nat (dv_byteOffset view)) (bufferBytes h wavBuffer)) = chunk.2 ∧
    ∀ key, Forall (λ c, chunkKey c ≠ key) (before ++ chunk :: after) →
           found !! key = None.
Proof.
  intros Hlookup Hvalid Hfit Hafter.
  destruct (riff_chunk_split before after chunk Hvalid) as (pre & Hsplit & Hpre).
  eexists _, _. split; [apply parseWavFile_chunks; eassumption|].
  split.
  { apply chunkMap_lookup_last; [|exact Hafter].
    apply Forall_app in Hvalid as [Hbefore _]. exact Hbefore. }
  cbn [dv_buffer dv_byteLength dv_byteOffset].
  split; [reflexivity|]. split; [reflexivity|]. split.
  - rewrite (bufferBytes_lookup _ _ _ Hlookup), Hsplit, <- Hpre, Nat2Z.id.
    rewrite drop_app_length, take_app_length. reflexivity.
  - intros key Hkey. rewrite chunkMap_lookup_other by exact Hkey.
    apply lookup_empty.
Qed.

Lemma parseWavFile_finds_chunk_witness :
  ∃ found view,
    parseWavFile 0 store_riff_two_data = (store_riff_two_data, Return found) ∧
    found !! "data" = Some view ∧
    dv_buffer view = 0%nat ∧
    dv_byteLength view = 4 ∧
    take 4 (drop (Z.to_nat (dv_byteOffset view))
              (bufferBytes store_riff_two_data 0)) = [x03; x00; x04; x00] ∧
    ∀ key, Forall (λ c, chunkKey c ≠ key) chunks_two_data → found !! key = None.
Proof.
  apply (parseWavFile_finds_chunk store_riff_two_data 0%nat
           [("fmt ", fmtBytes canonicalFormat); ("data", [x01; x00; x02; x00]);
            ("LIST", [x61; x62; x63])]
           [] ("data", [x03; x00; x04; x00]) eq_refl).
  - repeat constructor; vm_compute; reflexivity.
  - vm_compute. reflexivity.
  - constructor.
Defined.

(** ** The decoder on a RIFF/WAVE file made of chunks *)

Lemma decode_encode_uint16 (v : Z) :
  0 ≤ v < 2 ^ 16 → bytesToNumber (ordered true (encode 2 (inject_Z v) true)) = v.
Proof. intros Hv. cbn [ordered]. apply decode_encode_16. lia. Qed.

Lemma parseFMT_at (h : Heap) (view : DataView) (fmt : WaveFormat)
    (pre post : list byte) :
  bufferBytes h (dv_buffer view) = pre ++ fmtBytes fmt ++ post →
  Z.of_nat (length pre) = dv_byteOffset view →
  16 ≤ dv_byteLength view → validFormat fmt →
  parseFMT view h = (h, Return fmt).
Proof.
  intros Hbytes Hpre Hlen (Htag & Hch & Hrate & Havg & Hal & Hbits).
  unfold fmtBytes in Hbytes.
  unfold parseFMT, getUint16, getUint32.
  mstep ltac:(eapply (getViewValue_at _ _ _ _ _ pre
                       (encode 2 (inject_Z (formatTag fmt)) true));
    [rewrite Hbytes, <- ?app_assoc; reflexivity | apply length_encode | lia
    | lia | lia]).
  mstep ltac:(eapply (getViewValue_at _ _ _ _ _
                       (pre ++ encode 2 (inject_Z (formatTag fmt)) true)
                       (encode 2 (inject_Z (channels fmt)) true));
    [rewrite Hbytes, <- ?app_assoc; reflexivity | apply length_encode | lia
    | rewrite ?length_app, ?length_encode; lia | lia]).
  mstep ltac:(eapply (getViewValue_at _ _ _ _ _
                       (pre ++ encode 2 (inject_Z (formatTag fmt)) true
                        ++ encode 2 (inject_Z (channels fmt)) true)
                       (encode 4 (inject_Z (samplesPerSec fmt)) true));
    [rewrite Hbytes, <- ?app_assoc; reflexivity | apply length_encode | lia
    | rewrite ?length_app, ?length_encode; lia | lia]).
  mstep ltac:(eapply (getViewValue_at _ _ _ _ _
                       (pre ++ encode 2 (inject_Z (formatTag fmt)) true
                        ++ encode 2 (inject_Z (channels fmt)) true
                        ++ encode 4 (inject_Z (samplesPerSec fmt)) true)
                       (encode 4 (inject_Z (avgBytesPerSec fmt)) true));
    [rewrite Hbytes, <- ?app_assoc; reflexivity | apply length_encode | lia
    | rewrite ?length_app, ?length_encode; lia | lia]).
  mstep ltac:(eapply (getViewValue_at _ _ _ _ _
                       (pre ++ encode 2 (inject_Z (formatTag fmt)) true
                        ++ encode 2 (inject_Z (channels fmt)) true
                        ++ encode 4 (inject_Z (samplesPerSec fmt)) true
                        ++ encode 4 (inject_Z (avgBytesPerSec fmt)) true)
                       (encode 2 (inject_Z (blockAlign fmt)) true));
    [rewrite Hbytes, <- ?app_assoc; reflexivity | apply length_encode | lia
    | rewrite ?length_app, ?length_encode; lia | lia]).
  mstep ltac:(eapply (getViewValue_at _ _ _ _ _
                       (pre ++ encode 2 (inject_Z (formatTag fmt)) true
                        ++ encode 2 (inject_Z (channels fmt)) true
                        ++ encode 4 (inject_Z (samplesPerSec fmt)) true
                        ++ encode 4 (inject_Z (avgBytesPerSec fmt)) true
                        ++ encode 2 (inject_Z (blockAlign fmt)) true)
                       (encode 2 (inject_Z (bitsPerSample fmt)) true));
    [rewrite Hbytes, <- ?app_assoc; reflexivity | apply length_encode | lia
    | rewrite ?length_app, ?length_encode; lia | lia]).
  rewrite !decode_encode_uint16 by assumption.
  cbn [ordered]. rewrite !decode_encode_32 by assumption.
  destruct fmt. reflexivity.
Qed.

Lemma length_fmtBytes (fmt : WaveFormat) : length (fmtBytes fmt) = 16%nat.
Proof. unfold fmtBytes. rewrite !length_app, !length_encode. reflexivity. Qed.

(** The checks of [wavBufferToRawPcm] once the chunks and the format are
    known. *)
Lemma wavBufferToRawPcm_fmt_found (h : Heap) (wavBuffer : BufRef)
    (before rest : list (string * list byte)) (fmtChunk : string * list byte)
    (fmt : WaveFormat) (extra : list byte) :
  h !! wavBuffer = Some (riffBytes (chunksBytes (before ++ fmtChunk :: rest))) →
  Forall validChunk (before ++ fmtChunk :: rest) →
  4 + Z.of_nat (length (chunksBytes (before ++ fmtChunk :: rest))) < 2 ^ 32 →
  chunkKey fmtChunk = "fmt" → fmtChunk.2 = fmtBytes fmt ++ extra →
  validFormat fmt →
  Forall (λ c, chunkKey c ≠ "fmt") rest →
  wavBufferToRawPcm wavBuffer h =
  (if negb (formatTag fmt =? 1) then
     throw (WavError ("Format should be PCM (1); got " +:+
                      numberToString (inject_Z (formatTag fmt))))
   else if negb (channels fmt =? 2) then
     throw (WavError ("Expected 2 channels; got " +:+
                      numberToString (inject_Z (channels fmt))))
   else if negb (samplesPerSec fmt =? 44100) then
     throw (WavError ("Expected a rate of 44.1 kHz; got " +:+
                      numberToString (inject_Z (samplesPerSec fmt) / 1000)%Q
                      +:+ " kHz"))
   else if negb (bitsPerSample fmt =? 16) then
     throw (WavError ("Expected 16-bit samples, got " +:+
                      numberToString (inject_Z (bitsPerSample fmt))))
   else
     match chunkMap wavBuffer 12 (before ++ fmtChunk :: rest) ∅ !! "data" with
     | None =>
         throw (WavError ("no " +:+ quote +:+ "data" +:+ quote +:+ " chunk"))
     | Some data =>
         newUint16Array wavBuffer (dv_byteOffset data)
           (inject_Z (dv_byteLength data * 8)
            / inject_Z (bitsPerSample fmt))%Q
     end) h.
Proof.
  intros Hlookup Hvalid Hfit Hkey Hbody Hfmt Hrest.
  destruct (riff_chunk_split before rest fmtChunk Hvalid) as (pre & Hsplit & Hpre).
  unfold wavBufferToRawPcm.
  mstep ltac:(apply parseWavFile_chunks; eassumption).
  pose proof (chunkMap_lookup_last wavBuffer before rest fmtChunk ∅) as Hfound.
  rewrite Hkey in Hfound.
  rewrite Hfound; [|apply Forall_app in Hvalid; tauto|exact Hrest].
  mstep ltac:(apply (parseFMT_at _ _ fmt pre (extra ++ chunksBytes rest));
    cbn [dv_buffer dv_byteOffset dv_byteLength];
    [rewrite (bufferBytes_lookup _ _ _ Hlookup), Hsplit, Hbody, <- !app_assoc;
     reflexivity
    | exact Hpre
    | rewrite Hbody, length_app, length_fmtBytes; lia
    | exact Hfmt]).
  reflexivity.
Qed.

Lemma bytesSamples_take (data rest : list byte) :
  take (length data / 2) (bytesSamples (data ++ rest)) = bytesSamples data.
Proof.
  induction data as [data IH] using (induction_ltof1 _ (@length byte)).
  unfold ltof in IH.
  destruct data as [|a [|b data]]; [reflexivity..|].
  cbn [length]. change (S (S (length data))) with (1 * 2 + length data)%nat.
  rewrite Nat.div_add_l by lia. cbn [app bytesSamples Nat.add take].
  f_equal. apply IH. cbn [length]. lia.
Qed.

(** The last step of [wavBufferToRawPcm] once the format has passed the
    checks and the data chunk is known. *)
Lemma wavBufferToRawPcm_data_found (h : Heap) (wavBuffer : BufRef)
    (chunks beforeF afterF beforeD afterD : list (string * list byte))
    (fmtChunk dataChunk : string * list byte) (fmt : WaveFormat)
    (extra : list byte) :
  h !! wavBuffer = Some (riffBytes (chunksBytes chunks)) →
  Forall validChunk chunks →
  4 + Z.of_nat (length (chunksBytes chunks)) < 2 ^ 32 →
  chunks = beforeF ++ fmtChunk :: afterF →
  chunkKey fmtChunk = "fmt" → Forall (λ c, chunkKey c ≠ "fmt") afterF →
  fmtChunk.2 = fmtBytes fmt ++ extra → validFormat fmt →
  formatTag fmt = 1 → channels fmt = 2 → samplesPerSec fmt = 44100 →
  bitsPerSample fmt = 16 →
  chunks = beforeD ++ dataChunk :: afterD →
  chunkKey dataChunk = "data" → Forall (λ c, chunkKey c ≠ "data") afterD →
  wavBufferToRawPcm wavBuffer h =
  newUint16Array wavBuffer (20 + Z.of_nat (length (chunksBytes beforeD)))
    (inject_Z (Z.of_nat (length dataChunk.2) * 8) / inject_Z 16)%Q h.
Proof.
  intros Hlookup Hvalid Hfit HF HkeyF HafterF Hbody Hfmt Htag Hch Hrate Hbits
    HD HkeyD HafterD.
  rewrite HF in Hlookup, Hvalid, Hfit.
  rewrite (wavBufferToRawPcm_fmt_found h wavBuffer beforeF afterF fmtChunk fmt
             extra Hlookup Hvalid Hfit HkeyF Hbody Hfmt HafterF).
  rewrite Htag, Hch, Hrate, Hbits. cbn [Z.eqb Pos.eqb negb].
  rewrite <- HF, HD. rewrite <- HkeyD.
  rewrite chunkMap_lookup_last;
    [|rewrite <- HF, HD in Hvalid; apply Forall_app in Hvalid; tauto
     |rewrite HkeyD; exact HafterD].
  cbn [dv_byteOffset dv_byteLength].
  replace (12 + Z.of_nat (length (chunksBytes beforeD)) + 8)
    with (20 + Z.of_nat (length (chunksBytes beforeD))) by lia.
  reflexivity.
Qed.

Lemma wavBufferToRawPcm_chunks_run (h : Heap) (wavBuffer : BufRef)
    (chunks beforeF afterF beforeD afterD : list (string * list byte))
    (fmtChunk dataChunk : string * list byte) (fmt : WaveFormat)
    (extra : list byte) :
  h !! wavBuffer = Some (riffBytes (chunksBytes chunks)) →
  Forall validChunk chunks →
  4 + Z.of_nat (length (chunksBytes chunks)) < 2 ^ 32 →
  chunks = beforeF ++ fmtChunk :: afterF →
  chunkKey fmtChunk = "fmt" → Forall (λ c, chunkKey c ≠ "fmt") afterF →
  fmtChunk.2 = fmtBytes fmt ++ extra → validFormat fmt →
  formatTag fmt = 1 → channels fmt = 2 → samplesPerSec fmt = 44100 →
  bitsPerSample fmt = 16 →
  chunks = beforeD ++ dataChunk :: afterD →
  chunkKey dataChunk = "data" → Forall (λ c, chunkKey c ≠ "data") afterD →
  Z.of_nat (length (chunksBytes beforeD)) mod 2 = 0 →
  let pcm := {| ta_buffer := wavBuffer;
               ta_byteOffset := 20 + Z.of_nat (length (chunksBytes beforeD));
               ta_length := Z.of_nat (length dataChunk.2) ÷ 2 |} in
  wavBufferToRawPcm wavBuffer h = (h, Return pcm) ∧
  validUint16Array h pcm ∧
  elementsOf h pcm = bytesSamples dataChunk.2.
Proof.
  intros Hlookup Hvalid Hfit HF HkeyF HafterF Hbody Hfmt Htag Hch Hrate Hbits
    HD HkeyD HafterD Heven pcm. subst pcm.
  rewrite (wavBufferToRawPcm_data_found h wavBuffer chunks beforeF afterF
             beforeD afterD fmtChunk dataChunk fmt extra) by assumption.
  assert (Hv : Forall validChunk (beforeD ++ dataChunk :: afterD))
    by (rewrite <- HD; exact Hvalid).
  destruct (riff_chunk_split beforeD afterD dataChunk Hv) as (pre & Hsplit & Hpre).
  pose proof (lookup_lt_Some _ _ _ Hlookup) as Hlt.
  apply bufferBytes_lookup in Hlookup. rewrite HD, Hsplit in Hlookup.
  pose proof (Z.quot_pos (Z.of_nat (length dataChunk.2)) 2) as Hq.
  pose proof (Z.mul_quot_le (Z.of_nat (length dataChunk.2)) 2) as Hm.
  specialize (Hq ltac:(lia) ltac:(lia)). specialize (Hm ltac:(lia) ltac:(lia)).
  assert (Hal : (20 + Z.of_nat (length (chunksBytes beforeD))) mod 2 = 0)
    by (rewrite <- Z.add_mod_idemp_r, Heven by lia; reflexivity).
  split; [|split].
  - rewrite <- truncate_bits.
    apply newUint16Array_ok; rewrite ?truncate_bits.
    + lia.
    + exact Hal.
    + lia.
    + rewrite Hlookup, !length_app. lia.
  - unfold validUint16Array. cbn [ta_buffer ta_byteOffset ta_length].
    rewrite Hlookup, !length_app. repeat split; [exact Hlt|lia|exact Hal|lia|lia].
  - rewrite (elementsOf_bytesSamples h wavBuffer _ _ pre
               (dataChunk.2 ++ chunksBytes afterD) Hlookup);
      [|lia|lia|rewrite length_app; lia].
    rewrite Z.quot_div_nonneg by lia.
    change 2 with (Z.of_nat 2). rewrite <- Nat2Z.inj_div, Nat2Z.id.
    apply bytesSamples_take.
Qed.

(** X10. [wavBufferToRawPcm] on a RIFF/WAVE file made of any chunks: when the
    last chunk named fmt starts with a format of tag 1, 2 channels, 44100 Hz
    and 16 bits, and the body of the last chunk named data starts at an even
    offset of the file, the call returns a view of the buffer over that
    body; its elements are the little-endian 16-bit values of the body, an
    odd last byte left out. The byte rate and block size of the format,
    further bytes of the fmt chunk, the other chunks and the order of the
    chunks play no part. *)
Theorem wavBufferToRawPcm_chunks (h : Heap) (wavBuffer : BufRef)
    (chunks beforeF afterF beforeD afterD : list (string * list byte))
    (fmtChunk dataChunk : string * list byte) (fmt : WaveFormat)
    (extra : list byte) :
  h !! wavBuffer = Some (riffBytes (chunksBytes chunks)) →
  Forall validChunk chunks →
  4 + Z.of_nat (length (chunksBytes chunks)) < 2 ^ 32 →
  chunks = beforeF ++ fmtChunk :: afterF →
  chunkKey fmtChunk = "fmt" → Forall (λ c, chunkKey c ≠ "fmt") afterF →
  fmtChunk.2 = fmtBytes fmt ++ extra → validFormat fmt →
  formatTag fmt = 1 → channels fmt = 2 → samplesPerSec fmt = 44100 →
  bitsPerSample fmt = 16 →
  chunks = beforeD ++ dataChunk :: afterD →
  chunkKey dataChunk = "data" → Forall (λ c, chunkKey c ≠ "data") afterD →
  Z.of_nat (length (chunksBytes beforeD)) mod 2 = 0 →
  ∃ pcm,
    wavBufferToRawPcm wavBuffer h = (h, Return pcm) ∧
    ta_buffer pcm = wavBuffer ∧
    ta_byteOffset pcm = 20 + Z.of_nat (length (chunksBytes beforeD)) ∧
    elementsOf h pcm = bytesSamples dataChunk.2.
Proof.
  intros Hlookup Hvalid Hfit HF HkeyF HafterF Hbody Hfmt Htag Hch Hrate Hbits
    HD HkeyD HafterD Heven.
  destruct (wavBufferToRawPcm_chunks_run h wavBuffer chunks beforeF afterF
              beforeD afterD fmtChunk dataChunk fmt extra)
    as (Hrun & _ & Helements); try assumption.
  eexists. split; [exact Hrun|]. split; [reflexivity|].
  split; [reflexivity|exact Helements].
Qed.

Lemma wavBufferToRawPcm_chunks_witness :
  ∃ pcm,
    wavBufferToRawPcm 0 store_riff_lenient = (store_riff_lenient, Return pcm) ∧
    ta_buffer pcm = 0%nat ∧
    ta_byteOffset pcm = 20 + 36 ∧
    elementsOf store_riff_lenient pcm = [1; 2].
Proof.
  apply (wavBufferToRawPcm_chunks store_riff_lenient 0%nat chunks_lenient
           [("LIST", [x61; x62])]
           [("data", [x01; x00; x02; x00; x03]); ("cue ", [x00])]
           [("LIST", [x61; x62]); ("fmt ", fmtBytes lenientFormat ++ [x00; x00])]
           [("cue ", [x00])]
           ("fmt ", fmtBytes lenientFormat ++ [x00; x00])
           ("data", [x01; x00; x02; x00; x03]) lenientFormat [x00; x00] eq_refl).
  - repeat constructor; vm_compute; reflexivity.
  - vm_compute. reflexivity.
  - reflexivity.
  - reflexivity.
  - repeat constructor; vm_compute; discriminate.
  - reflexivity.
  - vm_compute. repeat split; discriminate.
  - reflexivity.
  - reflexivity.
  - reflexivity.
  - reflexivity.
  - reflexivity.
  - reflexivity.
  - repeat constructor; vm_compute; discriminate.
  - reflexivity.
Defined.

(** X11. When the body of the last data chunk starts at an odd offset of the
    file, as after a chunk of odd length, [wavBufferToRawPcm] throws a
    [RangeError] although the file passes every check of the decoder: a
    [Uint16Array] cannot start there. *)
Theorem wavBufferToRawPcm_odd_data_offset (h : Heap) (wavBuffer : BufRef)
    (chunks beforeF afterF beforeD afterD : list (string * list byte))
    (fmtChunk dataChunk : string * list byte) (fmt : WaveFormat)
    (extra : list byte) :
  h !! wavBuffer = Some (riffBytes (chunksBytes chunks)) →
  Forall validChunk chunks →
  4 + Z.of_nat (length (chunksBytes chunks)) < 2 ^ 32 →
  chunks = beforeF ++ fmtChunk :: afterF →
  chunkKey fmtChunk = "fmt" → Forall (λ c, chunkKey c ≠ "fmt") afterF →
  fmtChunk.2 = fmtBytes fmt ++ extra → validFormat fmt →
  formatTag fmt = 1 → channels fmt = 2 → samplesPerSec fmt = 44100 →
  bitsPerSample fmt = 16 →
  chunks = beforeD ++ dataChunk :: afterD →
  chunkKey dataChunk = "data" → Forall (λ c, chunkKey c ≠ "data") afterD →
  Z.of_nat (length (chunksBytes beforeD)) mod 2 = 1 →
  wavBufferToRawPcm wavBuffer h = (h, Throw RangeError).
Proof.
  intros Hlookup Hvalid Hfit HF HkeyF HafterF Hbody Hfmt Htag Hch Hrate Hbits
    HD HkeyD HafterD Hodd.
  rewrite (wavBufferToRawPcm_data_found h wavBuffer chunks beforeF afterF
             beforeD afterD fmtChunk dataChunk fmt extra) by assumption.
  apply newUint16Array_range. right. left.
  rewrite <- Z.add_mod_idemp_r, Hodd by lia. discriminate.
Qed.

Lemma wavBufferToRawPcm_odd_data_offset_witness :
  wavBufferToRawPcm 0 store_riff_two_data = (store_riff_two_data, Throw RangeError).
Proof.
  apply (wavBufferToRawPcm_odd_data_offset store_riff_two_data 0%nat
           chunks_two_data []
           [("data", [x01; x00; x02; x00]); ("LIST", [x61; x62; x63]);
            ("data", [x03; x00; x04; x00])]
           [("fmt ", fmtBytes canonicalFormat); ("data", [x01; x00; x02; x00]);
            ("LIST", [x61; x62; x63])]
           [] ("fmt ", fmtBytes canonicalFormat) ("data", [x03; x00; x04; x00])
           canonicalFormat [] eq_refl).
  - repeat constructor; vm_compute; reflexivity.
  - vm_compute. reflexivity.
  - reflexivity.
  - reflexivity.
  - repeat constructor; vm_compute; discriminate.
  - reflexivity.
  - vm_compute. repeat split; discriminate.
  - reflexivity.
  - reflexivity.
  - reflexivity.
  - reflexivity.
  - reflexivity.
  - reflexivity.
  - constructor.
  - reflexivity.
Defined.

(** X12. The checks of the format are made in the order tag, channels, rate,
    bits, each with its own message, and before the data chunk is looked
    for: the first field that differs decides the [WavError], whatever the
    later fields and the other chunks are. *)
Theorem wavBufferToRawPcm_format_checks (h : Heap) (wavBuffer : BufRef)
    (before after : list (string * list byte)) (fmtChunk : string * list byte)
    (fmt : WaveFormat) (extra : list byte) :
  h !! wavBuffer = Some (riffBytes (chunksBytes (before ++ fmtChunk :: after))) →
  Forall validChunk (before ++ fmtChunk :: after) →
  4 + Z.of_nat (length (chunksBytes (before ++ fmtChunk :: after))) < 2 ^ 32 →
  chunkKey fmtChunk = "fmt" → Forall (λ c, chunkKey c ≠ "fmt") after →
  fmtChunk.2 = fmtBytes fmt ++ extra → validFormat fmt →
  (formatTag fmt ≠ 1 →
   wavBufferToRawPcm wavBuffer h =
   (h, Throw (WavError ("Format should be PCM (1); got " +:+
                        numberToString (inject_Z (formatTag fmt)))))) ∧
  (formatTag fmt = 1 → channels fmt ≠ 2 →
   wavBufferToRawPcm wavBuffer h =
   (h, Throw (WavError ("Expected 2 channels; got " +:+
                        numberToString (inject_Z (channels fmt)))))) ∧
  (formatTag fmt = 1 → channels fmt = 2 → samplesPerSec fmt ≠ 44100 →
   wavBufferToRawPcm wavBuffer h =
   (h, Throw (WavError ("Expected a rate of 44.1 kHz; got " +:+
                        numberToString (inject_Z (samplesPerSec fmt) / 1000)%Q
                        +:+ " kHz")))) ∧
  (formatTag fmt = 1 → channels fmt = 2 → samplesPerSec fmt = 44100 →
   bitsPerSample fmt ≠ 16 →
   wavBufferToRawPcm wavBuffer h =
   (h, Throw (WavError ("Expected 16-bit samples, got " +:+
                        numberToString (inject_Z (bitsPerSample fmt)))))).
Proof.
  intros Hlookup Hvalid Hfit Hkey Hafter Hbody Hfmt.
  rewrite (wavBufferToRawPcm_fmt_found h wavBuffer before after fmtChunk fmt
             extra Hlookup Hvalid Hfit Hkey Hbody Hfmt Hafter).
  repeat split.
  - intros Htag. apply Z.eqb_neq in Htag. rewrite Htag. reflexivity.
  - intros Htag Hch. apply Z.eqb_neq in Hch. rewrite Htag, Hch. reflexivity.
  - intros Htag Hch Hrate. apply Z.eqb_neq in Hrate.
    rewrite Htag, Hch, Hrate. reflexivity.
  - intros Htag Hch Hrate Hbits. apply Z.eqb_neq in Hbits.
    rewrite Htag, Hch, Hrate, Hbits. reflexivity.
Qed.

Lemma wavBufferToRawPcm_format_checks_witness :
  wavBufferToRawPcm 0 store_riff_float =
  (store_riff_float, Throw (WavError "Format should be PCM (1); got 3")).
Proof.
  apply (wavBufferToRawPcm_format_checks store_riff_float 0%nat [] []
           ("fmt ", fmtBytes floatFormat) floatFormat [] eq_refl).
  - repeat constructor; vm_compute; reflexivity.
  - vm_compute. reflexivity.
  - reflexivity.
  - constructor.
  - reflexivity.
  - vm_compute. repeat split; discriminate.
  - discriminate.
Defined.

(** X13. A RIFF/WAVE file none of whose chunks is named fmt (a name counts
    after its blanks at both ends and its NUL characters are removed) makes
    [wavBufferToRawPcm] throw the [WavError] that says so. *)
Theorem wavBufferToRawPcm_no_fmt (h : Heap) (wavBuffer : BufRef)
    (chunks : list (string * list byte)) :
  h !! wavBuffer = Some (riffBytes (chunksBytes chunks)) →
  Forall validChunk chunks →
  4 + Z.of_nat (length (chunksBytes chunks)) < 2 ^ 32 →
  Forall (λ c, chunkKey c ≠ "fmt") chunks →
  wavBufferToRawPcm wavBuffer h =
  (h, Throw (WavError ("no " +:+ quote +:+ "fmt" +:+ quote +:+ " chunk"))).
Proof.
  intros Hlookup Hvalid Hfit Hnone. unfold wavBufferToRawPcm.
  mstep ltac:(apply parseWavFile_chunks; eassumption).
  rewrite chunkMap_lookup_other by exact Hnone.
  rewrite lookup_empty. reflexivity.
Qed.

Lemma wavBufferToRawPcm_no_fmt_witness :
  wavBufferToRawPcm 0 store_riff_data_only =
  (store_riff_data_only,
   Throw (WavError ("no " +:+ quote +:+ "fmt" +:+ quote +:+ " chunk"))).
Proof.
  apply (wavBufferToRawPcm_no_fmt store_riff_data_only 0%nat
           [("data", [x01; x00; x02; x00])] eq_refl).
  - repeat constructor; vm_compute; reflexivity.
  - vm_compute. reflexivity.
  - repeat constructor; vm_compute; discriminate.
Defined.

(** X14. A RIFF/WAVE file whose format passes the four checks and none of
    whose chunks is named data makes [wavBufferToRawPcm] throw the
    [WavError] that says so. *)
Theorem wavBufferToRawPcm_no_data (h : Heap) (wavBuffer : BufRef)
    (before after : list (string * list byte)) (fmtChunk : string * list byte)
    (fmt : WaveFormat) (extra : list byte) :
  h !! wavBuffer = Some (riffBytes (chunksBytes (before ++ fmtChunk :: after))) →
  Forall validChunk (before ++ fmtChunk :: after) →
  4 + Z.of_nat (length (chunksBytes (before ++ fmtChunk :: after))) < 2 ^ 32 →
  chunkKey fmtChunk = "fmt" → Forall (λ c, chunkKey c ≠ "fmt") after →
  fmtChunk.2 = fmtBytes fmt ++ extra → validFormat fmt →
  formatTag fmt = 1 → channels fmt = 2 → samplesPerSec fmt = 44100 →
  bitsPerSample fmt = 16 →
  Forall (λ c, chunkKey c ≠ "data") (before ++ fmtChunk :: after) →
  wavBufferToRawPcm wavBuffer h =
  (h, Throw (WavError ("no " +:+ quote +:+ "data" +:+ quote +:+ " chunk"))).
Proof.
  intros Hlookup Hvalid Hfit Hkey Hafter Hbody Hfmt Htag Hch Hrate Hbits Hnone.
  rewrite (wavBufferToRawPcm_fmt_found h wavBuffer before after fmtChunk fmt
             extra Hlookup Hvalid Hfit Hkey Hbody Hfmt Hafter).
  rewrite Htag, Hch, Hrate, Hbits. cbn [Z.eqb Pos.eqb negb].
  rewrite chunkMap_lookup_other by exact Hnone.
  rewrite lookup_empty. reflexivity.
Qed.

Lemma wavBufferToRawPcm_no_data_witness :
  wavBufferToRawPcm 0 store_riff_fmt_only =
  (store_riff_fmt_only,
   Throw (WavError ("no " +:+ quote +:+ "data" +:+ quote +:+ " chunk"))).
Proof.
  apply (wavBufferToRawPcm_no_data store_riff_fmt_only 0%nat [] []
           ("fmt ", fmtBytes canonicalFormat) canonicalFormat [] eq_refl).
  - repeat constructor; vm_compute; reflexivity.
  - vm_compute. reflexivity.
  - reflexivity.
  - constructor.
  - reflexivity.
  - vm_compute. repeat split; discriminate.
  - reflexivity.
  - reflexivity.
  - reflexivity.
  - reflexivity.
  - repeat constructor; vm_compute; discriminate.
Defined.

(** ** Files that end too early *)

Lemma getString_outside (view : DataView) (h : Heap) (size : nat) :
  ∀ index, 0 ≤ index → size ≠ 0%nat →
    dv_byteLength view < index + Z.of_nat size →
    getString view index size h = (h, Throw RangeError).
Proof.
  induction size as [|size IH]; intros index Hi Hs Hr; [congruence|].
  cbn [getString]. unfold getUint8.
  destruct (Z.lt_ge_cases (dv_byteLength view) (index + 1)) as [Hout|Hin].
  - mthrow ltac:(apply getViewValue_range; lia). reflexivity.
  - mstep ltac:(apply getViewValue_ok; lia).
    mthrow ltac:(apply IH; lia). reflexivity.
Qed.

Lemma getString_take (view : DataView) (h : Heap) (bytes : list byte)
    (index : Z) (size : nat) :
  bufferBytes h (dv_buffer view) = bytes → dv_byteOffset view = 0 →
  0 ≤ index → index + Z.of_nat size ≤ dv_byteLength view →
  dv_byteLength view ≤ Z.of_nat (length bytes) →
  getString view index size h =
  (h, Return (bytesString (take size (drop (Z.to_nat index) bytes)))).
Proof.
  intros Hbytes Hvo Hi Hb Hl.
  apply (getString_at _ _ _ index size (take (Z.to_nat index) bytes)
           (drop size (drop (Z.to_nat index) bytes))).
  - rewrite Hbytes, take_drop, take_drop. reflexivity.
  - rewrite length_take, length_drop. lia.
  - exact Hi.
  - rewrite length_take, Hvo. lia.
  - exact Hb.
Qed.

Lemma parseWavFile_short (h : Heap) (wavBuffer : BufRef) (bytes : list byte) :
  h !! wavBuffer = Some bytes → (length bytes < 12)%nat →
  parseWavFile wavBuffer h = (h, Throw RangeError).
Proof.
  intros Hbytes%bufferBytes_lookup Hlen. unfold parseWavFile.
  mstep ltac:(apply newDataView_whole). rewrite Hbytes.
  destruct (decide (length bytes < 4)%nat) as [Hshort|Hlong].
  - mthrow ltac:(apply getString_outside; cbn [dv_byteLength]; lia).
    reflexivity.
  - mstep ltac:(apply (getString_take _ _ bytes);
      cbn [dv_buffer dv_byteOffset dv_byteLength]; [exact Hbytes|lia..]).
    mthrow ltac:(apply getString_outside; cbn [dv_byteLength]; lia).
    reflexivity.
Qed.

(** X15. On a buffer of fewer than 12 bytes [wavBufferToRawPcm] throws a
    [RangeError], whatever the bytes are: the two magics are read before
    anything is compared. *)
Theorem wavBufferToRawPcm_tiny_buffer (h : Heap) (wavBuffer : BufRef)
    (bytes : list byte) :
  h !! wavBuffer = Some bytes → (length bytes < 12)%nat →
  wavBufferToRawPcm wavBuffer h = (h, Throw RangeError).
Proof.
  intros Hbytes Hlen. unfold wavBufferToRawPcm.
  mthrow ltac:(eapply parseWavFile_short; eassumption). reflexivity.
Qed.

Lemma wavBufferToRawPcm_tiny_buffer_witness :
  wavBufferToRawPcm 0 store_rifx = (store_rifx, Throw RangeError).
Proof.
  apply (wavBufferToRawPcm_tiny_buffer store_rifx 0%nat _ eq_refl).
  vm_compute. lia.
Defined.

Lemma parseFMT_range (h : Heap) (view : DataView) :
  dv_byteLength view < 16 → parseFMT view h = (h, Throw RangeError).
Proof.
  intros Hlen. unfold parseFMT, getUint16, getUint32.
  destruct (Z.lt_ge_cases (dv_byteLength view) 2);
    [mthrow ltac:(apply getViewValue_range; lia); reflexivity|].
  mstep ltac:(apply getViewValue_ok; lia).
  destruct (Z.lt_ge_cases (dv_byteLength view) 4);
    [mthrow ltac:(apply getViewValue_range; lia); reflexivity|].
  mstep ltac:(apply getViewValue_ok; lia).
  destruct (Z.lt_ge_cases (dv_byteLength view) 8);
    [mthrow ltac:(apply getViewValue_range; lia); reflexivity|].
  mstep ltac:(apply getViewValue_ok; lia).
  destruct (Z.lt_ge_cases (dv_byteLength view) 12);
    [mthrow ltac:(apply getViewValue_range; lia); reflexivity|].
  mstep ltac:(apply getViewValue_ok; lia).
  destruct (Z.lt_ge_cases (dv_byteLength view) 14);
    [mthrow ltac:(apply getViewValue_range; lia); reflexivity|].
  mstep ltac:(apply getViewValue_ok; lia).
  mthrow ltac:(apply getViewValue_range; lia). reflexivity.
Qed.

(** X16. When the last fmt chunk of a RIFF/WAVE file has fewer than 16 bytes,
    [wavBufferToRawPcm] throws a [RangeError], not a [WavError]: the six
    fields are read through the view of the chunk before any is checked. *)
Theorem wavBufferToRawPcm_short_fmt (h : Heap) (wavBuffer : BufRef)
    (before after : list (string * list byte)) (fmtChunk : string * list byte) :
  h !! wavBuffer = Some (riffBytes (chunksBytes (before ++ fmtChunk :: after))) →
  Forall validChunk (before ++ fmtChunk :: after) →
  4 + Z.of_nat (length (chunksBytes (before ++ fmtChunk :: after))) < 2 ^ 32 →
  chunkKey fmtChunk = "fmt" → Forall (λ c, chunkKey c ≠ "fmt") after →
  (length fmtChunk.2 < 16)%nat →
  wavBufferToRawPcm wavBuffer h = (h, Throw RangeError).
Proof.
  intros Hlookup Hvalid Hfit Hkey Hafter Hshort. unfold wavBufferToRawPcm.
  mstep ltac:(apply parseWavFile_chunks; eassumption).
  pose proof (chunkMap_lookup_last wavBuffer before after fmtChunk ∅) as Hfound.
  rewrite Hkey in Hfound.
  rewrite Hfound; [|apply Forall_app in Hvalid; tauto|exact Hafter].
  mthrow ltac:(apply parseFMT_range; cbn [dv_byteLength]; lia).
  reflexivity.
Qed.

Lemma wavBufferToRawPcm_short_fmt_witness :
  wavBufferToRawPcm 0 store_riff_short_fmt =
  (store_riff_short_fmt, Throw RangeError).
Proof.
  apply (wavBufferToRawPcm_short_fmt store_riff_short_fmt 0%nat []
           [("data", [x01; x00; x02; x00])]
           ("fmt ", take 14 (fmtBytes canonicalFormat)) eq_refl).
  - repeat constructor; vm_compute; reflexivity.
  - vm_compute. reflexivity.
  - reflexivity.
  - repeat constructor; vm_compute; discriminate.
  - vm_compute. lia.
Defined.

Lemma walkChunks_prefix (h : Heap) (buffer : BufRef) (view : DataView)
    (chunks : list (string * list byte)) (post : list byte) :
  dv_buffer view = buffer → dv_byteOffset view = 0 →
  Forall validChunk chunks →
  ∀ (pre : list byte) (fuel : nat) (pos : Z) (acc : gmap string DataView),
    bufferBytes h buffer = pre ++ chunksBytes chunks ++ post →
    Z.of_nat (length pre) = pos →
    dv_byteLength view =
      pos + Z.of_nat (length (chunksBytes chunks)) + Z.of_nat (length post) →
    walkChunks (length chunks + fuel) buffer view pos acc h =
    walkChunks fuel buffer view (pos + Z.of_nat (length (chunksBytes chunks)))
      (chunkMap buffer pos chunks acc) h.
Proof.
  intros Hvb Hvo Hvalid.
  induction Hvalid as [|chunk chunks Hc Hvalid IH];
    intros pre fuel pos acc Hbytes Hpre Hlen.
  - cbn [chunksBytes flat_map length chunkMap Nat.add]. rewrite Z.add_0_r.
    reflexivity.
  - pose proof (length_chunkBytes chunk Hc) as Hcl.
    destruct Hc as [Hname Hbody].
    unfold chunksBytes in Hbytes, Hlen |- *. cbn [flat_map] in Hbytes, Hlen |- *.
    fold (chunksBytes chunks) in Hbytes, Hlen |- *.
    rewrite length_app, Hcl in Hlen. rewrite length_app, Hcl.
    rewrite <- app_assoc in Hbytes.
    cbn [length Nat.add]. rewrite walkChunks_step by lia.
    mstep ltac:(apply (getString_at _ _ (stringBytes chunk.1) pos 4 pre
                         (encode 4 (inject_Z (Z.of_nat (length chunk.2))) true
                          ++ chunk.2 ++ chunksBytes chunks ++ post));
      [rewrite Hvb, Hbytes; unfold chunkBytes; rewrite <- !app_assoc; reflexivity
      |rewrite length_stringBytes; exact Hname | lia | rewrite Hvo; lia | lia]).
    rewrite bytesString_stringBytes.
    mstep ltac:(unfold getUint32;
      apply (getViewValue_at _ _ _ _ _ (pre ++ stringBytes chunk.1)
               (encode 4 (inject_Z (Z.of_nat (length chunk.2))) true)
               (chunk.2 ++ chunksBytes chunks ++ post));
      [rewrite Hvb, Hbytes; unfold chunkBytes; rewrite <- !app_assoc; reflexivity
      |apply length_encode | lia
      |rewrite length_app, length_stringBytes, Hname, Hvo; lia | lia]).
    cbn [ordered]. rewrite decode_encode_32 by lia.
    mstep ltac:(apply newDataView_part;
      [lia | lia
      | rewrite Hbytes, !length_app, Hcl; lia]).
    rewrite (IH (pre ++ chunkBytes chunk)).
    + cbn [chunkMap]. f_equal. lia.
    + rewrite <- app_assoc. exact Hbytes.
    + rewrite length_app, Hcl. lia.
    + lia.
Qed.

Lemma walkChunks_cut (h : Heap) (buffer : BufRef) (view : DataView)
    (pre tail : list byte) (fuel : nat) (pos : Z)
    (acc : gmap string DataView) :
  dv_buffer view = buffer → dv_byteOffset view = 0 →
  bufferBytes h buffer = pre ++ tail → Z.of_nat (length pre) = pos →
  dv_byteLength view = pos + Z.of_nat (length tail) →
  tail ≠ [] →
  Z.of_nat (length tail) < 8 ∨
  Z.of_nat (length tail) - 8 < bytesToNumber (take 4 (drop 4 tail)) →
  walkChunks (S fuel) buffer view pos acc h = (h, Throw RangeError).
Proof.
  intros Hvb Hvo Hbytes Hpre Hlen Hne Hcut.
  assert (0 < length tail)%nat by (destruct tail; [congruence|cbn; lia]).
  rewrite walkChunks_step by lia.
  destruct (Z.lt_ge_cases (Z.of_nat (length tail)) 4) as [H4|H4].
  { mthrow ltac:(apply getString_outside; lia). reflexivity. }
  mstep ltac:(apply (getString_at _ _ (take 4 tail) pos 4 pre (drop 4 tail));
    [rewrite Hvb, Hbytes, take_drop; reflexivity
    |rewrite length_take; lia | lia | rewrite Hvo; lia | lia]).
  destruct (Z.lt_ge_cases (Z.of_nat (length tail)) 8) as [H8|H8].
  { mthrow ltac:(apply getViewValue_range; lia). reflexivity. }
  mstep ltac:(unfold getUint32;
    apply (getViewValue_at _ _ _ _ _ (pre ++ take 4 tail) (take 4 (drop 4 tail))
             (drop 4 (drop 4 tail)));
    [rewrite Hvb, Hbytes, take_drop, <- app_assoc, take_drop; reflexivity
    |rewrite length_take, length_drop; lia | lia
    |rewrite length_app, length_take, Hvo; lia | lia]).
  cbn [ordered].
  mthrow ltac:(apply newDataView_part_range;
    [lia | right; rewrite Hbytes, length_app; lia]).
  reflexivity.
Qed.

(** X17. A RIFF/WAVE file with the right size field whose chunks are followed
    by the start of one more chunk (fewer than 8 bytes, or a header that
    announces more bytes than the file has left) makes [wavBufferToRawPcm]
    throw a [RangeError], whatever the chunks before it hold. *)
Theorem wavBufferToRawPcm_cut_chunk (h : Heap) (wavBuffer : BufRef)
    (chunks : list (string * list byte)) (tail : list byte) :
  h !! wavBuffer = Some (riffBytes (chunksBytes chunks ++ tail)) →
  Forall validChunk chunks →
  4 + Z.of_nat (length (chunksBytes chunks ++ tail)) < 2 ^ 32 →
  tail ≠ [] →
  Z.of_nat (length tail) < 8 ∨
  Z.of_nat (length tail) - 8 < bytesToNumber (take 4 (drop 4 tail)) →
  wavBufferToRawPcm wavBuffer h = (h, Throw RangeError).
Proof.
  intros Hbytes%bufferBytes_lookup Hvalid Hfit Hne Hcut.
  pose proof (length_riffBytes (chunksBytes chunks ++ tail)) as Hlen.
  pose proof (length_chunksBytes_ge chunks Hvalid) as Hge.
  rewrite length_app in Hlen, Hfit.
  unfold wavBufferToRawPcm.
  erewrite bind_throw; [reflexivity|].
  unfold parseWavFile.
  mstep ltac:(apply newDataView_whole).
  rewrite Hbytes, Hlen.
  mstep ltac:(apply (getString_at _ _ (stringBytes "RIFF") 0 4 []
                       (encode 4 (inject_Z (4 + Z.of_nat (length (chunksBytes chunks ++ tail)))) true
                        ++ stringBytes "WAVE" ++ chunksBytes chunks ++ tail));
    cbn [dv_buffer dv_byteOffset dv_byteLength];
    [rewrite Hbytes; reflexivity | reflexivity | lia | reflexivity | lia]).
  mstep ltac:(apply (getString_at _ _ (stringBytes "WAVE") 8 4
                       (stringBytes "RIFF" ++
                        encode 4 (inject_Z (4 + Z.of_nat (length (chunksBytes chunks ++ tail)))) true)
                       (chunksBytes chunks ++ tail));
    cbn [dv_buffer dv_byteOffset dv_byteLength];
    [rewrite Hbytes; unfold riffBytes; rewrite <- !app_assoc; reflexivity
    | reflexivity | lia
    | rewrite length_app, length_stringBytes, length_encode; reflexivity | lia]).
  change (bytesString (stringBytes "RIFF") +:+ "/" +:+
          bytesString (stringBytes "WAVE")) with "RIFF/WAVE".
  change (negb ("RIFF/WAVE" =? "RIFF/WAVE")%string) with false. cbv iota.
  mstep ltac:(unfold getUint32;
    apply (getViewValue_at _ _ _ _ _ (stringBytes "RIFF")
             (encode 4 (inject_Z (4 + Z.of_nat (length (chunksBytes chunks ++ tail)))) true)
             (stringBytes "WAVE" ++ chunksBytes chunks ++ tail));
    cbn [dv_buffer dv_byteOffset dv_byteLength];
    [rewrite Hbytes; reflexivity | apply length_encode | lia | reflexivity | lia]).
  cbn [ordered dv_byteLength].
  rewrite decode_encode_32 by (rewrite length_app; lia).
  rewrite length_app.
  replace (4 + Z.of_nat (length (chunksBytes chunks) + length tail) + 8 =?
           Z.of_nat (12 + (length (chunksBytes chunks) + length tail))) with true
    by (symmetry; apply Z.eqb_eq; lia).
  cbn [negb].
  assert (0 < length tail)%nat by (destruct tail; [congruence|cbn; lia]).
  replace (Z.to_nat (Z.of_nat (12 + (length (chunksBytes chunks) + length tail))))
    with (length chunks +
          S (11 + (length (chunksBytes chunks) + length tail) - length chunks))%nat
    by lia.
  set (header := stringBytes "RIFF" ++
         encode 4 (inject_Z (4 + Z.of_nat (length (chunksBytes chunks ++ tail)))) true
         ++ stringBytes "WAVE").
  assert (Hheader : length header = 12%nat)
    by (unfold header;
        rewrite !length_app, !length_stringBytes, length_encode; reflexivity).
  assert (Hfile : riffBytes (chunksBytes chunks ++ tail)
                  = header ++ chunksBytes chunks ++ tail)
    by (unfold riffBytes, header; rewrite <- !app_assoc; reflexivity).
  erewrite (walkChunks_prefix h wavBuffer _ chunks tail);
    [|reflexivity | reflexivity | exact Hvalid
     |rewrite Hbytes; exact Hfile | rewrite Hheader; reflexivity
     |cbn [dv_byteLength]; lia].
  apply (walkChunks_cut h wavBuffer _ (header ++ chunksBytes chunks) tail).
  - reflexivity.
  - reflexivity.
  - rewrite Hbytes, Hfile, <- app_assoc. reflexivity.
  - rewrite length_app, Hheader. lia.
  - cbn [dv_byteLength]. lia.
  - exact Hne.
  - exact Hcut.
Qed.

Lemma wavBufferToRawPcm_cut_chunk_witness :
  wavBufferToRawPcm 0 store_riff_cut = (store_riff_cut, Throw RangeError).
Proof.
  apply (wavBufferToRawPcm_cut_chunk store_riff_cut 0%nat
           [("fmt ", fmtBytes canonicalFormat)]
           (stringBytes "data" ++ [x04; x00; x00; x00; x01; x00]) eq_refl).
  - repeat constructor; vm_compute; reflexivity.
  - vm_compute. reflexivity.
  - discriminate.
  - right. vm_compute. reflexivity.
Defined.

(** ** The header *)

(** X18. On a buffer of at least 12 bytes the magics are compared first and
    the size field second: when bytes 0 to 3 and 8 to 11 do not read
    RIFF and WAVE, [wavBufferToRawPcm] throws the [WavError] that quotes
    what they read, whatever the size field holds; when they do and the
    size field plus 8 is not the length of the buffer, it throws the
    [WavError] that gives both numbers. *)
Theorem wavBufferToRawPcm_header_messages (h : Heap) (wavBuffer : BufRef)
    (bytes : list byte) (magic : string) :
  h !! wavBuffer = Some bytes → (12 ≤ length bytes)%nat →
  magic = bytesString (take 4 bytes) +:+ "/" +:+
          bytesString (take 4 (drop 8 bytes)) →
  (magic ≠ "RIFF/WAVE" →
   wavBufferToRawPcm wavBuffer h =
   (h, Throw (WavError ("Not a WAV file; expected RIFF/WAVE, got " +:+
                        quote +:+ magic +:+ quote)))) ∧
  (magic = "RIFF/WAVE" →
   bytesToNumber (take 4 (drop 4 bytes)) + 8 ≠ Z.of_nat (length bytes) →
   wavBufferToRawPcm wavBuffer h =
   (h, Throw (WavError ("File size (" +:+
                        numberToString (inject_Z (Z.of_nat (length bytes))) +:+
                        ") differs from recorded data size (" +:+
                        numberToString
                          (inject_Z (bytesToNumber (take 4 (drop 4 bytes)) + 8))
                        +:+ "); giving up")))).
Proof.
  intros Hbytes%bufferBytes_lookup Hlen Hmagic.
  assert (Hrun : wavBufferToRawPcm wavBuffer h =
    ((if negb (magic =? "RIFF/WAVE")%string then
        throw (WavError ("Not a WAV file; expected RIFF/WAVE, got " +:+
                         quote +:+ magic +:+ quote))
      else
        if negb (bytesToNumber (take 4 (drop 4 bytes)) + 8
                 =? Z.of_nat (length bytes)) then
          throw (WavError ("File size (" +:+
                           numberToString (inject_Z (Z.of_nat (length bytes))) +:+
                           ") differs from recorded data size (" +:+
                           numberToString
                             (inject_Z (bytesToNumber (take 4 (drop 4 bytes)) + 8))
                           +:+ "); giving up"))
        else
          walkChunks (length bytes) wavBuffer
            {| dv_buffer := wavBuffer; dv_byteOffset := 0;
               dv_byteLength := Z.of_nat (length bytes) |} 12 ∅)
     ≫= λ chunks, match chunks !! "fmt" with
                   | None => throw (WavError ("no " +:+ quote +:+ "fmt" +:+
                                              quote +:+ " chunk"))
                   | Some fmtChunk =>
                       fmt ← parseFMT fmtChunk;
                       if negb (formatTag fmt =? 1) then
                         throw (WavError ("Format should be PCM (1); got " +:+
                                          numberToString (inject_Z (formatTag fmt))))
                       else if negb (channels fmt =? 2) then
                         throw (WavError ("Expected 2 channels; got " +:+
                                          numberToString (inject_Z (channels fmt))))
                       else if negb (samplesPerSec fmt =? 44100) then
                         throw (WavError ("Expected a rate of 44.1 kHz; got " +:+
                                          numberToString
                                            (inject_Z (samplesPerSec fmt) / 1000)%Q
                                          +:+ " kHz"))
                       else if negb (bitsPerSample fmt =? 16) then
                         throw (WavError ("Expected 16-bit samples, got " +:+
                                          numberToString
                                            (inject_Z (bitsPerSample fmt))))
                       else
                         match chunks !! "data" with
                         | None =>
                             throw (WavError ("no " +:+ quote +:+ "data" +:+
                                              quote +:+ " chunk"))
                         | Some data =>
                             newUint16Array wavBuffer (dv_byteOffset data)
                               (inject_Z (dv_byteLength data * 8)
                                / inject_Z (bitsPerSample fmt))%Q
                         end
                   end) h).
  { unfold wavBufferToRawPcm, parseWavFile, mbind, M_bind.
    rewrite newDataView_whole, Hbytes.
    rewrite (getString_take _ h bytes 0 4);
      cbn [dv_buffer dv_byteOffset dv_byteLength]; [|exact Hbytes|lia..].
    rewrite (getString_take _ h bytes 8 4);
      cbn [dv_buffer dv_byteOffset dv_byteLength]; [|exact Hbytes|lia..].
    change (Z.to_nat 0) with 0%nat. change (Z.to_nat 8) with 8%nat.
    rewrite drop_0, <- Hmagic.
    destruct (negb (magic =? "RIFF/WAVE")%string); [reflexivity|].
    unfold getUint32.
    rewrite getViewValue_ok by (cbn [dv_byteLength]; lia).
    cbn [ordered dv_buffer dv_byteOffset dv_byteLength].
    rewrite Hbytes. change (Z.to_nat (0 + 4)) with 4%nat.
    rewrite Nat2Z.id. reflexivity. }
  rewrite Hrun. split.
  - intros Hne. apply String.eqb_neq in Hne. rewrite Hne. reflexivity.
  - intros Heq Hsize. apply String.eqb_eq in Heq. apply Z.eqb_neq in Hsize.
    rewrite Heq, Hsize. reflexivity.
Qed.

Lemma wavBufferToRawPcm_header_messages_witness :
  wavBufferToRawPcm 0 store_riff_size =
  (store_riff_size,
   Throw (WavError ("File size (12) differs from recorded data size (13)" +:+
                    "; giving up"))).
Proof.
  apply (wavBufferToRawPcm_header_messages store_riff_size 0%nat _ "RIFF/WAVE"
           eq_refl).
  - simpl. lia.
  - reflexivity.
  - reflexivity.
  - vm_compute. discriminate.
Defined.

(** ** What the decoder rejects *)

(** C6, as amended. [wavBufferToRawPcm] throws a [WavError] on a buffer of
    at least 12 bytes that does not start with "RIFF", and on a buffer of at
    least 12 bytes whose size field plus 8 is not its length; on a
    RIFF/WAVE file that is well formed (a correct header, then chunks that
    fill the file) and whose last fmt chunk holds the bytes of a format
    with tag 1 and 1 channel it throws the [WavError] "Expected 2 channels;
    got 1", whatever the other fields and chunks are; and on a buffer of
    fewer than 12 bytes it throws a [RangeError], the read of the two
    magics coming before every comparison. *)
Theorem wavBufferToRawPcm_rejects :
  (∀ (h : Heap) (wavBuffer : BufRef) (bytes : list byte),
     h !! wavBuffer = Some bytes → (12 ≤ length bytes)%nat →
     take 4 bytes ≠ [x52; x49; x46; x46] →
     ∃ message, wavBufferToRawPcm wavBuffer h = (h, Throw (WavError message))) ∧
  (∀ (h : Heap) (wavBuffer : BufRef) (bytes : list byte),
     h !! wavBuffer = Some bytes → (12 ≤ length bytes)%nat →
     bytesToNumber (take 4 (drop 4 bytes)) + 8 ≠ Z.of_nat (length bytes) →
     ∃ message, wavBufferToRawPcm wavBuffer h = (h, Throw (WavError message))) ∧
  (∀ (h : Heap) (wavBuffer : BufRef)
     (before after : list (string * list byte))
     (fmtChunk : string * list byte) (fmt : WaveFormat) (extra : list byte),
     h !! wavBuffer
       = Some (riffBytes (chunksBytes (before ++ fmtChunk :: after))) →
     Forall validChunk (before ++ fmtChunk :: after) →
     4 + Z.of_nat (length (chunksBytes (before ++ fmtChunk :: after)))
       < 2 ^ 32 →
     chunkKey fmtChunk = "fmt" → Forall (λ c, chunkKey c ≠ "fmt") after →
     fmtChunk.2 = fmtBytes fmt ++ extra → validFormat fmt →
     formatTag fmt = 1 → channels fmt = 1 →
     wavBufferToRawPcm wavBuffer h
       = (h, Throw (WavError "Expected 2 channels; got 1"))) ∧
  (∀ (h : Heap) (wavBuffer : BufRef) (bytes : list byte),
     h !! wavBuffer = Some bytes → (length bytes < 12)%nat →
     wavBufferToRawPcm wavBuffer h = (h, Throw RangeError)).
Proof.
  split; [|split; [|split]].
  - intros h wavBuffer bytes Hbytes Hlen Hriff.
    destruct (parseWavFile_rejects h wavBuffer bytes Hbytes Hlen (or_introl Hriff))
      as [message Hparse].
    exists message. unfold wavBufferToRawPcm.
    mthrow ltac:(exact Hparse). reflexivity.
  - intros h wavBuffer bytes Hbytes Hlen Hsize.
    destruct (parseWavFile_rejects h wavBuffer bytes Hbytes Hlen (or_intror Hsize))
      as [message Hparse].
    exists message. unfold wavBufferToRawPcm.
    mthrow ltac:(exact Hparse). reflexivity.
  - intros h wavBuffer before after fmtChunk fmt extra Hlookup Hvalid Hfit
      Hkey Hafter Hbody Hfmt Htag Hchannels.
    rewrite (wavBufferToRawPcm_fmt_found h wavBuffer before after fmtChunk fmt
               extra Hlookup Hvalid Hfit Hkey Hbody Hfmt Hafter).
    rewrite Htag, Hchannels. reflexivity.
  - intros h wavBuffer bytes Hbytes Hlen. unfold wavBufferToRawPcm.
    mthrow ltac:(eapply parseWavFile_short; eassumption). reflexivity.
Qed.

Lemma wavBufferToRawPcm_rejects_witness :
  (∃ message, wavBufferToRawPcm 0 store_rifx_wave
                = (store_rifx_wave, Throw (WavError message))) ∧
  (∃ message, wavBufferToRawPcm 0 store_riff_size
                = (store_riff_size, Throw (WavError message))) ∧
  wavBufferToRawPcm 0 store_wav_mono
    = (store_wav_mono, Throw (WavError "Expected 2 channels; got 1")) ∧
  wavBufferToRawPcm 0 store_rifx = (store_rifx, Throw RangeError).
Proof.
  destruct wavBufferToRawPcm_rejects as (Hmagic & Hsize & Hmono & Hshort).
  split; [|split; [|split]].
  - apply (Hmagic store_rifx_wave 0%nat _ eq_refl).
    + simpl. lia.
    + simpl. discriminate.
  - apply (Hsize store_riff_size 0%nat _ eq_refl).
    + simpl. lia.
    + vm_compute. discriminate.
  - apply (Hmono store_wav_mono 0%nat [] [("data", [])]
             ("fmt ", fmtBytes monoFormat) monoFormat []).
    + vm_compute. reflexivity.
    + repeat constructor; vm_compute; reflexivity.
    + vm_compute. reflexivity.
    + reflexivity.
    + repeat constructor; vm_compute; discriminate.
    + vm_compute. reflexivity.
    + vm_compute. repeat split; discriminate.
    + reflexivity.
    + reflexivity.
  - apply (Hshort store_rifx 0%nat _ eq_refl). simpl. lia.
Defined.

(** C6, counterexample. The four-byte buffer "RIFX" does not start with
    "RIFF", and [wavBufferToRawPcm] throws a [RangeError] on it, not a
    [WavError]: reading bytes 8 to 11 for the "WAVE" magic comes first. *)
Lemma wavBufferToRawPcm_short_buffer :
  take 4 (bufferBytes store_rifx 0) ≠ [x52; x49; x46; x46] ∧
  wavBufferToRawPcm 0 store_rifx = (store_rifx, Throw RangeError) ∧
  ∀ message,
    wavBufferToRawPcm 0 store_rifx ≠ (store_rifx, Throw (WavError message)).
Proof.
  split; [|split].
  - vm_compute. discriminate.
  - vm_compute. reflexivity.
  - intros message. vm_compute. discriminate.
Qed.

(** ** What [rawPcmToWav] writes, as chunks *)

Lemma wavBytes_chunks (samples : list Z) :
  wavBytes samples =
  riffBytes (chunksBytes [("fmt ", fmtBytes canonicalFormat);
                          ("data", samplesBytes true samples)]).
Proof.
  unfold wavBytes, riffBytes, chunksBytes, chunkBytes, fmtBytes.
  cbn [flat_map fst snd canonicalFormat formatTag channels samplesPerSec
       avgBytesPerSec blockAlign bitsPerSample].
  rewrite !length_app, !length_encode, !length_stringBytes, length_samplesBytes.
  cbn [String.length]. rewrite app_nil_r, <- !app_assoc.
  replace (4 + Z.of_nat (4 + (4 + (2 + (2 + (4 + (4 + (2 + 2))))))
                         + (4 + (4 + 2 * length samples) + length [])))
    with (44 + Z.of_nat (length samples) * 2 - 8) by (cbn [length]; lia).
  replace (Z.of_nat (2 * length samples))
    with (Z.of_nat (length samples) * 2) by lia.
  change (encode 4 (44100 * 16 * 2 / 8) true)
    with (encode 4 (inject_Z 176400) true).
  reflexivity.
Qed.

(** X19. [rawPcmToWav] on a view that lies inside its buffer never throws
    (the handler around the sample writes is not reached): it returns a
    fresh buffer, leaves the others as they are, and the new buffer is a
    RIFF/WAVE file of two chunks, a fmt chunk with tag 1, 2 channels,
    44100 Hz, 176400 bytes per second, blocks of 4 bytes and 16 bits, and a
    data chunk with the samples, low byte first. *)
Theorem rawPcmToWav_layout (h : Heap) (pcm : Uint16Array) :
  validUint16Array h pcm →
  rawPcmToWav pcm h =
  (h ++ [riffBytes (chunksBytes [("fmt ", fmtBytes canonicalFormat);
                                 ("data", samplesBytes true (elementsOf h pcm))])],
   Return (length h)).
Proof.
  intros Hpcm. rewrite <- wavBytes_chunks. apply rawPcmToWav_run. exact Hpcm.
Qed.

Lemma rawPcmToWav_layout_witness :
  rawPcmToWav pcm_10_40 store_10_40 =
  (store_10_40 ++
   [riffBytes (chunksBytes [("fmt ", fmtBytes canonicalFormat);
                            ("data", samplesBytes true
                                       (elementsOf store_10_40 pcm_10_40))])],
   Return (length store_10_40)).
Proof.
  apply (rawPcmToWav_layout store_10_40 pcm_10_40). valid_array.
Defined.

(** X20. Decoding a RIFF/WAVE file and encoding the result again keeps the
    samples and nothing else: whatever chunks the file has, in whatever
    order, and whatever byte rate and block size its format gives,
    [rawPcmToWav] of what [wavBufferToRawPcm] returns builds the file of
    the fmt chunk that [rawPcmToWav] always writes and a data chunk with
    the 16-bit values of the last data chunk; when that chunk has an even
    number of bytes, the new data chunk has the same bytes. *)
Theorem wav_decode_encode (h : Heap) (wavBuffer : BufRef)
    (chunks beforeF afterF beforeD afterD : list (string * list byte))
    (fmtChunk dataChunk : string * list byte) (fmt : WaveFormat)
    (extra : list byte) :
  h !! wavBuffer = Some (riffBytes (chunksBytes chunks)) →
  Forall validChunk chunks →
  4 + Z.of_nat (length (chunksBytes chunks)) < 2 ^ 32 →
  chunks = beforeF ++ fmtChunk :: afterF →
  chunkKey fmtChunk = "fmt" → Forall (λ c, chunkKey c ≠ "fmt") afterF →
  fmtChunk.2 = fmtBytes fmt ++ extra → validFormat fmt →
  formatTag fmt = 1 → channels fmt = 2 → samplesPerSec fmt = 44100 →
  bitsPerSample fmt = 16 →
  chunks = beforeD ++ dataChunk :: afterD →
  chunkKey dataChunk = "data" → Forall (λ c, chunkKey c ≠ "data") afterD →
  Z.of_nat (length (chunksBytes beforeD)) mod 2 = 0 →
  ∃ pcm,
    wavBufferToRawPcm wavBuffer h = (h, Return pcm) ∧
    rawPcmToWav pcm h =
    (h ++ [riffBytes
             (chunksBytes [("fmt ", fmtBytes canonicalFormat);
                           ("data", samplesBytes true (bytesSamples dataChunk.2))])],
     Return (length h)) ∧
    (Nat.Even (length dataChunk.2) →
     samplesBytes true (bytesSamples dataChunk.2) = dataChunk.2).
Proof.
  intros Hlookup Hvalid Hfit HF HkeyF HafterF Hbody Hfmt Htag Hch Hrate Hbits
    HD HkeyD HafterD Heven.
  destruct (wavBufferToRawPcm_chunks_run h wavBuffer chunks beforeF afterF
              beforeD afterD fmtChunk dataChunk fmt extra)
    as (Hrun & Hpcm & Helements); try assumption.
  eexists. split; [exact Hrun|]. split.
  - rewrite (rawPcmToWav_run _ _ Hpcm), Helements, wavBytes_chunks.
    reflexivity.
  - apply samplesBytes_bytesSamples.
Qed.

Lemma wav_decode_encode_witness :
  ∃ pcm,
    wavBufferToRawPcm 0 store_riff_lenient = (store_riff_lenient, Return pcm) ∧
    rawPcmToWav pcm store_riff_lenient =
    (store_riff_lenient ++
     [riffBytes
        (chunksBytes [("fmt ", fmtBytes canonicalFormat);
                      ("data", [x01; x00; x02; x00])])],
     Return 1%nat) ∧
    (Nat.Even 5 → [x01; x00; x02; x00] = [x01; x00; x02; x00; x03]).
Proof.
  apply (wav_decode_encode store_riff_lenient 0%nat chunks_lenient
           [("LIST", [x61; x62])]
           [("data", [x01; x00; x02; x00; x03]); ("cue ", [x00])]
           [("LIST", [x61; x62]); ("fmt ", fmtBytes lenientFormat ++ [x00; x00])]
           [("cue ", [x00])]
           ("fmt ", fmtBytes lenientFormat ++ [x00; x00])
           ("data", [x01; x00; x02; x00; x03]) lenientFormat [x00; x00] eq_refl).
  - repeat constructor; vm_compute; reflexivity.
  - vm_compute. reflexivity.
  - reflexivity.
  - reflexivity.
  - repeat constructor; vm_compute; discriminate.
  - reflexivity.
  - vm_compute. repeat split; discriminate.
  - reflexivity.
  - reflexivity.
  - reflexivity.
  - reflexivity.
  - reflexivity.
  - reflexivity.
  - repeat constructor; vm_compute; discriminate.
  - reflexivity.
Defined.

(** ** How the decoders end *)

Lemma throws_ret {A : Type} (E : error → Prop) (a : A) : throws E (mret a).
Proof. intros h h' e [=]. Qed.

Lemma throws_throw {A : Type} (E : error → Prop) (e : error) :
  E e → throws E (@throw A e).
Proof. intros He h h' e' [= _ <-]. exact He. Qed.

Lemma throws_bind {A B : Type} (E : error → Prop) (m : M A) (f : A → M B) :
  throws E m → (∀ a, throws E (f a)) → throws E (m ≫= f).
Proof.
  intros Hm Hf h h' e. unfold mbind, M_bind.
  destruct (m h) as [h1 [a| e1|]] eqn:Hrun.
  - apply Hf.
  - intros [= _ <-]. exact (Hm _ _ _ Hrun).
  - discriminate.
Qed.

Lemma throws_weaken {A : Type} (E E' : error → Prop) (m : M A) :
  (∀ e, E e → E' e) → throws E m → throws E' m.
Proof. intros HE Hm h h' e Hrun. exact (HE _ (Hm _ _ _ Hrun)). Qed.

Lemma throws_toIndex (q : Q) : throws (λ e, e = RangeError) (toIndex q).
Proof.
  intros h h' e. unfold toIndex. destruct (truncate q <? 0); [|discriminate].
  intros [= _ <-]. reflexivity.
Qed.

Ltac throws_step :=
  first
    [ apply throws_ret | apply throws_throw; reflexivity | apply throws_toIndex
    | apply throws_bind; [|intros ?]
    | match goal with
      | |- throws _ (if ?c then _ else _) => destruct c
      | |- throws _ (match ?o with Some _ => _ | None => _ end) => destruct o
      | |- throws _ (bufferByteLength _) => intros ? ? ? [=]
      | |- throws _ (loadBytes _ _ _) => intros ? ? ? [=]
      end ].

Lemma throws_newDataView (buffer : BufRef) (byteOffset : Z)
    (byteLength : option Z) :
  throws (λ e, e = RangeError) (newDataView buffer byteOffset byteLength).
Proof. unfold newDataView. repeat throws_step. Qed.

Lemma throws_getViewValue (view : DataView) (index : Z) (size : nat)
    (littleEndian : bool) :
  throws (λ e, e = RangeError) (getViewValue view index size littleEndian).
Proof. unfold getViewValue. repeat throws_step. Qed.

Lemma throws_newUint16Array (buffer : BufRef) (byteOffset : Z) (len : Q) :
  throws (λ e, e = RangeError) (newUint16Array buffer byteOffset len).
Proof. unfold newUint16Array. repeat throws_step. Qed.

Lemma throws_getString (view : DataView) (size : nat) :
  ∀ offset, throws (λ e, e = RangeError) (getString view offset size).
Proof.
  induction size as [|size IH]; intros offset; cbn [getString].
  - apply throws_ret.
  - apply throws_bind; [apply throws_getViewValue|intros c].
    apply throws_bind; [apply IH|intros rest]. apply throws_ret.
Qed.

Lemma throws_walkChunks (wavBuffer : BufRef) (view : DataView) (fuel : nat) :
  ∀ pos chunks,
    throws (λ e, e = RangeError) (walkChunks fuel wavBuffer view pos chunks).
Proof.
  induction fuel as [|fuel IH]; intros pos chunks; cbn [walkChunks];
    destruct (pos <? dv_byteLength view); try apply throws_ret.
  - intros h h' e [=].
  - apply throws_bind; [apply throws_getString|intros name].
    apply throws_bind; [apply throws_getViewValue|intros len].
    apply throws_bind; [apply throws_newDataView|intros chunk].
    apply IH.
Qed.

Lemma throws_range_wav {A : Type} (m : M A) :
  throws (λ e, e = RangeError) m → throws wavFailure m.
Proof. apply throws_weaken. intros e ->. left. reflexivity. Qed.

Lemma throws_range_msu {A : Type} (m : M A) :
  throws (λ e, e = RangeError) m → throws msuFailure m.
Proof. apply throws_weaken. intros e ->. left. reflexivity. Qed.

Lemma throws_wavBufferToRawPcm (wavBuffer : BufRef) :
  throws wavFailure (wavBufferToRawPcm wavBuffer).
Proof.
  unfold wavBufferToRawPcm, parseWavFile, parseFMT, getUint16, getUint32.
  repeat first
    [ apply throws_range_wav;
      first [ apply throws_newDataView | apply throws_getString
            | apply throws_getViewValue | apply throws_walkChunks
            | apply throws_newUint16Array ]
    | apply throws_throw; right; eexists; reflexivity
    | apply throws_ret
    | apply throws_bind; [|intros ?]
    | match goal with
      | |- throws _ (if ?c then _ else _) => destruct c
      | |- throws _ (match ?o with Some _ => _ | None => _ end) => destruct o
      end ].
Qed.

Lemma throws_msuToRawPcm (msuBuffer : BufRef) (packLoop : bool) :
  throws msuFailure (msuToRawPcm msuBuffer packLoop).
Proof.
  unfold msuToRawPcm, getUint32.
  repeat first
    [ apply throws_range_msu;
      first [ apply throws_newDataView | apply throws_getString
            | apply throws_getViewValue | apply throws_newUint16Array ]
    | apply throws_throw; right; eexists; reflexivity
    | apply throws_ret
    | apply throws_bind; [|intros ?]
    | match goal with
      | |- throws _ (bufferByteLength _) => intros ? ? ? [=]
      | |- throws _ (if ?c then _ else _) => destruct c
      | |- throws _ (match ?o with Some _ => _ | None => _ end) => destruct o
      end ].
Qed.

Lemma total_msuToRawPcm (msuBuffer : BufRef) (packLoop : bool) :
  total (msuToRawPcm msuBuffer packLoop).
Proof.
  unfold msuToRawPcm, getUint32.
  repeat first
    [ apply total_newDataView | apply total_getString
    | apply total_getViewValue | apply total_newUint16Array
    | total_step ].
Qed.

(** X21. Both decoders end on every buffer of every store, and throw only
    their own error or a [RangeError]: [wavBufferToRawPcm], whose chunk loop
    runs for as long as the position is inside the file, returns a view or
    throws a [WavError] or a [RangeError]; [msuToRawPcm] returns a result
    or throws an [MsuError] or a [RangeError]. *)
Theorem decoders_outcomes :
  (∀ (wavBuffer : BufRef) (h : Heap),
     (∃ view, wavBufferToRawPcm wavBuffer h = (h, Return view)) ∨
     (∃ message,
        wavBufferToRawPcm wavBuffer h = (h, Throw (WavError message))) ∨
     wavBufferToRawPcm wavBuffer h = (h, Throw RangeError)) ∧
  (∀ (msuBuffer : BufRef) (packLoop : bool) (h : Heap),
     (∃ r, msuToRawPcm msuBuffer packLoop h = (h, Return r)) ∨
     (∃ message,
        msuToRawPcm msuBuffer packLoop h = (h, Throw (MsuError message))) ∨
     msuToRawPcm msuBuffer packLoop h = (h, Throw RangeError)).
Proof.
  split.
  - intros wavBuffer h.
    pose proof (readOnly_wavBufferToRawPcm wavBuffer h) as Hro.
    pose proof (total_wavBufferToRawPcm wavBuffer h) as Htotal.
    pose proof (throws_wavBufferToRawPcm wavBuffer h) as Hthrows.
    destruct (wavBufferToRawPcm wavBuffer h) as [h' [view|e|]];
      cbn [fst snd] in *; subst h'.
    + left. eexists. reflexivity.
    + destruct (Hthrows h e eq_refl) as [->|[message ->]].
      * right. right. reflexivity.
      * right. left. eexists. reflexivity.
    + contradiction.
  - intros msuBuffer packLoop h.
    pose proof (readOnly_msuToRawPcm msuBuffer packLoop h) as Hro.
    pose proof (total_msuToRawPcm msuBuffer packLoop h) as Htotal.
    pose proof (throws_msuToRawPcm msuBuffer packLoop h) as Hthrows.
    destruct (msuToRawPcm msuBuffer packLoop h) as [h' [r|e|]];
      cbn [fst snd] in *; subst h'.
    + left. eexists. reflexivity.
    + destruct (Hthrows h e eq_refl) as [->|[message ->]].
      * right. right. reflexivity.
      * right. left. eexists. reflexivity.
    + contradiction.
Qed.

(** ** The views the decoders return *)

Lemma bind_inv_return {A B : Type} (m : M A) (f : A → M B) h h' b :
  (m ≫= f) h = (h', Return b) →
  ∃ h1 a, m h = (h1, Return a) ∧ f a h1 = (h', Return b).
Proof.
  unfold mbind, M_bind. destruct (m h) as [h1 [a|e|]]; [|discriminate..].
  intros Hrun. exists h1, a. split; [reflexivity|exact Hrun].
Qed.

Lemma bind_readOnly_inv {A B : Type} (m : M A) (f : A → M B) h h' b :
  readOnly m → (m ≫= f) h = (h', Return b) →
  ∃ a, m h = (h, Return a) ∧ f a h = (h', Return b).
Proof.
  intros Hro (h1 & a & Hm & Hf)%bind_inv_return.
  pose proof (Hro h) as Hh. rewrite Hm in Hh. cbn [fst] in Hh. subst h1.
  exists a. split; assumption.
Qed.

Lemma newUint16Array_inv (buffer : BufRef) (byteOffset : Z) (len : Q)
    (h h' : Heap) (array : Uint16Array) :
  newUint16Array buffer byteOffset len h = (h', Return array) →
  (buffer < length h)%nat → validUint16Array h array.
Proof.
  unfold newUint16Array, toIndex, bufferByteLength, mbind, M_bind, throw.
  intros Hrun Hb.
  destruct (Z.ltb_spec (truncate (inject_Z byteOffset)) 0); [discriminate|].
  cbn [mret M_ret] in Hrun.
  destruct (Z.eqb_spec (truncate (inject_Z byteOffset) mod 2) 0);
    cbn [negb] in Hrun; [|discriminate].
  destruct (Z.ltb_spec (truncate len) 0); [discriminate|].
  cbn [mret M_ret] in Hrun.
  destruct (Z.ltb_spec (Z.of_nat (length (bufferBytes h buffer)))
              (truncate (inject_Z byteOffset) + truncate len * 2));
    [discriminate|].
  injection Hrun as _ <-. unfold validUint16Array.
  cbn [ta_buffer ta_byteOffset ta_length]. repeat split; [exact Hb|lia..].
Qed.

Lemma valid_wavBufferToRawPcm (wavBuffer : BufRef) (h h' : Heap)
    (view : Uint16Array) :
  (wavBuffer < length h)%nat →
  wavBufferToRawPcm wavBuffer h = (h', Return view) →
  validUint16Array h view.
Proof.
  intros Hb. unfold wavBufferToRawPcm.
  intros (chunks & _ & Hrun)%bind_readOnly_inv; [|apply readOnly_parseWavFile].
  destruct (chunks !! "fmt") as [fmtChunk|]; [|discriminate].
  apply bind_readOnly_inv in Hrun as (fmt & _ & Hrun);
    [|apply readOnly_parseFMT].
  repeat (destruct (negb _); [discriminate|]).
  destruct (chunks !! "data") as [data|]; [|discriminate].
  exact (newUint16Array_inv _ _ _ _ _ _ Hrun Hb).
Qed.

Lemma valid_msuToRawPcm (msuBuffer : BufRef) (packLoop : bool)
    (h h' : Heap) (r : RawLoopedPCM) :
  (msuBuffer < length h)%nat →
  msuToRawPcm msuBuffer packLoop h = (h', Return r) →
  validUint16Array h (pcm_loop r) ∧
  ∀ intro, pcm_intro r = Some intro → validUint16Array h intro.
Proof.
  intros Hb. unfold msuToRawPcm.
  intros (view & _ & Hrun)%bind_readOnly_inv; [|apply readOnly_newDataView].
  apply bind_readOnly_inv in Hrun as (magic & _ & Hrun);
    [|apply readOnly_getString].
  destruct (negb _); [discriminate|].
  apply bind_readOnly_inv in Hrun as (loopPoint & _ & Hrun);
    [|apply readOnly_getViewValue].
  apply bind_readOnly_inv in Hrun as (byteLength & _ & Hrun);
    [|apply readOnly_bufferByteLength].
  destruct (Qlt_bool _ _); [discriminate|].
  destruct (_ || _).
  - apply bind_readOnly_inv in Hrun as (loop & Hloop & Hrun);
      [|apply readOnly_newUint16Array].
    injection Hrun as _ <-. cbn [pcm_loop pcm_intro].
    split; [exact (newUint16Array_inv _ _ _ _ _ _ Hloop Hb)|discriminate].
  - apply bind_readOnly_inv in Hrun as (intro & Hintro & Hrun);
      [|apply readOnly_newUint16Array].
    apply bind_readOnly_inv in Hrun as (loop & Hloop & Hrun);
      [|apply readOnly_newUint16Array].
    injection Hrun as _ <-. cbn [pcm_loop pcm_intro].
    split; [exact (newUint16Array_inv _ _ _ _ _ _ Hloop Hb)|].
    intros a [= <-]. exact (newUint16Array_inv _ _ _ _ _ _ Hintro Hb).
Qed.

(** X22. Whatever the file and the option, the views the decoders return
    lie inside the buffer they were given and start at even offsets, so
    they are views the encoders accept: the view of [wavBufferToRawPcm],
    and the loop of [msuToRawPcm] and its intro when there is one. *)
Theorem decoders_return_valid_views (buffer : BufRef) (h : Heap) :
  (buffer < length h)%nat →
  (∀ h' view,
     wavBufferToRawPcm buffer h = (h', Return view) →
     validUint16Array h view) ∧
  (∀ packLoop h' r,
     msuToRawPcm buffer packLoop h = (h', Return r) →
     validUint16Array h (pcm_loop r) ∧
     ∀ intro, pcm_intro r = Some intro → validUint16Array h intro).
Proof.
  intros Hb. split.
  - intros h' view. apply valid_wavBufferToRawPcm. exact Hb.
  - intros packLoop h' r. apply valid_msuToRawPcm. exact Hb.
Qed.

Lemma decoders_return_valid_views_witness :
  validUint16Array store_msu_split
    {| ta_buffer := 0; ta_byteOffset := 12; ta_length := 2 |} ∧
  ∀ intro,
    Some {| ta_buffer := 0%nat; ta_byteOffset := 8; ta_length := 1 |}
      = Some intro →
    validUint16Array store_msu_split intro.
Proof.
  apply (proj2 (decoders_return_valid_views 0%nat store_msu_split
                  ltac:(simpl; lia)) false store_msu_split
           {| pcm_intro := Some {| ta_buffer := 0; ta_byteOffset := 8;
                                   ta_length := 1 |};
              pcm_loop := {| ta_buffer := 0; ta_byteOffset := 12;
                             ta_length := 2 |};
              pcm_loopPoint := None |}).
  vm_compute. reflexivity.
Defined.

(** ** Strings written and read in place *)

Lemma setViewValue_in_place (view : DataView) (h : Heap) (bytes : list byte)
    (index : Z) (size : nat) (value : Q) (littleEndian : bool) :
  h !! dv_buffer view = Some bytes →
  0 ≤ dv_byteOffset view →
  dv_byteOffset view + dv_byteLength view ≤ Z.of_nat (length bytes) →
  0 ≤ index → index + Z.of_nat size ≤ dv_byteLength view →
  setViewValue view index size value littleEndian h =
  (<[dv_buffer view :=
       take (Z.to_nat (dv_byteOffset view + index)) bytes ++
       encode size value littleEndian ++
       drop (Z.to_nat (dv_byteOffset view + index) + size) bytes]> h,
   Return ()).
Proof.
  intros Hbytes Ho Hfit Hi Hb. unfold setViewValue.
  mstep ltac:(apply toIndex_inject_Z; lia).
  destruct (Z.ltb_spec (dv_byteLength view) (index + Z.of_nat size)); [lia|].
  unfold storeBytes, writeBytes.
  rewrite (bufferBytes_lookup _ _ _ Hbytes), length_encode.
  destruct (decide _) as [_|Hout]; [reflexivity|lia].
Qed.

Lemma splice_take (bytes raw : list byte) (k : nat) :
  (k + length raw ≤ length bytes)%nat →
  take (k + length raw) (take k bytes ++ raw ++ drop (k + length raw) bytes)
  = take k bytes ++ raw.
Proof.
  intros Hk. rewrite app_assoc. apply take_app_length'.
  rewrite length_app, length_take. lia.
Qed.

Lemma splice_drop (bytes raw : list byte) (k n : nat) :
  (k + length raw ≤ length bytes)%nat →
  drop (k + length raw + n) (take k bytes ++ raw ++ drop (k + length raw) bytes)
  = drop (k + length raw + n) bytes.
Proof.
  intros Hk. rewrite app_assoc, drop_app_ge
    by (rewrite length_app, length_take; lia).
  rewrite length_app, length_take, drop_drop. f_equal. lia.
Qed.

Lemma putString_in_place (view : DataView) (chars : string) :
  ∀ (h : Heap) (bytes : list byte) (index : Z),
    h !! dv_buffer view = Some bytes →
    0 ≤ dv_byteOffset view →
    dv_byteOffset view + dv_byteLength view ≤ Z.of_nat (length bytes) →
    0 ≤ index → index + Z.of_nat (String.length chars) ≤ dv_byteLength view →
    putString view index chars h =
    (<[dv_buffer view :=
         take (Z.to_nat (dv_byteOffset view + index)) bytes ++
         stringBytes chars ++
         drop (Z.to_nat (dv_byteOffset view + index) + String.length chars)
           bytes]> h,
     Return ()).
Proof.
  induction chars as [|c chars IH]; intros h bytes index Hbytes Ho Hfit Hi Hb.
  - cbn [putString stringBytes String.length app]. rewrite Nat.add_0_r.
    rewrite take_drop, list_insert_id by exact Hbytes. reflexivity.
  - cbn [putString stringBytes String.length] in Hb |- *.
    mstep ltac:(unfold setUint8;
                apply (setViewValue_in_place view h bytes); [eassumption|lia..]).
    pose proof (lookup_lt_Some _ _ _ Hbytes) as Hlt.
    pose proof (length_encode 1 (inject_Z (charCodeAt c)) false) as Hc.
    rewrite (IH _ (take (Z.to_nat (dv_byteOffset view + index)) bytes ++
                   encode 1 (inject_Z (charCodeAt c)) false ++
                   drop (Z.to_nat (dv_byteOffset view + index) + 1) bytes));
      [|apply list_lookup_insert_eq; exact Hlt | lia
       |rewrite !length_app, length_take, length_drop, Hc; lia | lia | lia].
    rewrite list_insert_insert_eq. do 2 f_equal.
    replace (Z.to_nat (dv_byteOffset view + (index + 1)))
      with (Z.to_nat (dv_byteOffset view + index)
            + length (encode 1 (inject_Z (charCodeAt c)) false))%nat
      by (rewrite Hc; lia).
    replace (Z.to_nat (dv_byteOffset view + index) + 1)%nat
      with (Z.to_nat (dv_byteOffset view + index)
            + length (encode 1 (inject_Z (charCodeAt c)) false))%nat
      by (rewrite Hc; lia).
    rewrite splice_take, splice_drop by (rewrite Hc; lia).
    rewrite <- !app_assoc, Hc. do 3 f_equal. f_equal. lia.
Qed.

(** X23. A string that fits the view is written and read back in place:
    [putString] replaces the bytes at the position by the character codes
    and leaves every other byte of the buffer and every other buffer as
    it is, and [getString] at the same position and length returns the
    string. *)
Theorem putString_getString (view : DataView) (chars : string) (h : Heap)
    (bytes : list byte) (index : Z) :
  h !! dv_buffer view = Some bytes →
  0 ≤ dv_byteOffset view →
  dv_byteOffset view + dv_byteLength view ≤ Z.of_nat (length bytes) →
  0 ≤ index → index + Z.of_nat (String.length chars) ≤ dv_byteLength view →
  ∃ h',
    putString view index chars h = (h', Return ()) ∧
    getString view index (String.length chars) h' = (h', Return chars) ∧
    h' !! dv_buffer view =
      Some (take (Z.to_nat (dv_byteOffset view + index)) bytes ++
            stringBytes chars ++
            drop (Z.to_nat (dv_byteOffset view + index) + String.length chars)
              bytes) ∧
    ∀ b, b ≠ dv_buffer view → h' !! b = h !! b.
Proof.
  intros Hbytes Ho Hfit Hi Hb.
  pose proof (lookup_lt_Some _ _ _ Hbytes) as Hlt.
  eexists. split; [apply (putString_in_place view chars h bytes); assumption|].
  split; [|split].
  - match goal with |- getString _ _ _ ?h1 = _ =>
      pose proof (getString_at view h1 (stringBytes chars) index
                    (String.length chars)
                    (take (Z.to_nat (dv_byteOffset view + index)) bytes)
                    (drop (Z.to_nat (dv_byteOffset view + index)
                           + String.length chars) bytes)) as Hget
    end.
    rewrite bytesString_stringBytes in Hget. apply Hget.
    + unfold bufferBytes. rewrite list_lookup_insert_eq by exact Hlt.
      reflexivity.
    + apply length_stringBytes.
    + exact Hi.
    + rewrite length_take. lia.
    + exact Hb.
  - apply list_lookup_insert_eq. exact Hlt.
  - intros b Hne. apply list_lookup_insert_ne. congruence.
Qed.

Lemma putString_getString_witness :
  ∃ h',
    putString {| dv_buffer := 0; dv_byteOffset := 4; dv_byteLength := 8 |}
      2 "ab" store_msu_split = (h', Return ()) ∧
    getString {| dv_buffer := 0; dv_byteOffset := 4; dv_byteLength := 8 |}
      2 2 h' = (h', Return "ab") ∧
    h' !! 0%nat =
      Some ([x4d; x53; x55; x31; x01; x00] ++ [x61; x62] ++
            [x01; x00; x02; x00; x03; x00; x04; x00]) ∧
    ∀ b, b ≠ 0%nat → h' !! b = store_msu_split !! b.
Proof.
  apply (putString_getString
           {| dv_buffer := 0; dv_byteOffset := 4; dv_byteLength := 8 |}
           "ab" store_msu_split _ 2 eq_refl).
  - simpl. lia.
  - simpl. lia.
  - lia.
  - simpl. lia.
Defined.

Lemma setViewValue_outside (view : DataView) (index : Z) (size : nat)
    (value : Q) (littleEndian : bool) (h : Heap) :
  0 ≤ index → dv_byteLength view < index + Z.of_nat size →
  setViewValue view index size value littleEndian h = (h, Throw RangeError).
Proof.
  intros Hi Hout. unfold setViewValue.
  mstep ltac:(apply toIndex_inject_Z; lia).
  destruct (Z.ltb_spec (dv_byteLength view) (index + Z.of_nat size));
    [reflexivity|lia].
Qed.

(** X24. [putString] does not check the length of the string against the
    view first: when the string runs over the end of the view, the
    characters that fit are written, one byte each, and the call then
    throws a [RangeError], so the buffer keeps the part written. *)
Theorem putString_overrun (view : DataView) (chars : string) :
  ∀ (h : Heap) (bytes : list byte) (index : Z),
    h !! dv_buffer view = Some bytes →
    0 ≤ dv_byteOffset view →
    dv_byteOffset view + dv_byteLength view ≤ Z.of_nat (length bytes) →
    0 ≤ index → chars ≠ EmptyString →
    dv_byteLength view < index + Z.of_nat (String.length chars) →
    putString view index chars h =
    (<[dv_buffer view :=
         take (Z.to_nat (dv_byteOffset view + index)) bytes ++
         stringBytes
           (String.substring 0 (Z.to_nat (dv_byteLength view - index)) chars) ++
         drop (Z.to_nat (dv_byteOffset view + index)
               + Z.to_nat (dv_byteLength view - index)) bytes]> h,
     Throw RangeError).
Proof.
  induction chars as [|c chars IH];
    intros h bytes index Hbytes Ho Hfit Hi Hne Hout; [congruence|].
  cbn [putString String.length] in Hout |- *.
  destruct (Z.lt_ge_cases index (dv_byteLength view)) as [Hin|Hend].
    + mstep ltac:(unfold setUint8;
                  apply (setViewValue_in_place view h bytes);
                  [eassumption|lia..]).
      pose proof (lookup_lt_Some _ _ _ Hbytes) as Hlt.
      pose proof (length_encode 1 (inject_Z (charCodeAt c)) false) as Hc.
      rewrite (IH _ (take (Z.to_nat (dv_byteOffset view + index)) bytes ++
                     encode 1 (inject_Z (charCodeAt c)) false ++
                     drop (Z.to_nat (dv_byteOffset view + index) + 1) bytes));
        [|apply list_lookup_insert_eq; exact Hlt | lia
         |rewrite !length_app, length_take, length_drop, Hc; lia | lia
         |destruct chars; [cbn [String.length] in Hout; lia|discriminate]
         |lia].
      rewrite list_insert_insert_eq. do 2 f_equal.
      replace (Z.to_nat (dv_byteLength view - index))
        with (S (Z.to_nat (dv_byteLength view - (index + 1)))) by lia.
      cbn [String.substring stringBytes].
      replace (Z.to_nat (dv_byteOffset view + (index + 1)))
        with (Z.to_nat (dv_byteOffset view + index)
              + length (encode 1 (inject_Z (charCodeAt c)) false))%nat
        by (rewrite Hc; lia).
      replace (Z.to_nat (dv_byteOffset view + index) + 1)%nat
        with (Z.to_nat (dv_byteOffset view + index)
              + length (encode 1 (inject_Z (charCodeAt c)) false))%nat
        by (rewrite Hc; lia).
      rewrite splice_take, splice_drop by (rewrite Hc; lia).
      rewrite <- !app_assoc, Hc. do 3 f_equal. f_equal. lia.
    + mthrow ltac:(unfold setUint8; apply setViewValue_outside; lia).
      replace (Z.to_nat (dv_byteLength view - index)) with 0%nat by lia.
      cbn [String.substring stringBytes app]. rewrite Nat.add_0_r.
      rewrite take_drop, list_insert_id by exact Hbytes. reflexivity.
Qed.

Lemma putString_overrun_witness :
  putString {| dv_buffer := 0; dv_byteOffset := 4; dv_byteLength := 8 |}
    6 "abc" store_msu_split =
  (<[0%nat := [x4d; x53; x55; x31; x01; x00; x00; x00; x01; x00] ++
              [x61; x62] ++ [x03; x00; x04; x00]]> store_msu_split,
   Throw RangeError).
Proof.
  apply (putString_overrun
           {| dv_buffer := 0; dv_byteOffset := 4; dv_byteLength := 8 |}
           "abc" store_msu_split _ 6 eq_refl).
  - simpl. lia.
  - simpl. lia.
  - lia.
  - discriminate.
  - simpl. lia.
Defined.

(** ** The format record *)

(** X25. [parseFMT] reads six little-endian fields at offsets 0, 2, 4, 8, 12
    and 14 of the view: on the 16 bytes that hold a format whose fields fit
    their widths it returns that format, whatever bytes follow in the
    view, and on a view of fewer than 16 bytes it throws a
    [RangeError]. *)
Theorem parseFMT_reads (h : Heap) (view : DataView) :
  (∀ (fmt : WaveFormat) (pre post : list byte),
     bufferBytes h (dv_buffer view) = pre ++ fmtBytes fmt ++ post →
     Z.of_nat (length pre) = dv_byteOffset view →
     16 ≤ dv_byteLength view → validFormat fmt →
     parseFMT view h = (h, Return fmt)) ∧
  (dv_byteLength view < 16 → parseFMT view h = (h, Throw RangeError)).
Proof.
  split.
  - intros fmt pre post. apply parseFMT_at.
  - apply parseFMT_range.
Qed.

Lemma parseFMT_reads_witness :
  parseFMT {| dv_buffer := 0; dv_byteOffset := 30; dv_byteLength := 18 |}
    store_riff_lenient = (store_riff_lenient, Return lenientFormat).
Proof.
  apply (proj1 (parseFMT_reads store_riff_lenient
                  {| dv_buffer := 0; dv_byteOffset := 30; dv_byteLength := 18 |})
           lenientFormat
           (take 30 (bufferBytes store_riff_lenient 0))
           (drop 46 (bufferBytes store_riff_lenient 0))).
  - vm_compute. reflexivity.
  - vm_compute. reflexivity.
  - vm_compute. discriminate.
  - vm_compute. repeat split; discriminate.
Defined.

(** ** Views in a store that has grown *)

Lemma validUint16Array_app (h more : Heap) (array : Uint16Array) :
  validUint16Array h array → validUint16Array (h ++ more) array.
Proof.
  intros (Hb & Ho & Hal & Hl & Hfit). unfold validUint16Array, bufferBytes in *.
  rewrite lookup_app_l by exact Hb. rewrite length_app.
  repeat split; [lia|assumption..].
Qed.

Lemma elementsOf_app (h more : Heap) (array : Uint16Array) :
  (ta_buffer array < length h)%nat →
  elementsOf (h ++ more) array = elementsOf h array.
Proof.
  intros Hb. unfold elementsOf, bufferBytes.
  rewrite lookup_app_l by exact Hb. reflexivity.
Qed.

Lemma wavAsRawPcm_one (file : list byte) :
  wavAsRawPcm [file] = (arrayBuffer file ≫= wavBufferToRawPcm).
Proof. reflexivity. Qed.

Lemma wavAsRawPcm_none (fileInput : FileInput) (h : Heap) :
  length fileInput ≠ 1%nat →
  wavAsRawPcm fileInput h = (h, Throw (Error "No files selected")).
Proof.
  intros Hn. unfold wavAsRawPcm.
  destruct (Z.eqb_spec (Z.of_nat (length fileInput)) 1); [lia|]. reflexivity.
Qed.

Lemma arrayBuffer_run (file : list byte) (h : Heap) :
  arrayBuffer file h = (h ++ [file], Return (length h)).
Proof. reflexivity. Qed.

Lemma cons_app3 {A : Type} (h : list A) (a b : A) :
  (h ++ [a]) ++ [b] = h ++ [a; b].
Proof. rewrite <- app_assoc. reflexivity. Qed.

Lemma cons_app4 {A : Type} (h : list A) (a b c : A) :
  ((h ++ [a]) ++ [b]) ++ [c] = h ++ [a; b; c].
Proof. rewrite <- !app_assoc. reflexivity. Qed.

Lemma wavAsRawPcm_run (file : list byte) (h h' : Heap) (o : outcome Uint16Array) :
  wavBufferToRawPcm (length h) (h ++ [file]) = (h', o) →
  wavAsRawPcm [file] h = (h', o).
Proof.
  intros Hrun. rewrite wavAsRawPcm_one. unfold mbind, M_bind.
  rewrite arrayBuffer_run. exact Hrun.
Qed.

Lemma makeMSU1_no_intro_run (h : Heap) (sourceFile : list byte)
    (data : Uint16Array) (intro : FileInput) (loop : option Q) :
  wavBufferToRawPcm (length h) (h ++ [sourceFile])
    = (h ++ [sourceFile], Return data) →
  length intro ≠ 1%nat →
  makeMSU1 [sourceFile] intro loop h =
  (h ++ [sourceFile;
         msuBytes (default 0%Q loop) None (elementsOf (h ++ [sourceFile]) data)],
   Return (S (length h))).
Proof.
  intros Hsource Hnone.
  assert (Hdata : validUint16Array (h ++ [sourceFile]) data).
  { apply (valid_wavBufferToRawPcm (length h) _ _ _) in Hsource;
      [exact Hsource|]. rewrite length_app. cbn [length]. lia. }
  unfold makeMSU1.
  mstep ltac:(apply wavAsRawPcm_run; exact Hsource).
  unfold tryCatch.
  rewrite (bind_throw _ _ _ _ _ (wavAsRawPcm_none intro _ Hnone)).
  cbn [instanceofWavError].
  rewrite (rawPcmToMsu_run _ _ None loop Hdata) by discriminate.
  rewrite cons_app3, length_app. cbn [length fmap option_fmap option_map
    effectiveLoop]. repeat f_equal. lia.
Qed.

(** X26. [makeMSU1] without a usable intro: when the source file decodes and
    the intro input holds no file (or more than one), or holds a file on
    which the decoder throws a [RangeError] (a file of fewer than 12
    bytes, for one), the call does not fail: it builds the MSU-1 file of
    the source samples with the loop point [loop], 0 by default, and no
    intro. *)
Theorem makeMSU1_without_intro (h : Heap) (sourceFile : list byte)
    (data : Uint16Array) (intro : FileInput) (loop : option Q) :
  wavBufferToRawPcm (length h) (h ++ [sourceFile])
    = (h ++ [sourceFile], Return data) →
  (length intro ≠ 1%nat →
   makeMSU1 [sourceFile] intro loop h =
   (h ++ [sourceFile;
          msuBytes (default 0%Q loop) None (elementsOf (h ++ [sourceFile]) data)],
    Return (S (length h)))) ∧
  (∀ introFile,
     intro = [introFile] →
     wavBufferToRawPcm (S (length h)) (h ++ [sourceFile; introFile])
       = (h ++ [sourceFile; introFile], Throw RangeError) →
     makeMSU1 [sourceFile] intro loop h =
     (h ++ [sourceFile; introFile;
            msuBytes (default 0%Q loop) None
              (elementsOf (h ++ [sourceFile]) data)],
      Return (S (S (length h))))).
Proof.
  intros Hsource.
  assert (Hdata : validUint16Array (h ++ [sourceFile]) data).
  { apply (valid_wavBufferToRawPcm (length h) _ _ _) in Hsource;
      [exact Hsource|]. rewrite length_app. cbn [length]. lia. }
  split.
  - intros Hnone. apply makeMSU1_no_intro_run; assumption.
  - intros introFile -> Hintro. unfold makeMSU1.
    mstep ltac:(apply wavAsRawPcm_run; exact Hsource).
    unfold tryCatch.
    erewrite bind_throw;
      [|apply wavAsRawPcm_run; rewrite cons_app3, length_app, Nat.add_1_r;
        exact Hintro].
    cbn [instanceofWavError].
    rewrite <- cons_app3.
    rewrite (rawPcmToMsu_run _ _ None loop
               (validUint16Array_app _ [introFile] _ Hdata)) by discriminate.
    rewrite elementsOf_app by apply Hdata.
    rewrite cons_app4, !length_app. cbn [length fmap option_fmap option_map
      effectiveLoop]. repeat f_equal. lia.
Qed.

Lemma makeMSU1_without_intro_witness :
  makeMSU1 [riffBytes (chunksBytes chunks_lenient)] [file_tiny]
    (Some 1%Q) [] =
  ([riffBytes (chunksBytes chunks_lenient); file_tiny;
    msuBytes 1%Q None
      (elementsOf [riffBytes (chunksBytes chunks_lenient)]
         {| ta_buffer := 0; ta_byteOffset := 56; ta_length := 2 |})],
   Return 2%nat).
Proof.
  apply (proj2 (makeMSU1_without_intro [] (riffBytes (chunksBytes chunks_lenient))
                  {| ta_buffer := 0; ta_byteOffset := 56; ta_length := 2 |}
                  [file_tiny] (Some 1%Q) ltac:(vm_compute; reflexivity))
           file_tiny eq_refl).
  vm_compute. reflexivity.
Defined.

(** X27. [makeMSU1] with an intro file that decodes: the result is the MSU-1
    file whose loop point is half the number of intro sample values, with
    the intro values most significant byte first and the source values
    least significant byte first; the [loop] given by the caller plays no
    part. *)
Theorem makeMSU1_with_intro (h : Heap) (sourceFile introFile : list byte)
    (data introPcm : Uint16Array) (loop : option Q) :
  wavBufferToRawPcm (length h) (h ++ [sourceFile])
    = (h ++ [sourceFile], Return data) →
  wavBufferToRawPcm (S (length h)) (h ++ [sourceFile; introFile])
    = (h ++ [sourceFile; introFile], Return introPcm) →
  makeMSU1 [sourceFile] [introFile] loop h =
  (h ++ [sourceFile; introFile;
         msuBytes (inject_Z (ta_length introPcm) / 2)
           (Some (elementsOf (h ++ [sourceFile; introFile]) introPcm))
           (elementsOf (h ++ [sourceFile]) data)],
   Return (S (S (length h)))).
Proof.
  intros Hsource Hintro.
  assert (Hdata : validUint16Array (h ++ [sourceFile]) data).
  { apply (valid_wavBufferToRawPcm (length h) _ _ _) in Hsource;
      [exact Hsource|]. rewrite length_app. cbn [length]. lia. }
  assert (HintroPcm : validUint16Array (h ++ [sourceFile; introFile]) introPcm).
  { apply (valid_wavBufferToRawPcm (S (length h)) _ _ _) in Hintro;
      [exact Hintro|]. rewrite length_app. cbn [length]. lia. }
  unfold makeMSU1.
  mstep ltac:(apply wavAsRawPcm_run; exact Hsource).
  unfold tryCatch.
  erewrite bind_return;
    [|apply wavAsRawPcm_run; rewrite cons_app3, length_app, Nat.add_1_r;
      exact Hintro].
  rewrite <- (cons_app3 h sourceFile introFile) at 1 2.
  rewrite (rawPcmToMsu_run _ data (Some introPcm) None);
    [|apply validUint16Array_app; exact Hdata
     |intros a [= <-]; rewrite cons_app3; exact HintroPcm].
  rewrite elementsOf_app by apply Hdata.
  rewrite cons_app4, !length_app.
  cbn [length fmap option_fmap option_map effectiveLoop].
  rewrite cons_app3. repeat f_equal. lia.
Qed.

Lemma makeMSU1_with_intro_witness :
  makeMSU1 [riffBytes (chunksBytes chunks_lenient)] [wavBytes [7; 8]]
    (Some 1%Q) [] =
  ([riffBytes (chunksBytes chunks_lenient); wavBytes [7; 8];
    msuBytes (inject_Z 2 / 2)
      (Some (elementsOf [riffBytes (chunksBytes chunks_lenient); wavBytes [7; 8]]
               {| ta_buffer := 1; ta_byteOffset := 44; ta_length := 2 |}))
      (elementsOf [riffBytes (chunksBytes chunks_lenient)]
         {| ta_buffer := 0; ta_byteOffset := 56; ta_length := 2 |})],
   Return 2%nat).
Proof.
  apply (makeMSU1_with_intro [] (riffBytes (chunksBytes chunks_lenient))
           (wavBytes [7; 8])
           {| ta_buffer := 0; ta_byteOffset := 56; ta_length := 2 |}
           {| ta_buffer := 1; ta_byteOffset := 44; ta_length := 2 |}
           (Some 1%Q)).
  - vm_compute. reflexivity.
  - vm_compute. reflexivity.
Defined.

(** X28. The errors of [makeMSU1]. A source input that does not hold exactly
    one file gives the [Error] "No files selected" before anything is
    loaded; an error of the decoder on the source file, of whatever kind,
    is thrown on, since the source is decoded outside the [try]; and a
    [WavError] of the decoder on the intro file is thrown again by the
    handler, so that nothing is built although the source decoded. *)
Theorem makeMSU1_errors (h : Heap) (intro : FileInput) (loop : option Q) :
  (∀ source, length source ≠ 1%nat →
     makeMSU1 source intro loop h = (h, Throw (Error "No files selected"))) ∧
  (∀ sourceFile h' e,
     wavBufferToRawPcm (length h) (h ++ [sourceFile]) = (h', Throw e) →
     makeMSU1 [sourceFile] intro loop h = (h', Throw e)) ∧
  (∀ sourceFile introFile data message,
     intro = [introFile] →
     wavBufferToRawPcm (length h) (h ++ [sourceFile])
       = (h ++ [sourceFile], Return data) →
     wavBufferToRawPcm (S (length h)) (h ++ [sourceFile; introFile])
       = (h ++ [sourceFile; introFile], Throw (WavError message)) →
     makeMSU1 [sourceFile] intro loop h =
     (h ++ [sourceFile; introFile], Throw (WavError message))).
Proof.
  split; [|split].
  - intros source Hnone. unfold makeMSU1.
    mthrow ltac:(apply wavAsRawPcm_none; exact Hnone). reflexivity.
  - intros sourceFile h' e Hsource. unfold makeMSU1.
    mthrow ltac:(apply wavAsRawPcm_run; exact Hsource). reflexivity.
  - intros sourceFile introFile data message -> Hsource Hintro.
    unfold makeMSU1.
    mstep ltac:(apply wavAsRawPcm_run; exact Hsource).
    unfold tryCatch.
    erewrite bind_throw;
      [|apply wavAsRawPcm_run; rewrite cons_app3, length_app, Nat.add_1_r;
        exact Hintro].
    reflexivity.
Qed.

Lemma makeMSU1_errors_witness :
  makeMSU1 [riffBytes (chunksBytes chunks_lenient)]
    [riffBytes (chunksBytes [("fmt ", fmtBytes floatFormat)])] (Some 1%Q) [] =
  ([riffBytes (chunksBytes chunks_lenient);
    riffBytes (chunksBytes [("fmt ", fmtBytes floatFormat)])],
   Throw (WavError "Format should be PCM (1); got 3")).
Proof.
  apply (proj2 (proj2 (makeMSU1_errors []
                         [riffBytes (chunksBytes [("fmt ", fmtBytes floatFormat)])]
                         (Some 1%Q)))
           (riffBytes (chunksBytes chunks_lenient))
           (riffBytes (chunksBytes [("fmt ", fmtBytes floatFormat)]))
           {| ta_buffer := 0; ta_byteOffset := 56; ta_length := 2 |}
           "Format should be PCM (1); got 3" eq_refl).
  - vm_compute. reflexivity.
  - vm_compute. reflexivity.
Defined.

(** ** MSU-1 files to WAVE files *)

Lemma msuAsRawPcm_run (file : list byte) (packLoop : bool) (h h' : Heap)
    (o : outcome RawLoopedPCM) :
  msuToRawPcm (length h) packLoop (h ++ [file]) = (h', o) →
  msuAsRawPcm [file] packLoop h = (h', o).
Proof.
  intros Hrun.
  change (msuAsRawPcm [file] packLoop)
    with (arrayBuffer file ≫= λ buffer, msuToRawPcm buffer packLoop).
  unfold mbind, M_bind. rewrite arrayBuffer_run. exact Hrun.
Qed.

Lemma makeWav_whole_run (h : Heap) (file : list byte) (packLoop : bool) :
  (8 ≤ length file)%nat → take 4 file = [x4d; x53; x55; x31] →
  2 * bytesToNumber (take 4 (drop 4 file)) ≤ Z.of_nat (length file) - 8 →
  bytesToNumber (take 4 (drop 4 file)) = 0 ∨ packLoop = true →
  makeWav [file] packLoop h =
  (h ++ [file; wavBytes (bytesSamples (drop 8 file))],
   Return {| wav_intro := None; wav_loop := S (length h);
             wav_loopPoint := Some (bytesToNumber (take 4 (drop 4 file))) |}).
Proof.
  intros Hlen Hmagic Hguard Hwhole.
  assert (Hlookup : (h ++ [file]) !! length h = Some file) by apply lookup_fresh.
  assert (Hb : (length h < length (h ++ [file]))%nat)
    by (rewrite length_app; cbn [length]; lia).
  destruct (msuToRawPcm_whole_run _ _ packLoop file Hlookup Hlen Hmagic
              Hguard Hwhole) as [Hrun Helements].
  pose proof (valid_msuToRawPcm _ _ _ _ _ Hb Hrun) as [Hvalid _].
  cbn [pcm_loop] in Hvalid.
  unfold makeWav.
  mstep ltac:(apply msuAsRawPcm_run; exact Hrun).
  cbn [pcm_intro pcm_loop pcm_loopPoint].
  mstep ltac:(reflexivity).
  mstep ltac:(apply rawPcmToWav_run; exact Hvalid).
  rewrite Helements, cons_app3, length_app, Nat.add_1_r. reflexivity.
Qed.

(** X29. [makeWav] on an MSU-1 file with the magic and a loop point [L] that
    the guard lets through. With [L = 0] or [packLoop] it builds one WAVE
    file, of all the 16-bit values after the header, and returns [L] as
    [loopPoint]. Otherwise, when [4 * L] bytes follow the header, it builds
    two, the intro first: one of the first [L] values and one of the values
    from byte [8 + 4 * L] on; the values between the two are in neither
    file, and there is no [loopPoint]. *)
Theorem makeWav_files (h : Heap) (file : list byte) (L : Z) :
  (8 ≤ length file)%nat → take 4 file = [x4d; x53; x55; x31] →
  bytesToNumber (take 4 (drop 4 file)) = L →
  2 * L ≤ Z.of_nat (length file) - 8 →
  (∀ packLoop, L = 0 ∨ packLoop = true →
     makeWav [file] packLoop h =
     (h ++ [file; wavBytes (bytesSamples (drop 8 file))],
      Return {| wav_intro := None; wav_loop := S (length h);
                wav_loopPoint := Some L |})) ∧
  (L ≠ 0 → 4 * L ≤ Z.of_nat (length file) - 8 →
   makeWav [file] false h =
   (h ++ [file; wavBytes (take (Z.to_nat L) (bytesSamples (drop 8 file)));
          wavBytes (bytesSamples (drop (Z.to_nat (8 + L * 4)) file))],
    Return {| wav_intro := Some (S (length h)); wav_loop := S (S (length h));
              wav_loopPoint := None |})).
Proof.
  intros Hlen Hmagic HL Hguard.
  assert (Hlookup : (h ++ [file]) !! length h = Some file) by apply lookup_fresh.
  assert (Hb : (length h < length (h ++ [file]))%nat)
    by (rewrite length_app; cbn [length]; lia).
  split.
  - intros packLoop Hwhole. rewrite <- HL in Hguard, Hwhole |- *.
    apply makeWav_whole_run; assumption.
  - intros Hnz Hfit.
    destruct (msuToRawPcm_split_run _ _ file L Hlookup Hlen Hmagic HL Hnz Hfit)
      as (Hrun & Hintro & Hloop).
    pose proof (valid_msuToRawPcm _ _ _ _ _ Hb Hrun) as [Hvl Hvi].
    cbn [pcm_loop pcm_intro] in Hvl, Hvi. specialize (Hvi _ eq_refl).
    unfold makeWav.
    mstep ltac:(apply msuAsRawPcm_run; exact Hrun).
    cbn [pcm_intro pcm_loop pcm_loopPoint].
    mstep ltac:(erewrite bind_return;
                [reflexivity|apply rawPcmToWav_run; exact Hvi]).
    mstep ltac:(apply rawPcmToWav_run; apply validUint16Array_app; exact Hvl).
    rewrite (elementsOf_app (h ++ [file]) _ _ (proj1 Hvl)).
    rewrite Hintro, Hloop, cons_app4, !length_app, !Nat.add_1_r. reflexivity.
Qed.

Lemma makeWav_files_witness :
  makeWav [[x4d; x53; x55; x31; x01; x00; x00; x00;
            x01; x00; x02; x00; x03; x00; x04; x00]] false [] =
  ([[x4d; x53; x55; x31; x01; x00; x00; x00;
     x01; x00; x02; x00; x03; x00; x04; x00];
    wavBytes [1]; wavBytes [3; 4]],
   Return {| wav_intro := Some 1%nat; wav_loop := 2%nat;
             wav_loopPoint := None |}).
Proof.
  apply (proj2 (makeWav_files []
                  [x4d; x53; x55; x31; x01; x00; x00; x00;
                   x01; x00; x02; x00; x03; x00; x04; x00] 1
                  ltac:(simpl; lia) eq_refl eq_refl ltac:(simpl; lia))).
  - discriminate.
  - simpl. lia.
Defined.

(** ** From a WAVE file to an MSU-1 file and back *)

(** X30. The two directions of the page undo each other on the files it
    writes: [makeMSU1] on the WAVE file of the samples [samples], with no
    intro selected and the loop point [n], builds the MSU-1 file of [n] and
    the samples, and [makeWav] on that file with [packLoop] builds the
    WAVE file again, byte for byte, and returns [n] as [loopPoint]. *)
Theorem wav_msu_wav_files (h h' : Heap) (samples : list Z) (n : Z) :
  Forall (λ v, 0 ≤ v < 65536) samples →
  36 + Z.of_nat (length samples) * 2 < 2 ^ 32 →
  0 ≤ n → 2 * n ≤ Z.of_nat (length samples) →
  makeMSU1 [wavBytes samples] [] (Some (inject_Z n)) h =
  (h ++ [wavBytes samples; msuBytes (inject_Z n) None samples],
   Return (S (length h))) ∧
  makeWav [msuBytes (inject_Z n) None samples] true h' =
  (h' ++ [msuBytes (inject_Z n) None samples; wavBytes samples],
   Return {| wav_intro := None; wav_loop := S (length h');
             wav_loopPoint := Some n |}).
Proof.
  intros Hrange Hfit Hn Hguard. split.
  - rewrite (makeMSU1_no_intro_run h (wavBytes samples) _ [] (Some (inject_Z n))
               (wavBufferToRawPcm_wavBytes h samples Hfit))
      by discriminate.
    destruct (wavBytes_data samples) as (header & Hheader & Hdata).
    rewrite (elementsOf_samplesBytes _ _ _ header [] samples);
      [reflexivity | rewrite bufferBytes_last; exact Hdata | lia | exact Hrange].
  - destruct (msuBytes_parts (inject_Z n) None samples)
      as (Hmagic & Hfield & Hrest & Hlen).
    cbn [app] in Hrest, Hlen. rewrite length_samplesBytes in Hlen.
    assert (HL : bytesToNumber
                   (take 4 (drop 4 (msuBytes (inject_Z n) None samples))) = n).
    { rewrite Hfield. apply decode_encode_32. lia. }
    rewrite (makeWav_whole_run h' _ true);
      [|lia | exact Hmagic | rewrite HL, Hlen; lia | right; reflexivity].
    rewrite HL, Hrest, bytesSamples_samplesBytes_le by exact Hrange.
    reflexivity.
Qed.

Lemma wav_msu_wav_files_witness :
  makeMSU1 [wavBytes [1; 2; 3; 4]] [] (Some (inject_Z 1)) [] =
  ([wavBytes [1; 2; 3; 4]; msuBytes (inject_Z 1) None [1; 2; 3; 4]],
   Return 1%nat) ∧
  makeWav [msuBytes (inject_Z 1) None [1; 2; 3; 4]] true [] =
  ([msuBytes (inject_Z 1) None [1; 2; 3; 4]; wavBytes [1; 2; 3; 4]],
   Return {| wav_intro := None; wav_loop := 1%nat; wav_loopPoint := Some 1 |}).
Proof.
  apply (wav_msu_wav_files [] [] [1; 2; 3; 4] 1).
  - repeat constructor; lia.
  - vm_compute. reflexivity.
  - lia.
  - simpl. lia.
Defined.
